(** * The Logicle display transform of cytoflow: a shallow embedding

    The development follows [Logicle.cpp], [FastLogicle.cpp] and [logicle.h].
    A [double] is kept abstract: every function of the program is written
    once, over an interface [Arith] that lists the operations the C++ text
    applies to doubles.  Two interpretations are given further down: the
    real numbers (exact arithmetic, where the analytic identities of the
    transform hold) and IEEE-754 binary64 (Rocq's primitive floats, where the
    program can be run). *)

From Stdlib Require Import ZArith List String Bool Lia.
From Stdlib Require Import Reals Lra.
From Stdlib Require Import Floats.
Import ListNotations.

Set Implicit Arguments.

(** ** Doubles *)

(** The operations of [double] used by the program.  [of_int] is the
    conversion of an [int] (and of an integer literal) to [double];
    [to_int] is the cast [(int) x].  [fexp], [flog], [ffloor], [fceil] and
    [fabs] are <cmath>'s [exp], [log], [floor], [ceil] and [std::abs]. *)
Class Arith (D : Type) : Type := {
  of_int : Z -> D;
  to_int : D -> Z;
  fadd : D -> D -> D;
  fsub : D -> D -> D;
  fmul : D -> D -> D;
  fdiv : D -> D -> D;
  fneg : D -> D;
  fabs : D -> D;
  fexp : D -> D;
  flog : D -> D;
  ffloor : D -> D;
  fceil : D -> D;
  flt : D -> D -> bool;
  fle : D -> D -> bool;
  feq : D -> D -> bool;
  (* std::numeric_limits<double>::epsilon () *)
  EPSILON : D
}.

Declare Scope dbl_scope.
Delimit Scope dbl_scope with dbl.
Notation "x + y" := (fadd x y) : dbl_scope.
Notation "x - y" := (fsub x y) : dbl_scope.
Notation "x * y" := (fmul x y) : dbl_scope.
Notation "x / y" := (fdiv x y) : dbl_scope.
Notation "- x" := (fneg x) : dbl_scope.
Notation "x <? y" := (flt x y) : dbl_scope.
Notation "x >? y" := (flt y x) (only parsing) : dbl_scope.
Notation "x <=? y" := (fle x y) : dbl_scope.
Notation "x >=? y" := (fle y x) (only parsing) : dbl_scope.
Notation "x =? y" := (feq x y) : dbl_scope.
(* an integer literal inside a double expression *)
Notation "# n" := (of_int n%Z) (at level 1, n at level 0, format "# n") : dbl_scope.

(** ** Integers *)

(** An [int] is a 32-bit two's-complement integer, kept as a [Z]; sums and
    differences of program variables wrap around. *)
Definition INT_MIN : Z := - 2 ^ 31.
Definition INT_MAX : Z := 2 ^ 31 - 1.
Definition wrap (z : Z) : Z := (z + 2 ^ 31) mod 2 ^ 32 - 2 ^ 31.
Definition iadd (x y : Z) : Z := wrap (x + y).
Definition isub (x y : Z) : Z := wrap (x - y).
Definition in_int (z : Z) : Prop := (INT_MIN <= z <= INT_MAX)%Z.

(** ** Outcomes *)

(** The exceptions of [logicle.h].  [IllegalArgument] has a [double] and an
    [int] constructor in the source; both store the formatted value.  Two
    exceptions come from the C++ library and not from the classes:
    [new double[n]] with a negative [n] throws [std::bad_array_new_length],
    and [std::vector::resize] with a negative [int] (a length above
    [max_size ()] once converted to [size_t]) throws [std::length_error].
    Memory is taken to suffice for every non-negative length. *)
Inductive exception (D : Type) : Type :=
| IllegalArgument (value : D)
| IllegalArgumentInt (value : Z)
| IllegalParameter (message : string)
| DidNotConverge (message : string)
| BadArrayNewLength
| LengthError.
Arguments IllegalArgument {D} value.
Arguments IllegalArgumentInt {D} value.
Arguments IllegalParameter {D} message.
Arguments DidNotConverge {D} message.
Arguments BadArrayNewLength {D}.
Arguments LengthError {D}.

(** What a call does: it returns, it throws, or it leaves the defined
    behaviour of C++ (an array read or written outside its bounds). *)
Inductive outcome (D A : Type) : Type :=
| Ok (a : A)
| Throw (e : exception D)
| Undefined.
Arguments Ok {D A} a.
Arguments Throw {D A} e.
Arguments Undefined {D A}.

Definition bind {D A B} (m : outcome D A) (k : A -> outcome D B) : outcome D B :=
  match m with
  | Ok a => k a
  | Throw e => Throw e
  | Undefined => Undefined
  end.

Notation "x <- m ;; k" := (bind m (fun x => k))
  (at level 61, m at next level, right associativity).

(** [l[i]] for an array held as a list. *)
Definition load {D A} (l : list A) (i : Z) : outcome D A :=
  if (i <? 0)%Z then Undefined
  else match nth_error l (Z.to_nat i) with
       | Some x => Ok x
       | None => Undefined
       end.

Fixpoint update_nth {A} (l : list A) (n : nat) (v : A) : option (list A) :=
  match l, n with
  | [], _ => None
  | _ :: t, O => Some (v :: t)
  | h :: t, S n' =>
      match update_nth t n' v with
      | Some t' => Some (h :: t')
      | None => None
      end
  end.

(** [l[i] = v]. *)
Definition store {D A} (l : list A) (i : Z) (v : A) : outcome D (list A) :=
  if (i <? 0)%Z then Undefined
  else match update_nth l (Z.to_nat i) v with
       | Some l' => Ok l'
       | None => Undefined
       end.

(** [memcpy (dst, src, n * sizeof (double))] into a fresh array of [n]
    entries: the first [n] entries of [src].  Reading past the end of [src]
    leaves the defined behaviour. *)
Definition memcpy {D A} (src : list A) (n : Z) : outcome D (list A) :=
  if (Z.of_nat (List.length src) <? n)%Z then Undefined
  else Ok (firstn (Z.to_nat n) src).

(** ** Loops *)

(** One pass through a loop body either falls through to the next pass with
    a new state, or leaves the function (by [return] or [throw]). *)
Inductive pass (St R : Type) : Type :=
| Next (s : St)
| Leave (r : R).
Arguments Next {St R} s.
Arguments Leave {St R} r.

(** [for (int i = lo; n passes; ++i) body]: the result is what the loop
    left the function with, or the state it fell out of the loop with,
    together with the number of passes that were run. *)
Fixpoint for_loop {St R} (body : Z -> St -> pass St R) (n : nat) (i : Z) (s : St)
  : pass St R * nat :=
  match n with
  | O => (Next s, O)
  | S n' =>
      match body i s with
      | Next s' => let (r, k) := for_loop body n' (i + 1) s' in (r, S k)
      | Leave r => (Leave r, 1%nat)
      end
  end.

(** The state after [n] passes of a loop none of which left the function;
    [None] when one of them did. *)
Fixpoint fall_through {St R} (body : Z -> St -> pass St R) (n : nat) (i : Z) (s : St)
  : option St :=
  match n with
  | O => Some s
  | S n' =>
      match body i s with
      | Next s' => fall_through body n' (i + 1) s'
      | Leave _ => None
      end
  end.

(** ** The parameter block *)

(** [struct logicle_params] of [logicle.h].  [taylor] and [lookup] point to
    arrays; [lookup] and [bins] are only set by [FastLogicle]. *)
Record logicle_params (D : Type) : Type := {
  T : D; W : D; M : D; A : D;
  a : D; b : D; c : D; d : D; f : D;
  w : D; x0 : D; x1 : D; x2 : D;
  xTaylor : D;
  taylor : list D;
  lookup : list D;
  bins : Z
}.

(** * Logicle.cpp *)

Module Logicle.
Section WithArith.
Context {D : Type} {AR : Arith D}.
Local Open Scope string_scope.
Local Open Scope dbl_scope.

Local Abbreviation result := (outcome D).
Local Abbreviation params := (logicle_params D).

Definition DEFAULT_DECADES : D := #9 / #2.            (* 4.5 *)
Definition LN_10 : D := flog #10.
Definition TAYLOR_LENGTH : Z := 16.

(** The state of the loop of [solve].  [last_f] starts as NaN, which
    compares unequal to every double: [None] stands for it. *)
Record solve_state : Type := {
  d_lo : D; d_hi : D; s_d : D; last_delta : D; s_f : D; last_f : option D
}.

Definition eq_last (f : D) (last : option D) : bool :=
  match last with
  | Some l => f =? l
  | None => false
  end.

(** The body of the loop of [solve] (lines 172-212). *)
Definition solve_body (w tolerance f_b : D) (_ : Z) (s : solve_state)
  : pass solve_state D :=
  let d := s_d s in
  let f := s_f s in
  (* compute the derivative *)
  let df := #2 / d + w in
  let after (delta d : D) : pass solve_state D :=
    (* if we've reached the desired precision we're done *)
    if fabs delta <? tolerance then Leave d
    else
      (* recompute the function *)
      let f' := #2 * flog d + w * d + f_b in
      if (f' =? #0) || eq_last f' (last_f s) then Leave d
      else
        (* update the bracketing interval *)
        if f' <? #0
        then Next {| d_lo := d; d_hi := d_hi s; s_d := d;
                     last_delta := delta; s_f := f'; last_f := Some f' |}
        else Next {| d_lo := d_lo s; d_hi := d; s_d := d;
                     last_delta := delta; s_f := f'; last_f := Some f' |} in
  if (((d - d_hi s) * df - f) * ((d - d_lo s) * df - f) >=? #0)
     || (fabs ((#19 / #10) * f) >? fabs (last_delta s * df))
  then
    (* take a bisection step *)
    let delta := (d_hi s - d_lo s) / #2 in
    let d' := d_lo s + delta in
    if d' =? d_lo s then Leave d' else after delta d'
  else
    (* otherwise take a Newton's method step *)
    let delta := f / df in
    let t := d in
    let d' := d - delta in
    if d' =? t then Leave d' else after delta d'.

(** [solve], together with the number of passes its loop made. *)
Definition solve_run (b w : D) : result D * nat :=
  (* w == 0 means its really arcsinh *)
  if w =? #0 then (Ok b, O)
  else
    (* precision is the same as that of b *)
    let tolerance := #2 * b * EPSILON in
    (* bracket the root *)
    let d_lo := #0 in
    let d_hi := b in
    (* bisection first step *)
    let d := (d_lo + d_hi) / #2 in
    let last_delta := d_hi - d_lo in
    let f_b := #(-2) * flog b + w * b in
    let f := #2 * flog d + w * d + f_b in
    let s := {| d_lo := d_lo; d_hi := d_hi; s_d := d;
                last_delta := last_delta; s_f := f; last_f := None |} in
    (* for (int i = 1; i < 20; ++i) *)
    match for_loop (solve_body w tolerance f_b) (Z.to_nat (20 - 1)) 1 s with
    | (Leave d, k) => (Ok d, k)
    | (Next _, k) =>
        (Throw (DidNotConverge "exceeded maximum iterations in solve()"), k)
    end.

Definition solve (b w : D) : result D := fst (solve_run b w).

(** The loop that fills [taylor] (lines 113-118): pass [i] multiplies the
    running coefficients and stores their sum at index [i]. *)
Fixpoint taylor_loop (b d : D) (n : nat) (i : Z) (posCoef negCoef : D) : list D :=
  match n with
  | O => []
  | S n' =>
      let posCoef := posCoef * (b / #(i + 1)) in
      let negCoef := negCoef * (- d / #(i + 1)) in
      (posCoef + negCoef) :: taylor_loop b d n' (i + 1) posCoef negCoef
  end.

Definition initialize (T W M A : D) (bins : Z) : result params :=
  if T <=? #0 then Throw (IllegalParameter "T is not positive")
  else if W <? #0 then Throw (IllegalParameter "W is negative")
  else if M <=? #0 then Throw (IllegalParameter "M is not positive")
  else if #2 * W >? M then Throw (IllegalParameter "W is too large")
  else if (- A >? W) || (A + W >? M - W)
       then Throw (IllegalParameter "A is too large")
  else
    (* if we're going to bin the data make sure that
       zero is on a bin boundary by adjusting A *)
    let A :=
      if (bins >? 0)%Z
      then
        let zero := (W + A) / (M + A) in
        let zero := ffloor (zero * #bins + #1 / #2) / #bins in
        (M * zero - W) / (#1 - zero)
      else A in
    (* actual parameters *)
    let w := W / (M + A) in
    let x2 := A / (M + A) in
    let x1 := x2 + w in
    let x0 := x2 + #2 * w in
    let b := (M + A) * LN_10 in
    d <- solve b w ;;
    let c_a := fexp (x0 * (b + d)) in
    let mf_a := fexp (b * x1) - c_a / fexp (d * x1) in
    let a := T / ((fexp b - mf_a) - c_a / fexp d) in
    let c := c_a * a in
    let f := - mf_a * a in
    (* use Taylor series near x1 *)
    let xTaylor := x1 + w / #4 in
    (* compute coefficients of the Taylor series *)
    let posCoef := a * fexp (b * x1) in
    let negCoef := - c / fexp (d * x1) in
    let taylor := taylor_loop b d (Z.to_nat TAYLOR_LENGTH) 0 posCoef negCoef in
    (* exact result of Logicle condition *)
    taylor <- store taylor 1 #0 ;;
    Ok {| T := T; W := W; M := M; A := A;
          a := a; b := b; c := c; d := d; f := f;
          w := w; x0 := x0; x1 := x1; x2 := x2;
          xTaylor := xTaylor; taylor := taylor;
          lookup := []; bins := 0 |}.

(** The constructors [Logicle (T, W, M = DEFAULT_DECADES, A = 0)] and
    [Logicle (T, W, M, A, bins)]. *)
Definition Logicle2 (T W : D) : result params := initialize T W DEFAULT_DECADES #0 0.
Definition Logicle3 (T W M : D) : result params := initialize T W M #0 0.
Definition Logicle4 (T W M A : D) : result params := initialize T W M A 0.
Definition Logicle5 (T W M A : D) (bins : Z) : result params :=
  initialize T W M A bins.

(** The copy constructor [Logicle (const Logicle &)]: the parameter block
    is copied whole, the pointer [lookup] included, and [taylor] is
    replaced by a copy of its [TAYLOR_LENGTH] entries. *)
Definition Logicle_copy (logicle : params) : result params :=
  taylor <- memcpy (taylor logicle) TAYLOR_LENGTH ;;
  Ok {| T := T logicle; W := W logicle; M := M logicle; A := A logicle;
        a := a logicle; b := b logicle; c := c logicle; d := d logicle;
        f := f logicle;
        w := w logicle; x0 := x0 logicle; x1 := x1 logicle; x2 := x2 logicle;
        xTaylor := xTaylor logicle; taylor := taylor;
        lookup := lookup logicle; bins := bins logicle |}.

Definition slope (p : params) (scale : D) : D :=
  (* reflect negative scale regions *)
  let scale := if scale <? x1 p then #2 * x1 p - scale else scale in
  a p * b p * fexp (b p * scale) + c p * d p / fexp (d p * scale).

(** The loop of [seriesBiexponential]: [i] runs from [TAYLOR_LENGTH - 2]
    down to 2. *)
Fixpoint series_loop (p : params) (x : D) (n : nat) (i : Z) (sum : D) : result D :=
  match n with
  | O => Ok sum
  | S n' =>
      t <- load (taylor p) i ;;
      series_loop p x n' (i - 1) ((sum + t) * x)
  end.

Definition seriesBiexponential (p : params) (scale : D) : result D :=
  (* Taylor series is around x1 *)
  let x := scale - x1 p in
  t <- load (taylor p) (TAYLOR_LENGTH - 1) ;;
  let sum := t * x in
  sum <- series_loop p x (Z.to_nat (TAYLOR_LENGTH - 2 - 2 + 1)) (TAYLOR_LENGTH - 2) sum ;;
  t0 <- load (taylor p) 0 ;;
  Ok ((sum * x + t0) * x).

(** The body of the loop of [scale] (lines 265-292); the state is [x]. *)
Definition scale_body (p : params) (value tolerance : D) (negative : bool)
    (_ : Z) (x : D) : pass D (result D) :=
  (* compute the function and its first two derivatives *)
  let ae2bx := a p * fexp (b p * x) in
  let ce2mdx := c p / fexp (d p * x) in
  let y :=
    if x <? xTaylor p
    then (* near zero use the Taylor series *)
      s <- seriesBiexponential p x ;; Ok (s - value)
    else (* this formulation has better roundoff behavior *)
      Ok ((ae2bx + f p) - (ce2mdx + value)) in
  match y with
  | Ok y =>
      let abe2bx := b p * ae2bx in
      let cde2mdx := d p * ce2mdx in
      let dy := abe2bx + cde2mdx in
      let ddy := b p * abe2bx - d p * cde2mdx in
      (* this is Halley's method with cubic convergence *)
      let delta := y / (dy * (#1 - y * ddy / (#2 * dy * dy))) in
      let x := x - delta in
      (* if we've reached the desired precision we're done *)
      if fabs delta <? tolerance
      then if negative then Leave (Ok (#2 * x1 p - x)) else Leave (Ok x)
      else Next x
  | Throw e => Leave (Throw e)
  | Undefined => Leave Undefined
  end.

(** [scale], together with the number of passes its loop made. *)
Definition scale_run (p : params) (value : D) : result D * nat :=
  (* handle true zero separately *)
  if value =? #0 then (Ok (x1 p), O)
  else
    (* reflect negative values *)
    let negative := value <? #0 in
    let value := if negative then - value else value in
    (* initial guess at solution *)
    let x :=
      if value <? f p
      then t0 <- load (taylor p) 0 ;; Ok (x1 p + value / t0)
      else Ok (flog (value / a p) / b p) in
    match x with
    | Ok x =>
        (* try for double precision unless in extended range *)
        let tolerance := #3 * EPSILON in
        let tolerance := if x >? #1 then #3 * x * EPSILON else tolerance in
        (* for (int i = 0; i < 10; ++i) *)
        match for_loop (scale_body p value tolerance negative)
                       (Z.to_nat (10 - 0)) 0 x with
        | (Leave r, k) => (r, k)
        | (Next _, k) => (Throw (DidNotConverge "scale() didn't converge"), k)
        end
    | Throw e => (Throw e, O)
    | Undefined => (Undefined, O)
    end.

Definition scale (p : params) (value : D) : result D := fst (scale_run p value).

Definition inverse (p : params) (scale : D) : result D :=
  (* reflect negative scale regions *)
  let negative := scale <? x1 p in
  let scale := if negative then #2 * x1 p - scale else scale in
  (* compute the biexponential *)
  inverse <-
    (if scale <? xTaylor p
     then seriesBiexponential p scale
     else Ok ((a p * fexp (b p * scale) + f p) - c p / fexp (d p * scale))) ;;
  (* handle scale for negative values *)
  if negative then Ok (- inverse) else Ok inverse.

Definition dynamicRange (p : params) : D := slope p #1 / slope p (x1 p).

(** The first loop of [axisLabels] (lines 356-361). *)
Fixpoint labels_mirror (nn : Z) (n : nat) (i : Z) (x : D) (label : list D)
  : result (list D * D) :=
  match n with
  | O => Ok (label, x)
  | S n' =>
      label <- store label (isub nn i) (- x) ;;
      label <- store label (iadd nn i) x ;;
      labels_mirror nn n' (i + 1) (x * #10) label
  end.

(** The second loop of [axisLabels] (lines 362-366). *)
Fixpoint labels_rest (nn : Z) (n : nat) (i : Z) (x : D) (label : list D)
  : result (list D) :=
  match n with
  | O => Ok label
  | S n' =>
      label <- store label (iadd nn i) x ;;
      labels_rest nn n' (i + 1) (x * #10) label
  end.

(** The two label counts computed by [axisLabels] (lines 327-351), with
    the first label value [x].  The bottom of the scale is read with
    [this->inverse (0)]; [inverse] is virtual, so the call runs the
    [inverse] of the class of the object, which is the argument
    [this_inverse]. *)
Definition label_counts_of (this_inverse : params -> D -> result D) (p : params)
  : result (Z * Z * D) :=
  (* number of decades in the positive logarithmic region *)
  let pd := M p - #2 * W p in
  (* smallest power of 10 in the region *)
  let log10x := fceil (flog (T p) / LN_10 - pd) in
  (* data value at that point *)
  let x := fexp (LN_10 * log10x) in
  (* number of positive labels *)
  let '(x, np) :=
    if x >? T p then (T p, 1%Z)
    else (x, iadd (to_int (ffloor (flog (T p) / LN_10 - log10x))) 1) in
  (* bottom of scale *)
  B <- this_inverse p #0 ;;
  (* number of negative labels *)
  let nn :=
    if x >? - B then 0%Z
    else if x =? T p then 1%Z
    else iadd (to_int (ffloor (flog (- B) / LN_10 - log10x))) 1 in
  Ok (nn, np, x).

(** [label.resize (n)]: the first [n] entries are kept, new ones are
    value-initialised. *)
Definition resize (label : list D) (n : nat) : list D :=
  (firstn n label ++ repeat #0 (n - List.length label))%list.

(** [axisLabels] writes into the vector [label] it is given. *)
Definition axisLabels_of (this_inverse : params -> D -> result D) (p : params)
    (label : list D) : result (list D) :=
  c <- label_counts_of this_inverse p ;;
  let '(nn, np, x) := c in
  (* fill in the axis labels *)
  let size := iadd (iadd nn np) 1 in
  (* label.resize (nn + np + 1) *)
  if (size <? 0)%Z then Throw LengthError
  else
    let label := resize label (Z.to_nat size) in
    label <- store label nn #0 ;;
    (* for (int i = 1; i <= nn; ++i) *)
    r <- labels_mirror nn (Z.to_nat nn) 1 x label ;;
    let '(label, x) := r in
    (* for (int i = nn + 1; i <= np; ++i) *)
    labels_rest nn (Z.to_nat (np - iadd nn 1 + 1)) (iadd nn 1) x label.

(** [axisLabels] called on an object of class [Logicle]: the virtual call
    runs [Logicle::inverse]. *)
Definition label_counts (p : params) : result (Z * Z * D) :=
  label_counts_of inverse p.
Definition axisLabels (p : params) (label : list D) : result (list D) :=
  axisLabels_of inverse p label.

End WithArith.
End Logicle.

(** * FastLogicle.cpp *)

Module FastLogicle.
Section WithArith.
Context {D : Type} {AR : Arith D}.
Local Open Scope string_scope.
Local Open Scope dbl_scope.

Local Abbreviation result := (outcome D).
Local Abbreviation params := (logicle_params D).

Definition DEFAULT_BINS : Z := Z.shiftl 1 12.

(** The loop of [initialize]: [n] passes from [i], each storing
    [Logicle::inverse ((double) i / (double) bins)] at index [i]. *)
Fixpoint lookup_loop (p : params) (bins : Z) (n : nat) (i : Z) : result (list D) :=
  match n with
  | O => Ok []
  | S n' =>
      v <- Logicle.inverse p (#i / #bins) ;;
      rest <- lookup_loop p bins n' (i + 1) ;;
      Ok (v :: rest)
  end.

Definition initialize (p : params) (bins : Z) : result params :=
  (* p->lookup = new double[bins + 1] *)
  if (iadd bins 1 <? 0)%Z then Throw BadArrayNewLength
  else
    (* for (int i = 0; i <= bins; ++i) *)
    lookup <- lookup_loop p bins (Z.to_nat (bins + 1)) 0 ;;
    Ok {| T := T p; W := W p; M := M p; A := A p;
          a := a p; b := b p; c := c p; d := d p; f := f p;
          w := w p; x0 := x0 p; x1 := x1 p; x2 := x2 p;
          xTaylor := xTaylor p; taylor := taylor p;
          lookup := lookup; bins := bins |}.

(** The constructors, in the order of [logicle.h]. *)
Definition FastLogicle5 (T W M A : D) (bins : Z) : result params :=
  p <- Logicle.Logicle5 T W M A bins ;; initialize p bins.
Definition FastLogicle4b (T W M : D) (bins : Z) : result params :=
  p <- Logicle.Logicle5 T W M #0 bins ;; initialize p bins.
Definition FastLogicle3b (T W : D) (bins : Z) : result params :=
  p <- Logicle.Logicle5 T W Logicle.DEFAULT_DECADES #0 bins ;; initialize p bins.
Definition FastLogicle4 (T W M A : D) : result params :=
  p <- Logicle.Logicle5 T W M A DEFAULT_BINS ;; initialize p DEFAULT_BINS.
Definition FastLogicle3 (T W M : D) : result params :=
  p <- Logicle.Logicle5 T W M #0 DEFAULT_BINS ;; initialize p DEFAULT_BINS.
Definition FastLogicle2 (T W : D) : result params :=
  p <- Logicle.Logicle5 T W Logicle.DEFAULT_DECADES #0 DEFAULT_BINS ;;
  initialize p DEFAULT_BINS.

(** The copy constructor [FastLogicle (const FastLogicle &)]: the engine's
    copy, then a table of its own with the [bins + 1] entries of the
    original. *)
Definition FastLogicle_copy (logicle : params) : result params :=
  p <- Logicle.Logicle_copy logicle ;;
  (* p->bins = logicle.p->bins *)
  let bins := bins logicle in
  (* p->lookup = new double[p->bins + 1] *)
  if (iadd bins 1 <? 0)%Z then Throw BadArrayNewLength
  else
    lookup <- memcpy (lookup logicle) (iadd bins 1) ;;
    Ok {| T := T p; W := W p; M := M p; A := A p;
          a := a p; b := b p; c := c p; d := d p; f := f p;
          w := w p; x0 := x0 p; x1 := x1 p; x2 := x2 p;
          xTaylor := xTaylor p; taylor := taylor p;
          lookup := lookup; bins := bins |}.

(** The search loop of [intScale] (lines 68-81), run for at most [fuel]
    passes; [None] when the passes are used up. *)
Fixpoint search (p : params) (value : D) (fuel : nat) (lo hi : Z)
  : option (result Z) :=
  if (lo <=? hi)%Z
  then
    match fuel with
    | O => None
    | S fuel' =>
        let mid := Z.shiftr (iadd lo hi) 1 in
        match load (lookup p) mid with
        | Ok key =>
            if value <? key then search p value fuel' lo (isub mid 1)
            else if value >? key then search p value fuel' (iadd mid 1) hi
            else if (mid <? bins p)%Z then Some (Ok mid)
            else (* equal to table[bins] which is for interpolation only *)
              Some (Throw (IllegalArgument value))
        | Throw e => Some (Throw e)
        | Undefined => Some Undefined
        end
    end
  else
    (* check for out of range *)
    if (hi <? 0)%Z || (lo >? bins p)%Z
    then Some (Throw (IllegalArgument value))
    else Some (Ok (isub lo 1)).

(** Every pass shrinks [hi - lo], so [bins + 2] passes are enough. *)
Definition intScale (p : params) (value : D) : result Z :=
  match search p value (Z.to_nat (bins p + 2)) 0 (bins p) with
  | Some r => r
  | None => Undefined
  end.

Definition scale (p : params) (value : D) : result D :=
  (* lookup the nearest value *)
  index <- intScale p value ;;
  (* inverse interpolate the table linearly *)
  l0 <- load (lookup p) index ;;
  l1 <- load (lookup p) (iadd index 1) ;;
  let delta := (value - l0) / (l1 - l0) in
  Ok ((#index + delta) / #(bins p)).

Definition inverse (p : params) (scale : D) : result D :=
  (* find the bin *)
  let x := scale * #(bins p) in
  let index := to_int (ffloor x) in
  if (index <? 0)%Z || (index >=? bins p)%Z
  then Throw (IllegalArgument scale)
  else
    (* interpolate the table linearly *)
    let delta := x - #index in
    l0 <- load (lookup p) index ;;
    l1 <- load (lookup p) (iadd index 1) ;;
    Ok ((#1 - delta) * l0 + delta * l1).

Definition inverse_int (p : params) (index : Z) : result D :=
  if (index <? 0)%Z || (index >=? bins p)%Z
  then Throw (IllegalArgumentInt index)
  else load (lookup p) index.

(** [axisLabels], inherited from [Logicle], called on an object of class
    [FastLogicle]: the virtual call [this->inverse (0)] runs
    [FastLogicle::inverse (double)]. *)
Definition label_counts (p : params) : result (Z * Z * D) :=
  Logicle.label_counts_of inverse p.
Definition axisLabels (p : params) (label : list D) : result (list D) :=
  Logicle.axisLabels_of inverse p label.

End WithArith.
End FastLogicle.

(** * Interpretations of [double] *)

(** ** Exact arithmetic: the real numbers *)

(** The real numbers have no rounding, no overflow and no NaN, and their
    division by zero and logarithm of a number that is not positive are
    total functions of Rocq.  A statement proved in this interpretation is
    about the formulas of the program; what the program does with doubles
    is stated in the interface [Arith] or in binary64. *)

Module Exact.
Local Open Scope R_scope.

Definition ltb (x y : R) : bool := if Rlt_dec x y then true else false.
Definition leb (x y : R) : bool := if Rle_dec x y then true else false.
Definition eqb (x y : R) : bool := if Req_dec_T x y then true else false.

(** [(int) x]: truncation toward zero; outside the range of [int] the
    conversion of x86-64 is used, which yields [INT_MIN]. *)
Definition trunc (x : R) : Z := if Rle_dec 0 x then Zfloor x else Zceil x.
Definition cast_int (x : R) : Z :=
  let z := trunc x in
  if ((INT_MIN <=? z) && (z <=? INT_MAX))%Z then z else INT_MIN.

#[export] Instance arith : Arith R := {|
  of_int := IZR;
  to_int := cast_int;
  fadd := Rplus;
  fsub := Rminus;
  fmul := Rmult;
  fdiv := Rdiv;
  fneg := Ropp;
  fabs := Rabs;
  fexp := exp;
  flog := ln;
  ffloor := fun x => IZR (Zfloor x);
  fceil := fun x => IZR (Zceil x);
  flt := ltb;
  fle := leb;
  feq := eqb;
  EPSILON := / IZR (2 ^ 52)
|}.

(** The value of [inverse] on the side of [x1] that is not reflected. *)
Definition branch (p : logicle_params R) (s : R) : outcome R R :=
  if ltb s (xTaylor p)
  then Logicle.seriesBiexponential p s
  else Ok ((a p * exp (b p * s) + f p) - c p / exp (d p * s)).

(** A parameter block with a table of two bins, to try the table functions. *)
Definition two_bins : logicle_params R := {|
  T := 0; W := 0; M := 0; A := 0; a := 0; b := 0; c := 0; d := 0; f := 0;
  w := 0; x0 := 0; x1 := 0; x2 := 0; xTaylor := 0; taylor := [];
  lookup := [0; 1; 3]; bins := 2
|}.

(** The bracket that the loop of [solve] keeps around its estimate [d]:
    [0 <= d_lo < d_hi <= b], with [d] inside and positive. *)
Definition bracket (b0 : R) (s : Logicle.solve_state (D := R)) : Prop :=
  0 <= Logicle.d_lo s /\ Logicle.d_lo s < Logicle.d_hi s /\ Logicle.d_hi s <= b0 /\
  Logicle.d_lo s <= Logicle.s_d s <= Logicle.d_hi s /\ 0 < Logicle.s_d s.

(** The bin on whose boundary [initialize] puts data zero:
    [floor (zero * bins + .5)] for [zero = (W + A) / (M + A)]. *)
Definition zero_bin (W0 M0 A0 : R) (bins0 : Z) : Z :=
  Zfloor ((W0 + A0) / (M0 + A0) * IZR bins0 + 1 / 2).
End Exact.

(** ** IEEE-754 binary64 *)

(** Rocq's primitive floats are binary64 with round-to-nearest-even, which
    is the arithmetic of [double].  <cmath> is not part of the repository:
    [floor], [ceil] and the cast to [int] are exact and are written out;
    [exp] and [log] are parameters of the interpretation. *)
Module Binary64.
Local Open Scope float_scope.

(** [(double) z], exact for every [int]. *)
Definition of_Z (z : Z) : float :=
  match z with
  | Z0 => 0
  | Zpos _ => of_uint63 (Uint63.of_Z z)
  | Zneg _ => - of_uint63 (Uint63.of_Z (- z))
  end.

(** The integer part of a finite double. *)
Definition trunc (x : float) : option Z :=
  match Prim2SF x with
  | S754_zero _ => Some 0%Z
  | S754_finite s m e =>
      let n := if (0 <=? e)%Z then (Z.pos m * 2 ^ e)%Z
               else (Z.pos m / 2 ^ (- e))%Z in
      Some (if s then (- n)%Z else n)
  | _ => None
  end.

(** [(int) x]; NaN, the infinities and values outside the range of [int]
    convert to [INT_MIN], as on x86-64. *)
Definition cast_int (x : float) : Z :=
  match trunc x with
  | Some z => if ((INT_MIN <=? z) && (z <=? INT_MAX))%Z then z else INT_MIN
  | None => INT_MIN
  end.

Definition floor (x : float) : float :=
  match Prim2SF x with
  | S754_finite s m e =>
      if (0 <=? e)%Z then x
      else
        let q := (Z.pos m / 2 ^ (- e))%Z in
        let whole := (Z.pos m mod 2 ^ (- e) =? 0)%Z in
        if s then (if whole then - of_Z q else - of_Z (q + 1)) else of_Z q
  | _ => x
  end.

Definition ceil (x : float) : float := - floor (- x).

Definition arith (libm_exp libm_log : float -> float) : Arith float := {|
  of_int := of_Z;
  to_int := cast_int;
  fadd := PrimFloat.add;
  fsub := PrimFloat.sub;
  fmul := PrimFloat.mul;
  fdiv := PrimFloat.div;
  fneg := PrimFloat.opp;
  fabs := PrimFloat.abs;
  fexp := libm_exp;
  flog := libm_log;
  ffloor := floor;
  fceil := ceil;
  flt := PrimFloat.ltb;
  fle := PrimFloat.leb;
  feq := PrimFloat.eqb;
  EPSILON := 0x1p-52
|}.

(** A reference [exp] and [log], good to a few units in the last place:
    argument reduction by powers of two, then a series.  They are used to
    run the program; no theorem below depends on their accuracy. *)
Definition ln2_hi : float := 0x1.62e42feep-1.
Definition ln2_lo : float := 0x1.a39ef35793c76p-33.

Fixpoint exp_series (r : float) (n : nat) (k : Z) (acc : float) : float :=
  match n with
  | O => acc
  | S n' => exp_series r n' (k - 1) (1 + r / of_Z k * acc)
  end.

Definition ref_exp (x : float) : float :=
  if PrimFloat.eqb x x then
    if PrimFloat.ltb 0x1.62e42fefa39efp+9 x then infinity
    else if PrimFloat.ltb x (-0x1.74910d52d3052p+9) then 0
    else
      let k := floor (x * 0x1.71547652b82fep0 + 0.5) in
      let r := (x - k * ln2_hi) - k * ln2_lo in
      Z.ldexp (exp_series r 14 14 1) (cast_int k)
  else x.

Fixpoint log_series (s2 : float) (n : nat) (k : Z) (acc : float) : float :=
  match n with
  | O => acc
  | S n' => log_series s2 n' (k - 2) (1 / of_Z k + s2 * acc)
  end.

Definition ref_log (x : float) : float :=
  if PrimFloat.eqb x x then
    if PrimFloat.ltb x 0 then nan
    else if PrimFloat.eqb x 0 then neg_infinity
    else if PrimFloat.eqb x infinity then infinity
    else
      let (m, e) := Z.frexp x in
      let (m, e) := if PrimFloat.ltb m 0x1.6a09e667f3bcdp-1
                    then (2 * m, (e - 1)%Z) else (m, e) in
      let s := (m - 1) / (m + 1) in
      let lm := 2 * s * log_series (s * s) 13 25 0 in
      of_Z e * ln2_hi + (lm + of_Z e * ln2_lo)
  else x.

Definition reference : Arith float := arith ref_exp ref_log.
End Binary64.

(** * Properties *)

Unset Implicit Arguments.

(** Case analysis on the integer comparisons of a goal. *)
Ltac zbool :=
  repeat match goal with
    | |- context [(?x <=? ?y)%Z] => destruct (Z.leb_spec x y)
    | |- context [(?x <? ?y)%Z] => destruct (Z.ltb_spec x y)
    | |- context [(?x =? ?y)%Z] => destruct (Z.eqb_spec x y)
    end;
  cbn [andb orb].

(** Case analysis on the comparisons of exponents and mantissas inside a
    comparison of two binary64 numbers. *)
Ltac cmp_cases :=
  repeat match goal with
    | |- context [Z.compare ?a ?b] => destruct (Z.compare_spec a b); subst
    | |- context [Pos.compare_cont Eq ?a ?b] =>
        change (Pos.compare_cont Eq a b) with (Pos.compare a b)
    | |- context [Pos.compare ?a ?b] => destruct (Pos.compare_spec a b); subst
    | H : context [Z.compare ?a ?b] |- _ => destruct (Z.compare_spec a b); subst
    | H : context [Pos.compare_cont Eq ?a ?b] |- _ =>
        change (Pos.compare_cont Eq a b) with (Pos.compare a b) in H
    | H : context [Pos.compare ?a ?b] |- _ => destruct (Pos.compare_spec a b); subst
    end.

(** ** Predicates used in the statements *)

Section Statements.
Context {D : Type} {AR : Arith D}.
Local Open Scope dbl_scope.

(** The constraints on the four shape parameters, as the documentation of
    the transform states them. *)
Definition valid_parameters (T0 W0 M0 A0 : D) : Prop :=
  (T0 >? #0) = true /\ (W0 >=? #0) = true /\ (M0 >? #0) = true /\
  (#2 * W0 <=? M0) = true /\ (- A0 <=? W0) = true /\ (A0 + W0 <=? M0 - W0) = true.

(** [x <= y] is the complement of [x > y], and the other way round: the
    comparison of [x] and [y] is decided, as it is unless one is NaN. *)
Definition decided (x y : D) : Prop :=
  (x <=? y) = negb (x >? y) /\ (y <=? x) = negb (y >? x).

(** The first constraint that the parameters break, with the reason the
    constructor gives for it; [None] when they break none. *)
Definition first_violation (T0 W0 M0 A0 : D) : option string :=
  if negb (T0 >? #0) then Some "T is not positive"%string
  else if negb (W0 >=? #0) then Some "W is negative"%string
  else if negb (M0 >? #0) then Some "M is not positive"%string
  else if negb (#2 * W0 <=? M0) then Some "W is too large"%string
  else if negb (- A0 <=? W0) || negb (A0 + W0 <=? M0 - W0)
       then Some "A is too large"%string
  else None.

(** The messages of the [IllegalParameter]s that [initialize] throws. *)
Definition parameter_messages : list string :=
  ["T is not positive"; "W is negative"; "M is not positive";
   "W is too large"; "A is too large"]%string.

(** The state in which [solve] enters its loop (lines 152-169), and a pass
    of the loop with the tolerance and the constant [f_b] of the call. *)
Definition solve_start (b0 w0 : D) : Logicle.solve_state :=
  let d_lo := #0 in
  let d_hi := b0 in
  let d := (d_lo + d_hi) / #2 in
  let f_b := #(-2) * flog b0 + w0 * b0 in
  {| Logicle.d_lo := d_lo; Logicle.d_hi := d_hi; Logicle.s_d := d;
     Logicle.last_delta := d_hi - d_lo;
     Logicle.s_f := #2 * flog d + w0 * d + f_b; Logicle.last_f := None |}.

Definition solve_pass (b0 w0 : D) : Z -> Logicle.solve_state -> pass Logicle.solve_state D :=
  Logicle.solve_body w0 (#2 * b0 * EPSILON) (#(-2) * flog b0 + w0 * b0).

(** The initial guess of [scale] for a value (lines 245-261), computed from
    its absolute value, and a pass of the loop of [scale] entered with the
    guess [x]. *)
Definition scale_magnitude (value : D) : D :=
  if value <? #0 then - value else value.

Definition scale_guess (p : logicle_params D) (value : D) : outcome D D :=
  let value := scale_magnitude value in
  if value <? f p
  then t0 <- load (taylor p) 0 ;; Ok (x1 p + value / t0)
  else Ok (flog (value / a p) / b p).

Definition scale_pass (p : logicle_params D) (value x : D)
  : Z -> D -> pass D (outcome D D) :=
  Logicle.scale_body p (scale_magnitude value)
    (if x >? #1 then #3 * x * EPSILON else #3 * EPSILON) (value <? #0).

(** The entry [lookup[i]] of the table of [p] (zero outside the table). *)
Definition table (p : logicle_params D) (i : Z) : D :=
  nth (Z.to_nat i) (lookup p) #0.

(** [x == y], as the search of [intScale] finds it: neither [x < y] nor
    [x > y]. *)
Definition matches (x y : D) : Prop := (x <? y) = false /\ (x >? y) = false.

(** What [intScale] may end with for the value [v]: a bin whose entries
    enclose [v], or [IllegalArgument] for a value below the table, above it,
    or equal to its last entry. *)
Definition intScale_post (p : logicle_params D) (v : D) (r : outcome D Z) : Prop :=
  match r with
  | Ok i =>
      (0 <= i < bins p)%Z /\
      (table p i <=? v) = true /\ (v <? table p (i + 1)) = true
  | Throw e =>
      e = IllegalArgument v /\
      ((v <? table p 0) = true \/ (v >? table p (bins p)) = true \/
       matches v (table p (bins p)))
  | Undefined => False
  end.

(** The value of [A] after the adjustment that puts zero on a bin boundary. *)
Definition adjusted_A (W0 M0 A0 : D) (bins : Z) : D :=
  let zero := ffloor ((W0 + A0) / (M0 + A0) * #bins + #1 / #2) / #bins in
  (M0 * zero - W0) / (#1 - zero).

(** The position of data zero rounded to a bin boundary:
    [floor (zero * bins + .5) / bins] for [zero = (W + A) / (M + A)]. *)
Definition rounded_zero (W0 M0 A0 : D) (bins : Z) : D :=
  ffloor ((W0 + A0) / (M0 + A0) * #bins + #1 / #2) / #bins.

(** A sequence is strictly increasing. *)
Definition strictly_increasing (l : list D) : Prop :=
  forall i j x y, (i < j)%nat ->
    nth_error l i = Some x -> nth_error l j = Some y -> (x <? y) = true.

(** [x], multiplied [n] times by ten ([x *= 10]). *)
Fixpoint decade (x : D) (n : nat) : D :=
  match n with
  | O => x
  | S n' => decade (x * #10) n'
  end.

(** The entry of index [j] in the sequence of axis labels with [nn]
    negative labels and first positive label [x]. *)
Definition label_at (nn : Z) (x : D) (j : Z) : D :=
  if (j <? nn)%Z then - decade x (Z.to_nat (nn - 1 - j))
  else if (j =? nn)%Z then #0
  else decade x (Z.to_nat (j - nn - 1)).

(** Number of entries of a sequence that satisfy a test. *)
Definition count (test : D -> bool) (l : list D) : nat :=
  List.length (filter test l).

End Statements.

(** ** Arrays and loops *)

Lemma wrap_id (z : Z) : in_int z -> wrap z = z.
Proof.
  unfold in_int, INT_MIN, INT_MAX, wrap. intros H.
  rewrite Z.mod_small; lia.
Qed.

Lemma load_Ok {D A} (l : list A) (i : Z) (x : A) :
  load (D := D) l i = Ok x <-> (0 <= i)%Z /\ nth_error l (Z.to_nat i) = Some x.
Proof.
  unfold load. destruct (Z.ltb_spec i 0).
  - split; [discriminate | lia].
  - destruct (nth_error l (Z.to_nat i)) eqn:E; split.
    + intros [= ->]. auto.
    + intros [_ [= ->]]. reflexivity.
    + discriminate.
    + intros [_ [=]].
Qed.

Lemma load_in_range {D A} (l : list A) (i : Z) :
  (0 <= i < Z.of_nat (List.length l))%Z -> exists x, load (D := D) l i = Ok x.
Proof.
  intros H. destruct (nth_error l (Z.to_nat i)) eqn:E.
  - exists a0. apply load_Ok. split; [lia | exact E].
  - apply nth_error_None in E. lia.
Qed.

Lemma load_not_Throw {D A} (l : list A) (i : Z) (e : exception D) :
  load l i <> Throw e.
Proof.
  unfold load. destruct (i <? 0)%Z; [discriminate|].
  destruct (nth_error l (Z.to_nat i)); discriminate.
Qed.

Lemma update_nth_length {A} (l l' : list A) (n : nat) (v : A) :
  update_nth l n v = Some l' -> List.length l' = List.length l.
Proof.
  revert l' n. induction l as [|h t IH]; intros l' n; simpl.
  - discriminate.
  - destruct n.
    + intros [= <-]. reflexivity.
    + destruct (update_nth t n v) eqn:E; [|discriminate].
      intros [= <-]. simpl. f_equal. eapply IH; eauto.
Qed.

Lemma update_nth_Some {A} (l : list A) (n : nat) (v : A) :
  (n < List.length l)%nat -> exists l', update_nth l n v = Some l'.
Proof.
  revert n. induction l as [|h t IH]; intros n; simpl.
  - lia.
  - destruct n; [eauto|]. intros H.
    destruct (IH n) as [t' ->]; [lia|]. eauto.
Qed.

Lemma update_nth_in_range {A} (l l' : list A) (n : nat) (v : A) :
  update_nth l n v = Some l' -> (n < List.length l)%nat.
Proof.
  revert l' n. induction l as [|h t IH]; intros l' n; simpl.
  - discriminate.
  - destruct n; [lia|].
    destruct (update_nth t n v) eqn:E; [|discriminate].
    intros _. apply IH in E. lia.
Qed.

Lemma update_nth_same {A} (l l' : list A) (n : nat) (v : A) :
  update_nth l n v = Some l' -> nth_error l' n = Some v.
Proof.
  revert l' n. induction l as [|h t IH]; intros l' n; simpl.
  - discriminate.
  - destruct n.
    + intros [= <-]. reflexivity.
    + destruct (update_nth t n v) eqn:E; [|discriminate].
      intros [= <-]. simpl. eauto.
Qed.

Lemma update_nth_other {A} (l l' : list A) (n m : nat) (v : A) :
  update_nth l n v = Some l' -> m <> n -> nth_error l' m = nth_error l m.
Proof.
  revert l' n m. induction l as [|h t IH]; intros l' n m; simpl.
  - discriminate.
  - destruct n.
    + intros [= <-] Hm. destruct m; [congruence | reflexivity].
    + destruct (update_nth t n v) eqn:E; [|discriminate].
      intros [= <-] Hm. destruct m; [reflexivity|].
      simpl. eapply IH; eauto.
Qed.

Lemma store_Ok {D A} (l l' : list A) (i : Z) (v : A) :
  store (D := D) l i v = Ok l' <->
  (0 <= i)%Z /\ update_nth l (Z.to_nat i) v = Some l'.
Proof.
  unfold store. destruct (Z.ltb_spec i 0).
  - split; [discriminate | lia].
  - destruct (update_nth l (Z.to_nat i) v); split.
    + intros [= ->]. auto.
    + intros [_ [= ->]]. reflexivity.
    + discriminate.
    + intros [_ [=]].
Qed.

Lemma store_not_Throw {D A} (l : list A) (i : Z) (v : A) (e : exception D) :
  store l i v <> Throw e.
Proof.
  unfold store. destruct (i <? 0)%Z; [discriminate|].
  destruct (update_nth l (Z.to_nat i) v); discriminate.
Qed.

(** A [for] loop of [n] passes runs at most [n] of them; it falls out of
    the loop only after all [n]. *)
Lemma for_loop_passes {St R} (body : Z -> St -> pass St R) (n : nat) (i : Z) (s : St) :
  (snd (for_loop body n i s) <= n)%nat /\
  (forall s', fst (for_loop body n i s) = Next s' -> snd (for_loop body n i s) = n).
Proof.
  revert i s. induction n as [|n IH]; intros i s; simpl.
  - split; [lia | reflexivity].
  - destruct (body i s) as [s1|r]; simpl.
    + specialize (IH (i + 1)%Z s1).
      destruct (for_loop body n (i + 1) s1) as [r k]; simpl in *.
      destruct IH as [IH1 IH2]. split; [lia|].
      intros s' E. f_equal. eauto.
    + split; [lia | discriminate].
Qed.

(** A loop that falls out after [n] passes made them all; a loop that
    left the function did so in a pass reached by falling through the ones
    before it. *)
Lemma for_loop_fall_through {St R} (body : Z -> St -> pass St R) (n : nat) (i : Z)
    (s : St) :
  match for_loop body n i s with
  | (Next s', k) => k = n /\ fall_through body n i s = Some s'
  | (Leave r, k) =>
      fall_through body n i s = None /\
      exists j s', k = S j /\ (j < n)%nat /\
        fall_through body j i s = Some s' /\ body (i + Z.of_nat j)%Z s' = Leave r
  end.
Proof.
  revert i s. induction n as [|n IH]; intros i s; cbn [for_loop fall_through].
  - split; reflexivity.
  - destruct (body i s) as [s1|r] eqn:E.
    + specialize (IH (i + 1)%Z s1).
      destruct (for_loop body n (i + 1) s1) as [[s'|r] k].
      * destruct IH as [-> IH]. split; [reflexivity | exact IH].
      * destruct IH as (IH0 & j & s' & -> & Hj & Hf & Hb).
        split; [exact IH0|]. exists (S j), s'.
        split; [reflexivity|]. split; [lia|].
        cbn [fall_through]. rewrite E. split; [exact Hf|].
        rewrite <- Hb. f_equal. lia.
    + split; [reflexivity|]. exists 0%nat, s.
      split; [reflexivity|]. split; [lia|]. split; [reflexivity|].
      rewrite Z.add_0_r. exact E.
Qed.

(** ** The transform engine: construction *)

Section Engine.
Context {D : Type} {AR : Arith D}.
Local Open Scope dbl_scope.

Lemma taylor_loop_length (b0 d0 : D) (n : nat) (i : Z) (pc nc : D) :
  List.length (Logicle.taylor_loop b0 d0 n i pc nc) = n.
Proof.
  revert i pc nc. induction n as [|n IH]; intros; simpl; [reflexivity|].
  f_equal. apply IH.
Qed.

(** [solve] returns or fails to converge; it has no other exit. *)
Lemma solve_run_cases (b0 w0 : D) :
  (exists d0, fst (Logicle.solve_run b0 w0) = Ok d0) \/
  (fst (Logicle.solve_run b0 w0) =
     Throw (DidNotConverge "exceeded maximum iterations in solve()") /\
   snd (Logicle.solve_run b0 w0) = 19%nat).
Proof.
  unfold Logicle.solve_run.
  destruct (w0 =? #0); [left; eexists; reflexivity|].
  match goal with |- context [for_loop ?body ?n ?i ?s] =>
    pose proof (for_loop_passes body n i s) as [_ Hn];
    destruct (for_loop body n i s) as [[s'|r] k] end; simpl in *.
  - right. split; [reflexivity|]. exact (Hn s' eq_refl).
  - left. eexists; reflexivity.
Qed.

(** What a successful construction established. *)
Lemma initialize_Ok (T0 W0 M0 A0 : D) (bins0 : Z) (p : logicle_params D) :
  Logicle.initialize T0 W0 M0 A0 bins0 = Ok p ->
  (T0 <=? #0) = false /\ (W0 <? #0) = false /\ (M0 <=? #0) = false /\
  (#2 * W0 >? M0) = false /\ (- A0 >? W0) = false /\ (A0 + W0 >? M0 - W0) = false /\
  T p = T0 /\ W p = W0 /\ M p = M0 /\
  A p = (if (bins0 >? 0)%Z then adjusted_A W0 M0 A0 bins0 else A0) /\
  List.length (taylor p) = 16%nat /\
  nth_error (taylor p) 1 = Some #0.
Proof.
  unfold Logicle.initialize.
  destruct (T0 <=? #0); [discriminate|].
  destruct (W0 <? #0); [discriminate|].
  destruct (M0 <=? #0); [discriminate|].
  destruct (#2 * W0 >? M0); [discriminate|].
  destruct (- A0 >? W0); [discriminate|].
  destruct (A0 + W0 >? M0 - W0); [discriminate|]. cbn [orb].
  match goal with |- context [Logicle.solve ?x ?y] => destruct (Logicle.solve x y) as [d0| |] end;
    cbn [bind]; try discriminate.
  match goal with |- context [store ?l ?i ?v] => destruct (store l i v) as [t1| |] eqn:Et end;
    cbn [bind]; try discriminate.
  intros [= <-]. cbn [T W M A taylor].
  apply store_Ok in Et. destruct Et as [_ Et].
  repeat split; try reflexivity.
  - rewrite (update_nth_length _ _ _ _ Et). apply taylor_loop_length.
  - exact (update_nth_same _ _ _ _ Et).
Qed.

(** [FastLogicle::initialize] leaves the parameters of the engine alone. *)
Lemma fast_initialize_Ok (p q : logicle_params D) (bins0 : Z) :
  FastLogicle.initialize p bins0 = Ok q ->
  T q = T p /\ W q = W p /\ M q = M p /\ A q = A p /\
  a q = a p /\ b q = b p /\ c q = c p /\ d q = d p /\ f q = f p /\
  x1 q = x1 p /\ xTaylor q = xTaylor p /\ taylor q = taylor p /\
  bins q = bins0 /\
  FastLogicle.lookup_loop p bins0 (Z.to_nat (bins0 + 1)) 0 = Ok (lookup q) /\
  (0 <= iadd bins0 1)%Z.
Proof.
  unfold FastLogicle.initialize.
  destruct (Z.ltb_spec (iadd bins0 1) 0); [discriminate|].
  destruct (FastLogicle.lookup_loop p bins0 (Z.to_nat (bins0 + 1)) 0) as [l| |];
    simpl; try discriminate.
  intros [= <-]. simpl. repeat split; auto.
Qed.

(** ** The transform engine: evaluation *)

Lemma list16 {X} (l : list X) :
  List.length l = 16%nat ->
  exists t0 t1 t2 t3 t4 t5 t6 t7 t8 t9 t10 t11 t12 t13 t14 t15,
    l = [t0; t1; t2; t3; t4; t5; t6; t7; t8; t9; t10; t11; t12; t13; t14; t15].
Proof.
  intros H.
  do 16 (destruct l as [|? l]; [discriminate H|]).
  destruct l; [|discriminate H].
  repeat eexists.
Qed.

(** With the sixteen coefficients in place the series reads inside the
    array and returns. *)
Lemma seriesBiexponential_total (p : logicle_params D) (s : D) :
  List.length (taylor p) = 16%nat ->
  exists v, Logicle.seriesBiexponential p s = Ok v.
Proof.
  destruct p as [? ? ? ? ? ? ? ? ? ? ? ? ? ? ty ? ?]. cbn [taylor].
  intros H. apply list16 in H.
  destruct H as (t0 & t1 & t2 & t3 & t4 & t5 & t6 & t7 & t8 & t9 & t10 & t11
                 & t12 & t13 & t14 & t15 & ->).
  eexists. vm_compute. reflexivity.
Qed.

Lemma inverse_total_of_length (p : logicle_params D) (s : D) :
  List.length (taylor p) = 16%nat ->
  exists v, Logicle.inverse p s = Ok v.
Proof.
  intros H. unfold Logicle.inverse.
  set (neg := s <? x1 p). set (s' := if neg then _ else _).
  destruct (s' <? xTaylor p).
  - destruct (seriesBiexponential_total p s' H) as [v ->]. simpl.
    destruct neg; eexists; reflexivity.
  - simpl. destruct neg; eexists; reflexivity.
Qed.

(** C1.  [scale] applied to zero returns the breakpoint [x1] of the
    parameter block, whatever the block holds: the test [value == 0] is the
    first statement, so the loop makes no pass and nothing is reflected.
    The hypothesis is the one fact about doubles this needs, that zero
    compares equal to itself. *)
Theorem scale_zero (p : logicle_params D) :
  (#0 =? #0) = true ->
  Logicle.scale p #0 = Ok (x1 p) /\ Logicle.scale_run p #0 = (Ok (x1 p), 0%nat).
Proof.
  intros H. unfold Logicle.scale, Logicle.scale_run. rewrite H. split; reflexivity.
Qed.

(** C3.  On a constructed transform [inverse] returns a value for every
    argument: the only operation of [inverse] that could leave defined
    behaviour is the read of [taylor], [initialize] allocates its sixteen
    entries, and [inverse] reads indices 15 down to 0; no statement of
    [inverse] throws. *)
Theorem inverse_total (T0 W0 M0 A0 : D) (bins0 : Z) (p : logicle_params D) (s : D) :
  Logicle.initialize T0 W0 M0 A0 bins0 = Ok p ->
  exists v, Logicle.inverse p s = Ok v.
Proof.
  intros H. apply initialize_Ok in H.
  apply inverse_total_of_length. tauto.
Qed.

(** The tests of [initialize], one by one: the first constraint broken
    decides the exception, and when none is broken no [IllegalParameter]
    is thrown. *)
Lemma construction_cases (T0 W0 M0 A0 : D) (bins0 : Z) :
  decided T0 #0 -> decided W0 #0 -> decided M0 #0 ->
  decided (#2 * W0) M0 -> decided (- A0) W0 -> decided (A0 + W0) (M0 - W0) ->
  (valid_parameters T0 W0 M0 A0 <-> first_violation T0 W0 M0 A0 = None) /\
  (forall msg, first_violation T0 W0 M0 A0 = Some msg ->
     Logicle.initialize T0 W0 M0 A0 bins0 = Throw (IllegalParameter msg) /\
     msg <> EmptyString /\
     forall p, Logicle.initialize T0 W0 M0 A0 bins0 <> Ok p) /\
  (first_violation T0 W0 M0 A0 = None ->
     forall msg, Logicle.initialize T0 W0 M0 A0 bins0 <> Throw (IllegalParameter msg)).
Proof.
  intros [HT _] [_ HW] [HM _] [HWM _] [HA1 _] [HA2 _].
  unfold valid_parameters, first_violation, Logicle.initialize.
  rewrite HT, HW, HM, HWM, HA1, HA2.
  destruct (T0 >? #0); cbn [negb].
  2:{ split; [split; [intros (?&?); discriminate | discriminate]|].
      split; [|discriminate]. intros msg [= <-]. repeat split; discriminate. }
  destruct (W0 <? #0); cbn [negb].
  { split; [split; [intros (?&?&?); discriminate | discriminate]|].
    split; [|discriminate]. intros msg [= <-]. repeat split; discriminate. }
  destruct (M0 >? #0); cbn [negb].
  2:{ split; [split; [intros (?&?&?&?); discriminate | discriminate]|].
      split; [|discriminate]. intros msg [= <-]. repeat split; discriminate. }
  destruct (#2 * W0 >? M0); cbn [negb].
  { split; [split; [intros (?&?&?&?&?); discriminate | discriminate]|].
    split; [|discriminate]. intros msg [= <-]. repeat split; discriminate. }
  destruct (- A0 >? W0); cbn [negb orb].
  { split; [split; [intros (?&?&?&?&?&?); discriminate | discriminate]|].
    split; [|discriminate]. intros msg [= <-]. repeat split; discriminate. }
  destruct (A0 + W0 >? M0 - W0); cbn [negb orb].
  { split; [split; [intros (?&?&?&?&?&?); discriminate | discriminate]|].
    split; [|discriminate]. intros msg [= <-]. repeat split; discriminate. }
  split; [tauto|]. split; [discriminate|].
  intros _ msg.
  match goal with |- context [Logicle.solve ?x ?y] =>
    pose proof (solve_run_cases x y) as Hs; unfold Logicle.solve;
    destruct Hs as [[d0 ->] | [-> _]] end; cbn [bind]; [|discriminate].
  match goal with |- context [store ?l ?i ?v] =>
    destruct (store l i v) as [t1| e1 |] eqn:Et end; cbn [bind];
    [discriminate | exfalso; exact (store_not_Throw _ _ _ _ Et) | discriminate].
Qed.

(** When the six comparisons of the constructor are decided, it throws
    [IllegalParameter] exactly when the parameters break a constraint, and
    the exception carries the reason of the first constraint broken. *)
Lemma construction_decided (T0 W0 M0 A0 : D) (bins0 : Z) :
  decided T0 #0 -> decided W0 #0 -> decided M0 #0 ->
  decided (#2 * W0) M0 -> decided (- A0) W0 -> decided (A0 + W0) (M0 - W0) ->
  ((exists msg, Logicle.initialize T0 W0 M0 A0 bins0 = Throw (IllegalParameter msg)) <->
   ~ valid_parameters T0 W0 M0 A0) /\
  (forall msg, Logicle.initialize T0 W0 M0 A0 bins0 = Throw (IllegalParameter msg) ->
     first_violation T0 W0 M0 A0 = Some msg /\ msg <> EmptyString /\
     forall p, Logicle.initialize T0 W0 M0 A0 bins0 <> Ok p).
Proof.
  intros H1 H2 H3 H4 H5 H6.
  destruct (construction_cases T0 W0 M0 A0 bins0 H1 H2 H3 H4 H5 H6) as (Hv & Hs & Hn).
  destruct (first_violation T0 W0 M0 A0) as [m|] eqn:E.
  - destruct (Hs m eq_refl) as (Ht & Hm & Hp). split.
    + split; [|intros _; exists m; exact Ht].
      intros _ Hval. apply Hv in Hval. discriminate Hval.
    + intros msg Hmsg. rewrite Ht in Hmsg. injection Hmsg as <-.
      split; [reflexivity|]. split; [exact Hm | exact Hp].
  - split.
    + split.
      * intros [msg Hmsg]. exfalso. exact (Hn eq_refl msg Hmsg).
      * intros Hnv. exfalso. apply Hnv, Hv. reflexivity.
    + intros msg Hmsg. exfalso. exact (Hn eq_refl msg Hmsg).
Qed.

End Engine.

(** ** Iteration budgets and accessors *)

Section Budgets.
Context {D : Type} {AR : Arith D}.
Local Open Scope dbl_scope.

Lemma series_loop_not_Throw (p : logicle_params D) (x : D) (n : nat) (i : Z)
    (sum : D) (e : exception D) :
  Logicle.series_loop p x n i sum <> Throw e.
Proof.
  revert i sum. induction n as [|n IH]; intros i sum; simpl; [discriminate|].
  destruct (load (taylor p) i) eqn:E; simpl; auto.
  - exfalso. exact (load_not_Throw _ _ _ E).
  - discriminate.
Qed.

Lemma seriesBiexponential_not_Throw (p : logicle_params D) (s : D) (e : exception D) :
  Logicle.seriesBiexponential p s <> Throw e.
Proof.
  unfold Logicle.seriesBiexponential.
  destruct (load (taylor p) (Logicle.TAYLOR_LENGTH - 1)) eqn:E1; cbn [bind];
    [| exfalso; exact (load_not_Throw _ _ _ E1) | discriminate].
  match goal with |- context [Logicle.series_loop ?p ?x ?n ?i ?s] =>
    destruct (Logicle.series_loop p x n i s) eqn:E2 end; cbn [bind];
    [| exfalso; exact (series_loop_not_Throw _ _ _ _ _ _ E2) | discriminate].
  destruct (load (taylor p) 0) eqn:E3; cbn [bind];
    [discriminate | exfalso; exact (load_not_Throw _ _ _ E3) | discriminate].
Qed.

(** No pass of the loop of [scale] throws. *)
Lemma scale_body_Leave (p : logicle_params D) (value tol : D) (neg : bool)
    (i : Z) (x : D) (r : outcome D D) (e : exception D) :
  Logicle.scale_body p value tol neg i x = Leave r -> r <> Throw e.
Proof.
  unfold Logicle.scale_body.
  destruct (x <? xTaylor p).
  - destruct (Logicle.seriesBiexponential p x) eqn:E; cbn [bind].
    + destruct (fabs _ <? tol); [|discriminate].
      destruct neg; intros [= <-]; discriminate.
    + exfalso. exact (seriesBiexponential_not_Throw _ _ _ E).
    + intros [= <-]. discriminate.
  - destruct (fabs _ <? tol); [|discriminate].
    destruct neg; intros [= <-]; discriminate.
Qed.

Lemma scale_loop_Leave (p : logicle_params D) (value tol : D) (neg : bool)
    (n : nat) (i : Z) (x : D) (r : outcome D D) (e : exception D) :
  fst (for_loop (Logicle.scale_body p value tol neg) n i x) = Leave r ->
  r <> Throw e.
Proof.
  revert i x. induction n as [|n IH]; intros i x; simpl; [discriminate|].
  destruct (Logicle.scale_body p value tol neg i x) as [x'|r'] eqn:E.
  - specialize (IH (i + 1)%Z x').
    destruct (for_loop _ n (i + 1) x') as [r1 k]. simpl in *. exact IH.
  - simpl. intros [= <-]. eapply scale_body_Leave; eauto.
Qed.

(** [solve] past its test of [w], and [scale] past its test of zero and its
    initial guess, are their loops. *)
Lemma solve_run_loop (b0 w0 : D) :
  (w0 =? #0) = false ->
  Logicle.solve_run b0 w0 =
  match for_loop (solve_pass b0 w0) 19 1 (solve_start b0 w0) with
  | (Leave d0, k) => (Ok d0, k)
  | (Next _, k) =>
      (Throw (DidNotConverge "exceeded maximum iterations in solve()"), k)
  end.
Proof.
  intros H. unfold Logicle.solve_run. rewrite H. reflexivity.
Qed.

Lemma scale_run_loop (p : logicle_params D) (value x : D) :
  (value =? #0) = false -> scale_guess p value = Ok x ->
  Logicle.scale_run p value =
  match for_loop (scale_pass p value x) 10 0 x with
  | (Leave r, k) => (r, k)
  | (Next _, k) => (Throw (DidNotConverge "scale() didn't converge"), k)
  end.
Proof.
  intros H Hx. unfold Logicle.scale_run. rewrite H.
  unfold scale_guess, scale_magnitude in Hx. rewrite Hx. reflexivity.
Qed.

(** C8.  The loop of [solve] is [for (int i = 1; i < 20; ++i)]: it makes at
    most 19 passes after the bisection step taken before it, 20 steps in
    all; the loop of [scale] is [for (int i = 0; i < 10; ++i)] and makes at
    most 10.  When every pass of the loop falls through, that is, none meets
    a test that ends the iteration, the function throws [DidNotConverge],
    having made all its passes; this is the only way either function
    throws.  A value returned was returned by a pass, the first that did
    not fall through, and the number of passes made is the number of that
    pass.  [solve] never leaves defined behaviour.  The bounds on the
    number of passes hold for every argument. *)
Theorem iteration_caps :
  (forall b0 w0 : D,
     (w0 =? #0) = false ->
     (snd (Logicle.solve_run b0 w0) <= 19)%nat /\
     (forall s, fall_through (solve_pass b0 w0) 19 1 (solve_start b0 w0) = Some s ->
        Logicle.solve_run b0 w0 =
          (Throw (DidNotConverge "exceeded maximum iterations in solve()"), 19%nat)) /\
     (forall e, Logicle.solve b0 w0 = Throw e ->
        e = DidNotConverge "exceeded maximum iterations in solve()" /\
        snd (Logicle.solve_run b0 w0) = 19%nat /\
        exists s, fall_through (solve_pass b0 w0) 19 1 (solve_start b0 w0) = Some s) /\
     (forall d0, Logicle.solve b0 w0 = Ok d0 ->
        exists k s,
          snd (Logicle.solve_run b0 w0) = S k /\ (k < 19)%nat /\
          fall_through (solve_pass b0 w0) k 1 (solve_start b0 w0) = Some s /\
          solve_pass b0 w0 (1 + Z.of_nat k)%Z s = Leave d0) /\
     Logicle.solve b0 w0 <> Undefined) /\
  (forall (p : logicle_params D) (value x : D),
     (value =? #0) = false -> scale_guess p value = Ok x ->
     (snd (Logicle.scale_run p value) <= 10)%nat /\
     (forall x', fall_through (scale_pass p value x) 10 0 x = Some x' ->
        Logicle.scale_run p value =
          (Throw (DidNotConverge "scale() didn't converge"), 10%nat)) /\
     (forall e, Logicle.scale p value = Throw e ->
        e = DidNotConverge "scale() didn't converge" /\
        snd (Logicle.scale_run p value) = 10%nat /\
        exists x', fall_through (scale_pass p value x) 10 0 x = Some x') /\
     (forall r, Logicle.scale p value = Ok r ->
        exists k x',
          snd (Logicle.scale_run p value) = S k /\ (k < 10)%nat /\
          fall_through (scale_pass p value x) k 0 x = Some x' /\
          scale_pass p value x (0 + Z.of_nat k)%Z x' = Leave (Ok r))) /\
  (forall b0 w0 : D, (snd (Logicle.solve_run b0 w0) <= 19)%nat) /\
  (forall (p : logicle_params D) (value : D),
     (snd (Logicle.scale_run p value) <= 10)%nat).
Proof.
  split; [|split; [|split]].
  - intros b0 w0 Hw. unfold Logicle.solve. rewrite (solve_run_loop b0 w0 Hw).
    pose proof (for_loop_fall_through (solve_pass b0 w0) 19 1 (solve_start b0 w0)) as H.
    destruct (for_loop (solve_pass b0 w0) 19 1 (solve_start b0 w0)) as [[s'|d1] k];
      cbn [fst snd].
    + destruct H as [-> Hf]. rewrite Hf.
      split; [lia|]. split; [reflexivity|]. split.
      * intros e [= <-]. split; [reflexivity|]. split; [reflexivity|].
        exists s'. reflexivity.
      * split; discriminate.
    + destruct H as (Hn & j & s' & -> & Hj & Hf & Hb). rewrite Hn.
      split; [lia|]. split; [discriminate|]. split; [discriminate|].
      split; [|discriminate].
      intros d0 [= <-]. exists j, s'. repeat split; assumption.
  - intros p value x Hv Hx. unfold Logicle.scale.
    rewrite (scale_run_loop p value x Hv Hx).
    pose proof (for_loop_fall_through (scale_pass p value x) 10 0 x) as H.
    pose proof (fun r e => @scale_loop_Leave p (scale_magnitude value)
                  (if x >? #1 then #3 * x * EPSILON else #3 * EPSILON)
                  (value <? #0) 10 0%Z x r e) as HL.
    fold (scale_pass p value x) in HL.
    destruct (for_loop (scale_pass p value x) 10 0 x) as [[x'|r1] k];
      cbn [fst snd] in *.
    + destruct H as [-> Hf]. rewrite Hf.
      split; [lia|]. split; [reflexivity|]. split.
      * intros e [= <-]. split; [reflexivity|]. split; [reflexivity|].
        exists x'. reflexivity.
      * discriminate.
    + destruct H as (Hn & j & x' & -> & Hj & Hf & Hb). rewrite Hn.
      split; [lia|]. split; [discriminate|]. split.
      * intros e ->. exfalso. exact (HL _ e eq_refl eq_refl).
      * intros r ->. exists j, x'. repeat split; assumption.
  - intros b0 w0. unfold Logicle.solve_run.
    destruct (w0 =? #0); [cbn [snd]; lia|].
    match goal with
    | |- context [for_loop ?body ?n ?i ?s] =>
        pose proof (proj1 (for_loop_passes body n i s)) as H;
        destruct (for_loop body n i s) as [[s'|d1] k]
    end; cbn [snd] in *; exact H.
  - intros p value. unfold Logicle.scale_run.
    destruct (value =? #0); [cbn [snd]; lia|].
    match goal with
    | |- context [match ?g with Ok _ => _ | Throw _ => _ | Undefined => _ end] =>
        destruct g as [x|e|]
    end; try (cbn [snd]; lia).
    match goal with
    | |- context [for_loop ?body ?n ?i ?s] =>
        pose proof (proj1 (for_loop_passes body n i s)) as H;
        destruct (for_loop body n i s) as [[x'|r1] k]
    end; cbn [snd] in *; exact H.
Qed.

(** C10.  The accessors [T()], [W()] and [M()] return the constructor's
    arguments.  [A()] returns the argument when [bins] is not positive;
    when [bins > 0] it returns the value adjusted to the bin grid,
    [(M * zero - W) / (1 - zero)] with
    [zero = floor ((W + A) / (M + A) * bins + .5) / bins]. *)
Theorem accessors_after_construction
    (T0 W0 M0 A0 : D) (bins0 : Z) (p : logicle_params D) :
  Logicle.Logicle5 T0 W0 M0 A0 bins0 = Ok p \/
  FastLogicle.FastLogicle5 T0 W0 M0 A0 bins0 = Ok p ->
  T p = T0 /\ W p = W0 /\ M p = M0 /\
  ((0 < bins0)%Z -> A p = adjusted_A W0 M0 A0 bins0) /\
  ((bins0 <= 0)%Z -> A p = A0).
Proof.
  assert (G : forall q, Logicle.initialize T0 W0 M0 A0 bins0 = Ok q ->
    T q = T0 /\ W q = W0 /\ M q = M0 /\
    ((0 < bins0)%Z -> A q = adjusted_A W0 M0 A0 bins0) /\
    ((bins0 <= 0)%Z -> A q = A0)).
  { intros q H. apply initialize_Ok in H.
    destruct H as (_ & _ & _ & _ & _ & _ & HT & HW & HM & HA & _).
    repeat split; auto; intros Hb; rewrite HA.
    - destruct (Z.gtb_spec bins0 0); [reflexivity | lia].
    - destruct (Z.gtb_spec bins0 0); [lia | reflexivity]. }
  intros [H|H]; [exact (G p H)|].
  unfold FastLogicle.FastLogicle5, Logicle.Logicle5 in H.
  destruct (Logicle.initialize T0 W0 M0 A0 bins0) as [q| |] eqn:E;
    cbn [bind] in H; try discriminate.
  apply fast_initialize_Ok in H.
  destruct H as (HT & HW & HM & HA & _).
  rewrite HT, HW, HM, HA. exact (G q eq_refl).
Qed.

End Budgets.

(** ** The lookup accelerator: [intScale] *)

Lemma shiftr_mid (lo hi : Z) :
  (0 <= lo <= hi)%Z -> (hi < 2 ^ 30)%Z ->
  Z.shiftr (iadd lo hi) 1 = ((lo + hi) / 2)%Z /\
  (lo <= (lo + hi) / 2 <= hi)%Z.
Proof.
  intros H1 H2. unfold iadd.
  rewrite wrap_id by (unfold in_int, INT_MIN, INT_MAX; lia).
  rewrite Z.shiftr_div_pow2 by lia. change (2 ^ 1)%Z with 2%Z.
  split; [reflexivity|].
  split; [apply Z.div_le_lower_bound | apply Z.div_le_upper_bound]; lia.
Qed.

Section IntScale.
Context {D : Type} {AR : Arith D}.
Local Open Scope dbl_scope.

(** Two laws of [<] that hold of every double, NaN included. *)
Hypothesis lt_asym : forall x y : D, (x <? y) = true -> (y <? x) = false.
Hypothesis lt_trans :
  forall x y z : D, (x <? y) = true -> (y <? z) = true -> (x <? z) = true.

(** The table: [bins + 1] strictly increasing entries, with [bins] small
    enough for [lo + hi] not to overflow. *)
Variable p : logicle_params D.
Hypothesis bins_range : (0 < bins p < 2 ^ 30)%Z.
Hypothesis lookup_length : Z.of_nat (List.length (lookup p)) = (bins p + 1)%Z.
Hypothesis lookup_increasing : strictly_increasing (lookup p).

(** The value searched for is ordered with respect to the other doubles,
    as every double but NaN is: it lies on one side of any two doubles
    that differ, and its comparison with an entry of the table is
    decided. *)
Variable v : D.
Hypothesis value_between :
  forall x z : D, (x <? z) = true -> (x <? v) = true \/ (v <? z) = true.
Hypothesis value_decided :
  forall i, (0 <= i <= bins p)%Z -> decided (table p i) v.

Lemma table_le (i : Z) :
  (0 <= i <= bins p)%Z -> (table p i <=? v) = negb (v <? table p i).
Proof.
  intros H. exact (proj1 (value_decided i H)).
Qed.

Lemma table_lt_le (i : Z) :
  (0 <= i <= bins p)%Z -> (table p i <? v) = true -> (table p i <=? v) = true.
Proof.
  intros Hi H. rewrite (table_le i Hi), (lt_asym _ _ H). reflexivity.
Qed.

Lemma load_table (i : Z) :
  (0 <= i <= bins p)%Z -> load (D := D) (lookup p) i = Ok (table p i).
Proof.
  intros H. apply load_Ok. split; [lia|].
  unfold table. apply nth_error_nth'. lia.
Qed.

Lemma table_increasing (i j : Z) :
  (0 <= i < j)%Z -> (j <= bins p)%Z -> (table p i <? table p j) = true.
Proof.
  intros H1 H2.
  apply (lookup_increasing (Z.to_nat i) (Z.to_nat j)); [lia| |];
    unfold table; apply nth_error_nth'; lia.
Qed.

Lemma table_monotone (i j : Z) :
  (0 <= i <= j)%Z -> (j <= bins p)%Z ->
  ((v <? table p i) = true -> (v <? table p j) = true) /\
  ((table p j <? v) = true -> (table p i <? v) = true).
Proof.
  intros H1 H2. destruct (Z.eq_dec i j) as [->|Hne]; [tauto|].
  assert (Hij := table_increasing i j ltac:(lia) H2).
  split; intros H; eapply lt_trans; eauto.
Qed.

(** The search loop keeps every entry left of [lo] below the value and
    every entry right of [hi] above it; with at least [hi - lo + 1] passes
    left it ends, in a way [intScale_post] allows. *)
Lemma search_spec (fuel : nat) (lo hi : Z) :
  (0 <= lo)%Z -> (hi <= bins p)%Z -> (lo <= hi + 1)%Z ->
  (hi - lo + 1 <= Z.of_nat fuel)%Z ->
  (lo = 0%Z \/ (table p (lo - 1) <? v) = true) ->
  (hi = bins p \/ (v <? table p (hi + 1)) = true) ->
  exists r, FastLogicle.search p v fuel lo hi = Some r /\ intScale_post p v r.
Proof.
  assert (Hexit : forall hi, (-1 <= hi <= bins p)%Z ->
    ((hi + 1)%Z = 0%Z \/ (table p (hi + 1 - 1) <? v) = true) ->
    (hi = bins p \/ (v <? table p (hi + 1)) = true) ->
    exists r,
      (if ((hi <? 0) || (hi + 1 >? bins p))%Z
       then Some (Throw (IllegalArgument v))
       else Some (Ok (isub (hi + 1) 1))) = Some r /\
      intScale_post p v r).
  { clear lo hi. intros hi Hhi Hl Hr.
    destruct (Z.ltb_spec hi 0); cbn [orb].
    - eexists; split; [reflexivity|]. split; [reflexivity|].
      left. destruct Hr as [->|Hr]; [lia|].
      replace (hi + 1)%Z with 0%Z in Hr by lia. exact Hr.
    - destruct (Z.gtb_spec (hi + 1) (bins p)).
      + eexists; split; [reflexivity|]. split; [reflexivity|].
        right; left. destruct Hl as [?|Hl]; [lia|].
        replace (hi + 1 - 1)%Z with (bins p) in Hl by lia. exact Hl.
      + eexists; split; [reflexivity|].
        unfold isub. rewrite wrap_id by (unfold in_int, INT_MIN, INT_MAX; lia).
        replace (hi + 1 - 1)%Z with hi in * by lia.
        destruct Hl as [?|Hl]; [lia|]. destruct Hr as [?|Hr]; [lia|].
        cbn. repeat split; try lia; auto.
        apply table_lt_le; [lia | exact Hl]. }
  revert lo hi. induction fuel as [|fuel IH]; intros lo hi Hlo Hhi Hle Hfuel Hl Hr.
  - (* no pass left: the interval is empty *)
    assert (E : (lo <=? hi)%Z = false) by (apply Z.leb_gt; lia).
    cbn [FastLogicle.search]. rewrite E.
    assert (lo = hi + 1)%Z by lia. subst lo. apply Hexit; auto; lia.
  - cbn [FastLogicle.search].
    destruct (Z.leb_spec lo hi) as [Hlh|Hlh].
    + destruct (shiftr_mid lo hi) as [-> Hmid]; [lia | lia |].
      set (mid := ((lo + hi) / 2)%Z) in *.
      rewrite load_table by lia.
      destruct (v <? table p mid) eqn:E1.
      { unfold isub. rewrite wrap_id by (unfold in_int, INT_MIN, INT_MAX; lia).
        apply IH; try lia; auto.
        right. replace (mid - 1 + 1)%Z with mid by lia. exact E1. }
      destruct (v >? table p mid) eqn:E2.
      { unfold iadd. rewrite wrap_id by (unfold in_int, INT_MIN, INT_MAX; lia).
        apply IH; try lia; auto.
        right. replace (mid + 1 - 1)%Z with mid by lia. exact E2. }
      destruct (Z.ltb_spec mid (bins p)).
      * eexists; split; [reflexivity|]. cbn. repeat split; try lia.
        -- rewrite table_le by lia. rewrite E1. reflexivity.
        -- destruct (value_between (table p mid) (table p (mid + 1))) as [C|C].
           ++ apply table_increasing; lia.
           ++ congruence.
           ++ exact C.
      * eexists; split; [reflexivity|]. split; [reflexivity|].
        right; right. replace (bins p) with mid by lia. split; assumption.
    + assert (lo = hi + 1)%Z by lia. subst lo. apply Hexit; auto; lia.
Qed.

Lemma intScale_post_holds : intScale_post p v (FastLogicle.intScale p v).
Proof.
  unfold FastLogicle.intScale.
  destruct (search_spec (Z.to_nat (bins p + 2)) 0%Z (bins p))
    as (r & -> & Hr); try lia; auto.
Qed.

(** The cases of [intScale] on a table of [bins + 1] strictly increasing
    entries, in an arithmetic and for a value that satisfy the hypotheses of
    this section: an index returned encloses the value, a value that matches
    an interior entry gets the index of that entry, a value equal to
    [lookup[bins]], below [lookup[0]] or above [lookup[bins]] throws
    [IllegalArgument], and every other value gets an index. *)
Lemma intScale_cases :
  (forall i, FastLogicle.intScale p v = Ok i ->
     (0 <= i < bins p)%Z /\
     (table p i <=? v) = true /\ (v <? table p (i + 1)) = true) /\
  (forall i, (0 <= i < bins p)%Z -> matches v (table p i) ->
     FastLogicle.intScale p v = Ok i) /\
  (matches v (table p (bins p)) ->
     FastLogicle.intScale p v = Throw (IllegalArgument v)) /\
  ((v <? table p 0) = true \/ (v >? table p (bins p)) = true ->
     FastLogicle.intScale p v = Throw (IllegalArgument v)) /\
  ((table p 0 <=? v) = true -> (v <? table p (bins p)) = true ->
     exists i, FastLogicle.intScale p v = Ok i).
Proof.
  pose proof intScale_post_holds as Hpost.
  assert (Hlow : forall j, (0 <= j <= bins p)%Z -> (v <? table p 0) = true ->
                           (v <? table p j) = true).
  { intros j Hj. apply (table_monotone 0%Z j); lia. }
  assert (Hhigh : forall j, (0 <= j <= bins p)%Z -> (table p (bins p) <? v) = true ->
                            (table p j <? v) = true).
  { intros j Hj. apply (table_monotone j (bins p)); lia. }
  (* an index whose entries enclose v excludes each reason to throw *)
  assert (Hexcl : forall i, (0 <= i < bins p)%Z ->
            (table p i <=? v) = true -> (v <? table p (i + 1)) = true ->
            (v <? table p 0) = false /\ (v >? table p (bins p)) = false /\
            ~ matches v (table p (bins p))).
  { intros i Hi H1 H2. rewrite table_le in H1 by lia. apply negb_true_iff in H1.
    assert (H3 : (v <? table p (bins p)) = true).
    { apply (table_monotone (i + 1)%Z (bins p)); try lia. exact H2. }
    repeat split.
    - assert (C := Hlow i ltac:(lia)).
      destruct (v <? table p 0); [|reflexivity].
      rewrite C in H1 by reflexivity. discriminate.
    - exact (lt_asym _ _ H3).
    - intros [M1 _]. congruence. }
  split; [|split; [|split; [|split]]].
  - intros i E. rewrite E in Hpost. exact Hpost.
  - intros i Hi [M1 M2].
    destruct (FastLogicle.intScale p v) as [j|e|]; cbn in Hpost; [|exfalso..].
    + destruct Hpost as (Hj & L1 & L2). f_equal.
      rewrite table_le in L1 by lia. apply negb_true_iff in L1.
      destruct (Z.lt_trichotomy j i) as [Hlt|[Heq|Hgt]]; [exfalso|exact Heq|exfalso].
      * assert (C : (v <? table p i) = true).
        { apply (table_monotone (j + 1)%Z i); try lia. exact L2. }
        congruence.
      * destruct (value_between (table p i) (table p j)) as [C|C];
          [apply table_increasing; lia | congruence | congruence].
    + destruct Hpost as (_ & [C|[C|[C1 C2]]]).
      * rewrite (Hlow i) in M1; [discriminate | lia | exact C].
      * rewrite (Hhigh i) in M2; [discriminate | lia | exact C].
      * destruct (value_between (table p i) (table p (bins p))) as [C|C];
          [apply table_increasing; lia | congruence | congruence].
    + exact Hpost.
  - intros [M1 M2].
    destruct (FastLogicle.intScale p v) as [j|e|]; cbn in Hpost; [exfalso| |exfalso].
    + destruct Hpost as (Hj & L1 & L2).
      destruct (Hexcl j Hj L1 L2) as (_ & _ & C). apply C. split; assumption.
    + destruct Hpost as [-> _]. reflexivity.
    + exact Hpost.
  - intros Hout.
    destruct (FastLogicle.intScale p v) as [j|e|]; cbn in Hpost; [exfalso| |exfalso].
    + destruct Hpost as (Hj & L1 & L2).
      destruct (Hexcl j Hj L1 L2) as (C1 & C2 & _).
      destruct Hout; congruence.
    + destruct Hpost as [-> _]. reflexivity.
    + exact Hpost.
  - intros H0 Hn.
    destruct (FastLogicle.intScale p v) as [j|e|]; cbn in Hpost; [eauto|exfalso..].
    + rewrite table_le in H0 by lia. apply negb_true_iff in H0.
      destruct Hpost as (_ & [C|[C|[C1 C2]]]); try congruence.
      rewrite (lt_asym _ _ Hn) in C. discriminate.
    + exact Hpost.
Qed.

End IntScale.

(** ** The lookup accelerator: the table *)

Section Table.
Context {D : Type} {AR : Arith D}.
Local Open Scope dbl_scope.

(** The table is filled in order with the values of the engine's
    [inverse] at [i / bins]. *)
Lemma lookup_loop_spec (p : logicle_params D) (bins0 : Z) (n : nat) (i : Z)
    (l : list D) :
  FastLogicle.lookup_loop p bins0 n i = Ok l ->
  List.length l = n /\
  forall k v, nth_error l k = Some v ->
    Logicle.inverse p (#(i + Z.of_nat k) / #bins0) = Ok v.
Proof.
  revert i l. induction n as [|n IH]; intros i l; cbn [FastLogicle.lookup_loop].
  - intros [= <-]. split; [reflexivity|]. intros [|k] v; discriminate.
  - destruct (Logicle.inverse p (#i / #bins0)) as [v0| |] eqn:E0;
      cbn [bind]; try discriminate.
    destruct (FastLogicle.lookup_loop p bins0 n (i + 1)) as [rest| |] eqn:E1;
      cbn [bind]; try discriminate.
    intros [= <-]. destruct (IH _ _ E1) as [Hlen Hnth].
    split; [cbn; f_equal; exact Hlen|].
    intros [|k] v; cbn.
    + intros [= <-]. rewrite Z.add_0_r. exact E0.
    + intros Hk. replace (i + Z.pos (Pos.of_succ_nat k))%Z
        with (i + 1 + Z.of_nat k)%Z by lia.
      apply Hnth. exact Hk.
Qed.

(** [inverse] reads the engine's fields only, which
    [FastLogicle::initialize] does not touch. *)
Lemma fast_initialize_inverse (p q : logicle_params D) (bins0 : Z) (s : D) :
  FastLogicle.initialize p bins0 = Ok q ->
  Logicle.inverse q s = Logicle.inverse p s.
Proof.
  unfold FastLogicle.initialize.
  destruct (iadd bins0 1 <? 0)%Z; [discriminate|].
  destruct (FastLogicle.lookup_loop p bins0 (Z.to_nat (bins0 + 1)) 0);
    cbn [bind]; try discriminate.
  intros [= <-]. destruct p. reflexivity.
Qed.

End Table.

(** ** Axis labels: the two loops *)

Lemma in_int_wrap (z : Z) : in_int (wrap z).
Proof.
  unfold in_int, INT_MIN, INT_MAX, wrap.
  pose proof (Z.mod_pos_bound (z + 2 ^ 31) (2 ^ 32) ltac:(lia)). lia.
Qed.

(** A sum of two non-negative [int]s that came out non-negative did not
    wrap. *)
Lemma iadd_nonneg (x y : Z) :
  (0 <= x <= INT_MAX)%Z -> (0 <= y <= INT_MAX + 1)%Z -> (0 <= iadd x y)%Z ->
  iadd x y = (x + y)%Z.
Proof.
  unfold iadd, wrap, INT_MAX. intros Hx Hy H.
  destruct (Z_lt_dec (x + y) (2 ^ 31)) as [Hs|Hl].
  - rewrite Z.mod_small; lia.
  - exfalso. revert H.
    replace (x + y + 2 ^ 31)%Z with (x + y - 2 ^ 31 + 1 * 2 ^ 32)%Z by lia.
    rewrite Z_mod_plus_full, Z.mod_small; lia.
Qed.

Section Labels.
Context {D : Type} {AR : Arith D}.
Local Open Scope dbl_scope.

Lemma decade_add (x : D) (n m : nat) : decade (decade x n) m = decade x (n + m).
Proof.
  revert x. induction n as [|n IH]; intros x; cbn; [reflexivity | apply IH].
Qed.

Lemma decade_next (x : D) (k : Z) :
  (0 <= k)%Z -> decade (x * #10) (Z.to_nat k) = decade x (Z.to_nat (k + 1)).
Proof.
  intros H. replace (Z.to_nat (k + 1)) with (S (Z.to_nat k)) by lia. reflexivity.
Qed.

(** The second loop writes [x], [10 x], ... at [nn + i], [nn + i + 1], ...
    and leaves the rest of the vector as it was. *)
Lemma labels_rest_inv (nn : Z) (n : nat) :
  forall (i : Z) (x : D) (L L' : list D),
  (0 <= nn <= INT_MAX)%Z -> (0 <= i)%Z -> (i + Z.of_nat n <= INT_MAX + 1)%Z ->
  Logicle.labels_rest nn n i x L = Ok L' ->
  List.length L' = List.length L /\
  (n <> 0%nat -> (nn + i + Z.of_nat n <= Z.of_nat (List.length L))%Z) /\
  forall j, (0 <= j)%Z ->
    nth_error L' (Z.to_nat j) =
    if ((nn + i <=? j) && (j <? nn + i + Z.of_nat n))%Z
    then Some (decade x (Z.to_nat (j - nn - i)))
    else nth_error L (Z.to_nat j).
Proof.
  induction n as [|n IH]; intros i x L L' Hnn Hi Hn; cbn [Logicle.labels_rest].
  - intros [= <-]. split; [reflexivity|]. split; [congruence|].
    intros j Hj. zbool; try lia; reflexivity.
  - destruct (store L (iadd nn i) x) as [L1| |] eqn:E1; cbn [bind]; try discriminate.
    intros H. apply store_Ok in E1. destruct E1 as [E0 E1].
    rewrite (iadd_nonneg nn i) in E1 by (unfold INT_MAX in *; lia).
    apply IH in H; try lia. destruct H as (Hlen & Hfit & Hnth).
    pose proof (update_nth_length _ _ _ _ E1) as Hl1.
    pose proof (update_nth_in_range _ _ _ _ E1) as Hr1.
    split; [congruence|]. split.
    + intros _. destruct n; [lia|]. specialize (Hfit ltac:(congruence)). lia.
    + intros j Hj. rewrite (Hnth j Hj).
      destruct (Z.eq_dec j (nn + i)) as [->|Hne].
      * zbool; try lia.
        replace (nn + i - nn - i)%Z with 0%Z by lia.
        exact (update_nth_same _ _ _ _ E1).
      * rewrite (update_nth_other _ _ _ (Z.to_nat j) _ E1) by lia.
        zbool; try lia; try reflexivity.
        f_equal. rewrite decade_next by lia. f_equal. lia.
Qed.

(** The first loop writes [- x], [- 10 x], ... downwards from [nn - i] and
    [x], [10 x], ... upwards from [nn + i]. *)
Lemma labels_mirror_inv (nn : Z) (n : nat) :
  forall (i : Z) (x : D) (L L' : list D) (x' : D),
  (0 <= nn <= INT_MAX)%Z -> (1 <= i)%Z -> (i + Z.of_nat n <= nn + 1)%Z ->
  Logicle.labels_mirror nn n i x L = Ok (L', x') ->
  List.length L' = List.length L /\
  x' = decade x n /\
  (n <> 0%nat -> (nn + i + Z.of_nat n <= Z.of_nat (List.length L))%Z) /\
  forall j, (0 <= j)%Z ->
    nth_error L' (Z.to_nat j) =
    if ((nn - i - Z.of_nat n <? j) && (j <=? nn - i))%Z
    then Some (- decade x (Z.to_nat (nn - i - j)))
    else if ((nn + i <=? j) && (j <? nn + i + Z.of_nat n))%Z
    then Some (decade x (Z.to_nat (j - nn - i)))
    else nth_error L (Z.to_nat j).
Proof.
  induction n as [|n IH]; intros i x L L' x' Hnn Hi Hn; cbn [Logicle.labels_mirror].
  - intros [= <- <-]. split; [reflexivity|]. split; [reflexivity|].
    split; [congruence|].
    intros j Hj. zbool; try lia; reflexivity.
  - destruct (store L (isub nn i) (- x)) as [L1| |] eqn:E1; cbn [bind]; try discriminate.
    destruct (store L1 (iadd nn i) x) as [L2| |] eqn:E2; cbn [bind]; try discriminate.
    intros H. apply store_Ok in E1. destruct E1 as [_ E1].
    apply store_Ok in E2. destruct E2 as [E0 E2].
    unfold isub in E1.
    rewrite wrap_id in E1 by (unfold in_int, INT_MIN, INT_MAX in *; lia).
    rewrite (iadd_nonneg nn i) in E2 by (unfold INT_MAX in *; lia).
    apply IH in H; try lia. destruct H as (Hlen & Hx & Hfit & Hnth).
    pose proof (update_nth_length _ _ _ _ E1) as Hl1.
    pose proof (update_nth_length _ _ _ _ E2) as Hl2.
    pose proof (update_nth_in_range _ _ _ _ E2) as Hr2.
    split; [congruence|]. split; [exact Hx|]. split.
    + intros _. destruct n; [lia|]. specialize (Hfit ltac:(congruence)). lia.
    + intros j Hj. rewrite (Hnth j Hj).
      destruct (Z.eq_dec j (nn + i)) as [->|Hne2].
      * zbool; try lia.
        replace (nn + i - nn - i)%Z with 0%Z by lia.
        exact (update_nth_same _ _ _ _ E2).
      * rewrite (update_nth_other _ _ _ (Z.to_nat j) _ E2) by lia.
        destruct (Z.eq_dec j (nn - i)) as [->|Hne1].
        -- zbool; try lia.
           replace (nn - i - (nn - i))%Z with 0%Z by lia.
           exact (update_nth_same _ _ _ _ E1).
        -- rewrite (update_nth_other _ _ _ (Z.to_nat j) _ E1) by lia.
           zbool; try lia; try reflexivity.
           ++ f_equal. f_equal. rewrite decade_next by lia. f_equal. lia.
           ++ f_equal. rewrite decade_next by lia. f_equal. lia.
Qed.

Lemma label_counts_in_int (inv : logicle_params D -> D -> outcome D D)
    (p : logicle_params D) (nn np : Z) (x : D) :
  Logicle.label_counts_of inv p = Ok (nn, np, x) -> in_int nn /\ in_int np.
Proof.
  unfold Logicle.label_counts_of.
  destruct (fexp _ >? T p);
    (destruct (inv p #0) as [B| |]; cbn [bind]; [|discriminate..]);
    intros [= <- <- <-]; split;
    repeat match goal with
      | |- context [if ?c then _ else _] => destruct c
      end;
    try apply in_int_wrap; unfold in_int, INT_MIN, INT_MAX; lia.
Qed.

(** What [axisLabels] returns, entry by entry: [nn] negated decades, a
    zero, [np] decades; the call only returns when [nn <= np]. *)
Lemma axisLabels_of_inv (inv : logicle_params D -> D -> outcome D D)
    (p : logicle_params D) (l0 labels : list D) :
  Logicle.axisLabels_of inv p l0 = Ok labels ->
  exists (nn np : Z) (x : D),
    Logicle.label_counts_of inv p = Ok (nn, np, x) /\
    (0 <= nn <= np)%Z /\
    Z.of_nat (List.length labels) = (nn + np + 1)%Z /\
    forall j, (0 <= j <= nn + np)%Z ->
      nth_error labels (Z.to_nat j) = Some (label_at nn x j).
Proof.
  unfold Logicle.axisLabels_of.
  destruct (Logicle.label_counts_of inv p) as [[[nn np] x]| |] eqn:Ec; cbn [bind];
    try discriminate.
  destruct (label_counts_in_int _ _ _ _ _ Ec) as [Inn Inp].
  pose proof (in_int_wrap (iadd nn np + 1)) as Isz.
  change (wrap (iadd nn np + 1)) with (iadd (iadd nn np) 1) in Isz.
  set (size := iadd (iadd nn np) 1) in *.
  destruct (Z.ltb_spec size 0) as [|Hsize]; [discriminate|].
  set (L0 := Logicle.resize l0 (Z.to_nat size)).
  assert (HL0 : List.length L0 = Z.to_nat size).
  { unfold L0, Logicle.resize.
    rewrite length_app, length_firstn, repeat_length. lia. }
  destruct (store L0 nn #0) as [L1| |] eqn:E1; cbn [bind]; try discriminate.
  apply store_Ok in E1. destruct E1 as [Hnn0 E1].
  pose proof (update_nth_length _ _ _ _ E1) as Hl1.
  pose proof (update_nth_in_range _ _ _ _ E1) as Hr1.
  destruct (Logicle.labels_mirror nn (Z.to_nat nn) 1 x L1) as [[L2 x2]| |] eqn:E2;
    cbn [bind]; try discriminate.
  apply labels_mirror_inv in E2;
    [| unfold in_int, INT_MIN, INT_MAX in *; lia | lia | lia].
  destruct E2 as (Hl2 & Hx2 & Hfit2 & Hnth2).
  (* the size did not wrap, and the mirrored entries fit below it *)
  assert (Hs : size = (nn + np + 1)%Z /\ (nn <= np)%Z).
  { assert (Hsz : (Z.of_nat (List.length L1) = size)%Z) by lia.
    assert (Hfit : (nn = 0 \/ nn + 1 + nn <= size)%Z).
    { destruct (Z.eq_dec nn 0); [left; assumption | right].
      rewrite <- Hsz. specialize (Hfit2 ltac:(lia)). lia. }
    clear - Inn Inp Hsize Hnn0 Hr1 HL0 Hfit.
    unfold in_int, INT_MIN, INT_MAX in *.
    assert (Hlt : (nn < size)%Z) by lia.
    subst size. unfold iadd, wrap in *.
    change (2 ^ 31)%Z with 2147483648%Z in *.
    change (2 ^ 32)%Z with 4294967296%Z in *.
    Z.div_mod_to_equations. lia. }
  destruct Hs as [Hs Hle]. rewrite Hs in *.
  assert (Hw : iadd nn 1 = (nn + 1)%Z).
  { apply wrap_id. unfold in_int, INT_MIN, INT_MAX in *. lia. }
  rewrite Hw. intros E3.
  apply labels_rest_inv in E3; [| unfold in_int, INT_MIN, INT_MAX in *; lia..].
  destruct E3 as (Hl3 & _ & Hnth3).
  exists nn, np, x. split; [reflexivity|]. split; [lia|]. split; [lia|].
  intros j Hj. rewrite (Hnth3 j) by lia. rewrite (Hnth2 j) by lia.
  unfold label_at. subst x2.
  destruct (Z.eq_dec j nn) as [->|Hne].
  - zbool; try lia. exact (update_nth_same _ _ _ _ E1).
  - zbool; try lia; try reflexivity.
    rewrite decade_add. f_equal. f_equal. lia.
Qed.

(** The same for an object of class [Logicle]. *)
Lemma axisLabels_inv (p : logicle_params D) (l0 labels : list D) :
  Logicle.axisLabels p l0 = Ok labels ->
  exists (nn np : Z) (x : D),
    Logicle.label_counts p = Ok (nn, np, x) /\
    (0 <= nn <= np)%Z /\
    Z.of_nat (List.length labels) = (nn + np + 1)%Z /\
    forall j, (0 <= j <= nn + np)%Z ->
      nth_error labels (Z.to_nat j) = Some (label_at nn x j).
Proof.
  exact (axisLabels_of_inv Logicle.inverse p l0 labels).
Qed.


End Labels.

(** ** The shape of a constructed transform *)

Section Shape.
Context {D : Type} {AR : Arith D}.
Local Open Scope dbl_scope.

(** How [initialize] ties [c] and [f] to [a]. *)
Lemma initialize_shape (T0 W0 M0 A0 : D) (bins0 : Z) (p : logicle_params D) :
  Logicle.initialize T0 W0 M0 A0 bins0 = Ok p ->
  exists c_a : D,
    c p = c_a * a p /\
    f p = - (fexp (b p * x1 p) - c_a / fexp (d p * x1 p)) * a p /\
    xTaylor p = x1 p + w p / #4.
Proof.
  unfold Logicle.initialize.
  destruct (T0 <=? #0); [discriminate|].
  destruct (W0 <? #0); [discriminate|].
  destruct (M0 <=? #0); [discriminate|].
  destruct (#2 * W0 >? M0); [discriminate|].
  destruct (- A0 >? W0); [discriminate|].
  destruct (A0 + W0 >? M0 - W0); [discriminate|]. cbn [orb].
  match goal with |- context [Logicle.solve ?x ?y] =>
    destruct (Logicle.solve x y) as [d0| |] end; cbn [bind]; try discriminate.
  match goal with |- context [store ?l ?i ?v] =>
    destruct (store l i v) as [t1| |] end; cbn [bind]; try discriminate.
  intros [= <-]. cbn [a b c d f x1 w xTaylor].
  eexists. repeat split.
Qed.

(** Every field of a constructed parameter block, as [initialize]
    computes it from the arguments. *)
Lemma initialize_fields (T0 W0 M0 A0 : D) (bins0 : Z) (p : logicle_params D) :
  Logicle.initialize T0 W0 M0 A0 bins0 = Ok p ->
  let A' := if (bins0 >? 0)%Z then adjusted_A W0 M0 A0 bins0 else A0 in
  let w' := W0 / (M0 + A') in
  let x2' := A' / (M0 + A') in
  let x1' := x2' + w' in
  let x0' := x2' + #2 * w' in
  let b' := (M0 + A') * Logicle.LN_10 in
  exists d' : D,
    Logicle.solve b' w' = Ok d' /\
    let c_a := fexp (x0' * (b' + d')) in
    let mf_a := fexp (b' * x1') - c_a / fexp (d' * x1') in
    let a' := T0 / ((fexp b' - mf_a) - c_a / fexp d') in
    T p = T0 /\ W p = W0 /\ M p = M0 /\ A p = A' /\
    a p = a' /\ b p = b' /\ c p = c_a * a' /\ d p = d' /\ f p = - mf_a * a' /\
    w p = w' /\ x0 p = x0' /\ x1 p = x1' /\ x2 p = x2' /\
    xTaylor p = x1' + w' / #4.
Proof.
  unfold Logicle.initialize, adjusted_A.
  destruct (T0 <=? #0); [discriminate|].
  destruct (W0 <? #0); [discriminate|].
  destruct (M0 <=? #0); [discriminate|].
  destruct (#2 * W0 >? M0); [discriminate|].
  destruct (- A0 >? W0); [discriminate|].
  destruct (A0 + W0 >? M0 - W0); [discriminate|]. cbn [orb].
  match goal with |- context [Logicle.solve ?x ?y] =>
    destruct (Logicle.solve x y) as [d0| |] eqn:Es end; cbn [bind]; try discriminate.
  match goal with |- context [store ?l ?i ?v] =>
    destruct (store l i v) as [t1| |] end; cbn [bind]; try discriminate.
  intros [= <-]. cbv zeta. exists d0. split; [reflexivity|].
  cbn [T W M A a b c d f w x0 x1 x2 xTaylor]. repeat split.
Qed.

(** The last two steps of the Horner evaluation. *)
Lemma seriesBiexponential_form (p : logicle_params D) (s : D) :
  List.length (taylor p) = 16%nat ->
  exists sum t0 : D,
    Logicle.seriesBiexponential p s = Ok ((sum * (s - x1 p) + t0) * (s - x1 p)).
Proof.
  destruct p as [? ? ? ? ? ? ? ? ? ? ? ? ? ? ty ? ?]. cbn [taylor x1].
  intros H. apply list16 in H.
  destruct H as (t0 & t1 & t2 & t3 & t4 & t5 & t6 & t7 & t8 & t9 & t10 & t11
                 & t12 & t13 & t14 & t15 & ->).
  eexists. exists t0. vm_compute. reflexivity.
Qed.

End Shape.

(** ** What the symmetry needs of the arithmetic *)

Section SymmetryWhenExact.
Context {D : Type} {AR : Arith D}.
Local Open Scope dbl_scope.

(** C2, as the code has it.  The reflection identity of [inverse] in any
    arithmetic in which negation is an involution, binary64 included: it
    holds at [s] as soon as [s] and its mirror image [2 * x1 - s] fall on
    opposite sides of [x1] and, when [s] is the one on the right,
    reflecting twice gives [s] back.  In binary64 these are the positions
    whose reflection is computed without rounding error; at the others the
    two calls evaluate the biexponential at different points. *)
Lemma inverse_symmetry_when_exact (p : logicle_params D) (s : D) :
  List.length (taylor p) = 16%nat ->
  (forall v : D, - - v = v) ->
  ((s <? x1 p) = true /\ (#2 * x1 p - s <? x1 p) = false) \/
  ((s <? x1 p) = false /\ (#2 * x1 p - s <? x1 p) = true /\
   #2 * x1 p - (#2 * x1 p - s) = s) ->
  exists v, Logicle.inverse p s = Ok v /\
            Logicle.inverse p (#2 * x1 p - s) = Ok (- v).
Proof.
  intros Hlen Hopp Hside. unfold Logicle.inverse.
  destruct Hside as [[-> ->] | (-> & -> & ->)].
  - destruct (#2 * x1 p - s <? xTaylor p).
    + destruct (seriesBiexponential_total p (#2 * x1 p - s) Hlen) as [v ->].
      cbn [bind]. exists (- v). rewrite Hopp. split; reflexivity.
    + cbn [bind]. eexists. rewrite Hopp. split; reflexivity.
  - destruct (s <? xTaylor p).
    + destruct (seriesBiexponential_total p s Hlen) as [v ->].
      cbn [bind]. exists v. split; reflexivity.
    + cbn [bind]. eexists. split; reflexivity.
Qed.

(** With [W = 0] the equation of [solve] has the root [b]: no pass of the
    loop is made. *)
Lemma solve_degenerate (b0 w0 : D) :
  (w0 =? #0) = true -> Logicle.solve_run b0 w0 = (Ok b0, 0%nat).
Proof.
  intros H. unfold Logicle.solve_run. rewrite H. reflexivity.
Qed.

(** In every arithmetic the interpolating [inverse] throws exactly when
    the bin of the position is outside [[0, bins)], and the exception is
    [IllegalArgument] of the position. *)
Lemma fast_inverse_throws (p : logicle_params D) (position : D) :
  let index := to_int (ffloor (position * #(bins p))) in
  ((index < 0 \/ bins p <= index)%Z ->
   FastLogicle.inverse p position = Throw (IllegalArgument position)) /\
  (forall e, FastLogicle.inverse p position = Throw e ->
   e = IllegalArgument position /\ (index < 0 \/ bins p <= index)%Z).
Proof.
  intros index. unfold FastLogicle.inverse. fold index.
  destruct (Z.ltb_spec index 0) as [H1|H1]; cbn [orb].
  - split; [reflexivity|]. intros e [= <-]. split; [reflexivity | lia].
  - rewrite Z.geb_leb. destruct (Z.leb_spec (bins p) index) as [H2|H2].
    + split; [reflexivity|]. intros e [= <-]. split; [reflexivity | lia].
    + split; [lia|]. intros e.
      destruct (load (lookup p) index) eqn:E0; cbn [bind];
        [| intros _; exfalso; exact (load_not_Throw _ _ _ E0) | discriminate].
      destruct (load (lookup p) (iadd index 1)) eqn:E1; cbn [bind];
        [discriminate | intros _; exfalso; exact (load_not_Throw _ _ _ E1)
        | discriminate].
Qed.

End SymmetryWhenExact.

(** ** The order of the real numbers *)

Section ExactOrder.
Local Open Scope R_scope.
Local Existing Instance Exact.arith.

Lemma ltb_true_iff (x y : R) : Exact.ltb x y = true <-> x < y.
Proof. unfold Exact.ltb. destruct (Rlt_dec x y); split; auto; discriminate. Qed.

Lemma ltb_false_iff (x y : R) : Exact.ltb x y = false <-> y <= x.
Proof.
  unfold Exact.ltb. destruct (Rlt_dec x y); split; auto; try discriminate; lra.
Qed.

Lemma leb_true_iff (x y : R) : Exact.leb x y = true <-> x <= y.
Proof. unfold Exact.leb. destruct (Rle_dec x y); split; auto; discriminate. Qed.

Lemma leb_false_iff (x y : R) : Exact.leb x y = false <-> y < x.
Proof.
  unfold Exact.leb. destruct (Rle_dec x y); split; auto; try discriminate; lra.
Qed.

Lemma eqb_true_iff (x y : R) : Exact.eqb x y = true <-> x = y.
Proof. unfold Exact.eqb. destruct (Req_dec_T x y); split; auto; discriminate. Qed.

Lemma eqb_false_iff (x y : R) : Exact.eqb x y = false <-> x <> y.
Proof.
  unfold Exact.eqb. destruct (Req_dec_T x y); split; auto; try discriminate; tauto.
Qed.

Lemma exact_lt_irrefl (x : R) : Exact.ltb x x = false.
Proof. apply ltb_false_iff. lra. Qed.

Lemma exact_lt_asym (x y : R) : Exact.ltb x y = true -> Exact.ltb y x = false.
Proof. rewrite ltb_true_iff, ltb_false_iff. lra. Qed.

Lemma exact_lt_trans (x y z : R) :
  Exact.ltb x y = true -> Exact.ltb y z = true -> Exact.ltb x z = true.
Proof. rewrite !ltb_true_iff. lra. Qed.

Lemma exact_lt_cotrans (x y z : R) :
  Exact.ltb x z = true -> Exact.ltb x y = true \/ Exact.ltb y z = true.
Proof.
  rewrite !ltb_true_iff. intros H.
  destruct (Rlt_dec x y); [left; assumption | right; lra].
Qed.

Lemma exact_le_not_gt (x y : R) : Exact.leb x y = negb (Exact.ltb y x).
Proof.
  destruct (Exact.ltb y x) eqn:E; cbn.
  - apply ltb_true_iff in E. apply leb_false_iff. exact E.
  - apply ltb_false_iff in E. apply leb_true_iff. exact E.
Qed.

End ExactOrder.

(** ** The transform in exact arithmetic *)

Section ExactTransform.
Local Open Scope R_scope.
Local Existing Instance Exact.arith.

Lemma cast_int_IZR (z : Z) :
  Exact.cast_int (IZR z) = if ((INT_MIN <=? z) && (z <=? INT_MAX))%Z then z else INT_MIN.
Proof.
  unfold Exact.cast_int, Exact.trunc.
  assert (E : (if Rle_dec 0 (IZR z) then Zfloor (IZR z) else Zceil (IZR z)) = z).
  { destruct (Rle_dec 0 (IZR z)); [apply ZfloorZ|].
    apply Zceil_eq. lra. }
  rewrite E. reflexivity.
Qed.

Lemma inverse_branch (p : logicle_params R) (s : R) :
  Logicle.inverse p s =
  if Exact.ltb s (x1 p)
  then v <- Exact.branch p (2 * x1 p - s) ;; Ok (- v)
  else Exact.branch p s.
Proof.
  unfold Logicle.inverse, Exact.branch. cbn [flt fsub fmul of_int fneg fexp fadd fdiv Exact.arith].
  destruct (Exact.ltb s (x1 p)).
  - reflexivity.
  - destruct (if Exact.ltb s (xTaylor p) then _ else _); reflexivity.
Qed.

(** At [x1] itself both formulas give zero. *)
Lemma branch_x1 (T0 W0 M0 A0 : R) (bins0 : Z) (p : logicle_params R) :
  Logicle.initialize T0 W0 M0 A0 bins0 = Ok p ->
  Exact.branch p (x1 p) = Ok 0.
Proof.
  intros H. unfold Exact.branch.
  destruct (Exact.ltb (x1 p) (xTaylor p)).
  - apply initialize_Ok in H.
    destruct H as (_ & _ & _ & _ & _ & _ & _ & _ & _ & _ & Hlen & _).
    destruct (seriesBiexponential_form p (x1 p) Hlen) as (sum & t0 & ->).
    f_equal. cbn [fadd fsub fmul Exact.arith]. ring.
  - apply initialize_shape in H. destruct H as (c_a & Hc & Hf & _).
    f_equal. rewrite Hf, Hc. cbn [fadd fsub fmul fdiv fneg fexp Exact.arith].
    unfold Rdiv. ring.
Qed.

(** X1.  In exact arithmetic a constructed transform is odd about [x1]:
    [inverse (2 * x1 - s) = - inverse (s)] for every position [s]. *)
Theorem inverse_symmetry (T0 W0 M0 A0 : R) (bins0 : Z) (p : logicle_params R) (s : R) :
  Logicle.initialize T0 W0 M0 A0 bins0 = Ok p ->
  exists v, Logicle.inverse p s = Ok v /\
            Logicle.inverse p (2 * x1 p - s) = Ok (- v).
Proof.
  intros H.
  pose proof (branch_x1 _ _ _ _ _ _ H) as H1.
  assert (Hlen : List.length (taylor p) = 16%nat).
  { apply initialize_Ok in H. tauto. }
  assert (Hb : forall t, exists v, Exact.branch p t = Ok v).
  { intros t. unfold Exact.branch. destruct (Exact.ltb t (xTaylor p)).
    - apply seriesBiexponential_total. exact Hlen.
    - eexists. reflexivity. }
  rewrite !inverse_branch.
  destruct (Rtotal_order s (x1 p)) as [Hlt | [Heq | Hgt]].
  - (* s is on the reflected side, its mirror image is not *)
    rewrite (proj2 (ltb_true_iff s (x1 p)) Hlt).
    rewrite (proj2 (ltb_false_iff (2 * x1 p - s) (x1 p))) by lra.
    destruct (Hb (2 * x1 p - s)) as [v ->]. cbn [bind].
    exists (- v). split; [reflexivity|]. f_equal. ring.
  - subst s.
    replace (2 * x1 p - x1 p) with (x1 p) by ring.
    rewrite (proj2 (ltb_false_iff (x1 p) (x1 p))) by lra.
    rewrite H1. exists 0. split; [reflexivity|]. f_equal. ring.
  - rewrite (proj2 (ltb_false_iff s (x1 p))) by lra.
    rewrite (proj2 (ltb_true_iff (2 * x1 p - s) (x1 p))) by lra.
    replace (2 * x1 p - (2 * x1 p - s)) with s by ring.
    destruct (Hb s) as [v ->]. cbn [bind].
    exists v. split; reflexivity.
Qed.

(** In exact arithmetic, on a table of [bins + 1] entries with [bins > 0],
    the interpolating [inverse] throws exactly for the positions outside
    [[0, 1)], which are the positions whose bin [floor (position * bins)]
    is outside [[0, bins)]. *)
Lemma fast_inverse_exact (p : logicle_params R) (position : R) :
  (0 < bins p <= INT_MAX)%Z ->
  Z.of_nat (List.length (lookup p)) = (bins p + 1)%Z ->
  let x := position * IZR (bins p) in
  let index := Zfloor x in
  (FastLogicle.inverse p position = Throw (IllegalArgument position) <->
   ~ (0 <= position < 1)) /\
  ((0 <= position < 1) <-> (0 <= index < bins p)%Z) /\
  (0 <= position < 1 ->
   FastLogicle.inverse p position =
     Ok ((1 - (x - IZR index)) * table p index
         + (x - IZR index) * table p (index + 1))).
Proof.
  intros Hbins Hlen x index.
  assert (Hn : 0 < IZR (bins p)) by (apply IZR_lt; lia).
  pose proof (Zfloor_bound x) as Hfl. fold index in Hfl.
  assert (Hiff : (0 <= position < 1) <-> (0 <= index < bins p)%Z).
  { split.
    - intros [H0 H1]. split.
      + apply (Zfloor_lub 0 x). unfold x. apply Rmult_le_pos; lra.
      + apply lt_IZR. apply Rle_lt_trans with x; [lra|].
        unfold x. nra.
    - intros [H0 H1]. apply IZR_le in H0. apply (Z.le_succ_l index) in H1.
      apply IZR_le in H1. rewrite succ_IZR in H1. unfold x in *. split; nra. }
  assert (Hcast : to_int (ffloor (position * IZR (bins p))) =
                  if ((INT_MIN <=? index) && (index <=? INT_MAX))%Z
                  then index else INT_MIN).
  { cbn [to_int ffloor Exact.arith]. apply cast_int_IZR. }
  unfold FastLogicle.inverse. cbn [fmul of_int Exact.arith]. rewrite Hcast.
  unfold INT_MIN, INT_MAX in *.
  destruct (Rle_dec 0 position) as [H0|H0]; [destruct (Rlt_dec position 1) as [H1|H1]|].
  - (* inside [0, 1) *)
    destruct (proj1 Hiff (conj H0 H1)) as [I0 I1].
    replace ((- 2 ^ 31 <=? index) && (index <=? 2 ^ 31 - 1))%Z with true
      by (symmetry; apply andb_true_iff; split; apply Z.leb_le; lia).
    replace ((index <? 0) || (index >=? bins p))%Z with false
      by (symmetry; apply orb_false_iff; split;
          [apply Z.ltb_ge | rewrite Z.geb_leb; apply Z.leb_gt]; lia).
    assert (Hw : iadd index 1 = (index + 1)%Z).
    { apply wrap_id. unfold in_int, INT_MIN, INT_MAX. lia. }
    rewrite Hw.
    assert (L0 : load (D := R) (lookup p) index = Ok (table p index)).
    { apply load_Ok. split; [lia|]. unfold table. apply nth_error_nth'. lia. }
    assert (L1 : load (D := R) (lookup p) (index + 1) = Ok (table p (index + 1))).
    { apply load_Ok. split; [lia|]. unfold table. apply nth_error_nth'. lia. }
    rewrite L0, L1. cbn [bind fadd fsub fmul of_int Exact.arith].
    split; [|split; [exact Hiff|]].
    + split; [discriminate | intros C; exfalso; apply C; lra].
    + intros _. reflexivity.
  - (* at or above 1 *)
    assert (Hge : (bins p <= index)%Z).
    { apply (Zfloor_lub (bins p) x). unfold x. nra. }
    assert (E : ((if ((- 2 ^ 31 <=? index) && (index <=? 2 ^ 31 - 1))%Z
                  then index else (- 2 ^ 31)%Z) <? 0)%Z
                || ((if ((- 2 ^ 31 <=? index) && (index <=? 2 ^ 31 - 1))%Z
                     then index else (- 2 ^ 31)%Z) >=? bins p)%Z = true).
    { destruct ((- 2 ^ 31 <=? index) && (index <=? 2 ^ 31 - 1))%Z.
      - apply orb_true_iff. right. rewrite Z.geb_leb. apply Z.leb_le. lia.
      - reflexivity. }
    rewrite E.
    split; [|split; [exact Hiff|]].
    + split; [intros _; lra | reflexivity].
    + intros [_ C]. lra.
  - (* below 0 *)
    assert (Hlt : (index < 0)%Z).
    { apply lt_IZR. apply Rle_lt_trans with x; [lra|]. unfold x. nra. }
    assert (E : ((if ((- 2 ^ 31 <=? index) && (index <=? 2 ^ 31 - 1))%Z
                  then index else (- 2 ^ 31)%Z) <? 0)%Z
                || ((if ((- 2 ^ 31 <=? index) && (index <=? 2 ^ 31 - 1))%Z
                     then index else (- 2 ^ 31)%Z) >=? bins p)%Z = true).
    { destruct ((- 2 ^ 31 <=? index) && (index <=? 2 ^ 31 - 1))%Z.
      - apply orb_true_iff. left. apply Z.ltb_lt. lia.
      - reflexivity. }
    rewrite E.
    split; [|split; [exact Hiff|]].
    + split; [intros _; lra | reflexivity].
    + intros [C _]. lra.
Qed.

(** With [W = 0] the root finder returns at once, and the construction
    succeeds for every positive [T] and [M]. *)
Lemma exact_initialize_arcsinh (T0 M0 : R) :
  0 < T0 -> 0 < M0 -> exists p, Logicle.initialize T0 0 M0 0 0 = Ok p.
Proof.
  intros HT HM. unfold Logicle.initialize.
  cbn [fle flt fadd fsub fmul fneg of_int Exact.arith].
  rewrite (proj2 (leb_false_iff T0 0)) by lra.
  rewrite (proj2 (ltb_false_iff 0 0)) by lra.
  rewrite (proj2 (leb_false_iff M0 0)) by lra.
  rewrite (proj2 (ltb_false_iff M0 (2 * 0))) by lra.
  rewrite (proj2 (ltb_false_iff 0 (- 0))) by lra.
  rewrite (proj2 (ltb_false_iff (M0 - 0) (0 + 0))) by lra.
  cbn [orb Z.gtb Z.compare].
  match goal with |- context [Logicle.solve ?x ?y] =>
    assert (Es : Logicle.solve x y = Ok x) end.
  { unfold Logicle.solve, Logicle.solve_run. cbn [feq fdiv of_int Exact.arith].
    rewrite (proj2 (eqb_true_iff (0 / (M0 + 0)) 0)) by (unfold Rdiv; ring).
    reflexivity. }
  rewrite Es. cbn [bind].
  match goal with |- context [store ?l ?i ?v] =>
    destruct (store l i v) as [t1| |] eqn:Et end; cbn [bind].
  - eexists. reflexivity.
  - exfalso. exact (store_not_Throw _ _ _ _ Et).
  - exfalso. revert Et. cbn. discriminate.
Qed.

Lemma inverse_symmetry_witness :
  exists p : logicle_params R,
    Logicle.initialize 1 0 (9 / 2) 0 0 = Ok p /\
    exists v, Logicle.inverse p (1 / 2) = Ok v /\
              Logicle.inverse p (2 * x1 p - 1 / 2) = Ok (- v).
Proof.
  destruct (exact_initialize_arcsinh 1 (9 / 2)) as [p Hp]; [lra | lra |].
  exists p. split; [exact Hp|].
  exact (inverse_symmetry 1 0 (9 / 2) 0 0 p (1 / 2) Hp).
Defined.

End ExactTransform.

(** ** The interpolating [inverse] *)

Section FastInverse.


Local Open Scope float_scope.



End FastInverse.

(** ** Axis labels in exact arithmetic *)

Section ExactLabels.
Local Open Scope R_scope.
Local Existing Instance Exact.arith.

Lemma decade_pos (x : R) (n : nat) : 0 < x -> 0 < decade x n.
Proof.
  revert x. induction n as [|n IH]; intros x Hx; cbn [decade]; [exact Hx|].
  apply IH. cbn [fmul of_int Exact.arith]. lra.
Qed.

(** The first label is a power of ten or [T]: it is positive. *)
Lemma label_counts_pos (p : logicle_params R) (nn np : Z) (x : R) :
  0 < T p -> Logicle.label_counts p = Ok (nn, np, x) -> 0 < x.
Proof.
  intros HT. unfold Logicle.label_counts, Logicle.label_counts_of.
  destruct (flt (T p) (fexp _));
    (destruct (Logicle.inverse p (of_int 0)) as [B| |]; cbn [bind]; [|discriminate..]);
    intros [= _ _ <-]; [exact HT|].
  cbn [fexp Exact.arith]. apply exp_pos.
Qed.

(** In exact arithmetic the labels that [axisLabels] returns for a
    constructed transform are [nn] negative values, one zero, and [np]
    positive values. *)
Lemma axisLabels_signs (T0 W0 M0 A0 : R) (bins0 : Z) (p : logicle_params R)
    (l0 labels : list R) :
  Logicle.initialize T0 W0 M0 A0 bins0 = Ok p ->
  Logicle.axisLabels p l0 = Ok labels ->
  exists nn np : nat,
    (nn <= np)%nat /\
    List.length labels = (nn + np + 1)%nat /\
    (forall j y, nth_error labels j = Some y ->
       (y = 0 <-> j = nn) /\ (y < 0 <-> (j < nn)%nat) /\ (0 < y <-> (nn < j)%nat)) /\
    (forall j y, (j < nn)%nat -> nth_error labels j = Some y ->
       nth_error labels (2 * nn - j) = Some (- y)).
Proof.
  intros Hp Hl.
  assert (HT : 0 < T p).
  { apply initialize_Ok in Hp.
    destruct Hp as (H1 & _ & _ & _ & _ & _ & -> & _).
    cbn [fle of_int Exact.arith] in H1. apply leb_false_iff in H1. exact H1. }
  apply axisLabels_inv in Hl.
  destruct Hl as (nn & np & x & Hc & Hle & Hlen & Hnth).
  pose proof (label_counts_pos p nn np x HT Hc) as Hx.
  exists (Z.to_nat nn), (Z.to_nat np).
  split; [lia|]. split; [lia|].
  assert (Hat : forall j y, nth_error labels j = Some y ->
            (j < List.length labels)%nat /\ y = label_at nn x (Z.of_nat j)).
  { intros j y Hj.
    assert (Hjl : (j < List.length labels)%nat).
    { apply nth_error_Some. congruence. }
    split; [exact Hjl|].
    specialize (Hnth (Z.of_nat j) ltac:(lia)).
    rewrite Nat2Z.id in Hnth. congruence. }
  split.
  - intros j y Hj. destruct (Hat j y Hj) as [Hjl ->].
    unfold label_at. cbn [fneg of_int Exact.arith].
    destruct (Z.ltb_spec (Z.of_nat j) nn) as [H1|H1];
      [|destruct (Z.eqb_spec (Z.of_nat j) nn) as [H2|H2]].
    + pose proof (decade_pos x (Z.to_nat (nn - 1 - Z.of_nat j)) Hx).
      repeat split; intros; try lia; lra.
    + repeat split; intros; try lia; lra.
    + pose proof (decade_pos x (Z.to_nat (Z.of_nat j - nn - 1)) Hx).
      repeat split; intros; try lia; lra.
  - intros j y Hjn Hj. destruct (Hat j y Hj) as [Hjl ->].
    replace (2 * Z.to_nat nn - j)%nat
      with (Z.to_nat (2 * nn - Z.of_nat j)) by lia.
    rewrite Hnth by lia. f_equal. unfold label_at.
    destruct (Z.ltb_spec (Z.of_nat j) nn); [|lia].
    destruct (Z.ltb_spec (2 * nn - Z.of_nat j) nn); [lia|].
    destruct (Z.eqb_spec (2 * nn - Z.of_nat j) nn); [lia|].
    cbn [fneg Exact.arith]. rewrite Ropp_involutive. f_equal. lia.
Qed.

(** The labels for [T = 1], [W = 0], [M = 4.5], [A = 0]: the scale has no
    negative part, and the labels are zero and the five decades from
    [10^-4] to 1. *)
Lemma exact_labels_example :
  exists p : logicle_params R,
    Logicle.initialize 1 0 (9 / 2) 0 0 = Ok p /\
    let x := exp (ln 10 * IZR (- 4)) in
    Logicle.axisLabels p [] =
      Ok [0; x; x * 10; x * 10 * 10; x * 10 * 10 * 10; x * 10 * 10 * 10 * 10].
Proof.
  destruct (exact_initialize_arcsinh 1 (9 / 2)) as [p Hp]; [lra | lra |].
  exists p. split; [exact Hp|]. intros x.
  pose proof (branch_x1 _ _ _ _ _ _ Hp) as Hb.
  pose proof (initialize_fields _ _ _ _ _ _ Hp) as Hf. cbv zeta in Hf.
  destruct Hf as (d' & _ & HT & HW & HM & _ & _ & _ & _ & _ & _ & _ & _ & Hx1 & _ & _).
  cbn [Z.gtb Z.compare fadd fdiv of_int Exact.arith] in Hx1.
  assert (Hx1' : x1 p = 0) by (rewrite Hx1; unfold Rdiv; ring).
  assert (HB : Logicle.inverse p 0 = Ok 0).
  { rewrite inverse_branch, Hx1'.
    rewrite (proj2 (ltb_false_iff 0 0)) by lra.
    rewrite <- Hx1' at 1. exact Hb. }
  assert (Hln : 0 < ln 10).
  { rewrite <- ln_1. apply ln_increasing; lra. }
  assert (Hx : 0 < x < 1).
  { unfold x. split; [apply exp_pos|].
    rewrite <- exp_0. apply exp_increasing.
    change (IZR (- 4)) with (- 4). nra. }
  assert (Hc : Logicle.label_counts p = Ok (0%Z, 5%Z, x)).
  { unfold Logicle.label_counts, Logicle.label_counts_of, Logicle.LN_10.
    cbn [fceil ffloor flog fexp fsub fmul fdiv fneg flt feq of_int to_int Exact.arith].
    rewrite HT, HW, HM, ln_1.
    replace (0 / ln 10 - (9 / 2 - 2 * 0)) with (- 9 / 2) by (unfold Rdiv; ring).
    rewrite (Zceil_eq (- 4) (- 9 / 2)) by (change (IZR (- 4)) with (- 4); lra).
    fold x.
    rewrite (proj2 (ltb_false_iff 1 x)) by lra.
    replace (0 / ln 10 - IZR (- 4)) with (IZR 4)
      by (change (IZR (- 4)) with (- 4); unfold Rdiv; ring).
    rewrite ZfloorZ, cast_int_IZR.
    change (Logicle.inverse p (IZR 0)) with (Logicle.inverse p 0).
    rewrite HB. cbn [bind].
    rewrite (proj2 (ltb_true_iff (- 0) x)) by lra.
    reflexivity. }
  unfold Logicle.axisLabels, Logicle.axisLabels_of.
  change (Logicle.label_counts_of Logicle.inverse p) with (Logicle.label_counts p).
  rewrite Hc. reflexivity.
Qed.


End ExactLabels.

(** ** Runs of the program in binary64 *)

Section Runs.
Local Open Scope float_scope.

(** The parameters of the documentation, [T = 262144], [W = 0.5],
    [M = 4.5], [A = 0], construct a transform; [scale (0)] is its [x1]. *)
Lemma scale_zero_witness :
  exists p : logicle_params float,
    Logicle.Logicle4 (AR := Binary64.reference) 262144 0.5 4.5 0 = Ok p /\
    (Logicle.scale (AR := Binary64.reference) p 0 = Ok (x1 p) /\
     Logicle.scale_run (AR := Binary64.reference) p 0 = (Ok (x1 p), 0%nat)).
Proof.
  eexists. split.
  - vm_compute. reflexivity.
  - apply (@scale_zero float Binary64.reference). reflexivity.
Defined.

Lemma inverse_total_witness :
  exists p : logicle_params float,
    Logicle.initialize (AR := Binary64.reference) 262144 0.5 4.5 0 0 = Ok p /\
    exists v, Logicle.inverse (AR := Binary64.reference) p 0.25 = Ok v.
Proof.
  eexists. split.
  - vm_compute. reflexivity.
  - eapply (@inverse_total float Binary64.reference 262144 0.5 4.5 0 0).
    vm_compute. reflexivity.
Defined.

(** With eight bins the adjustment moves [A] from 0 to 1/14. *)
Lemma accessors_after_construction_witness :
  exists p : logicle_params float,
    FastLogicle.FastLogicle5 (AR := Binary64.reference) 262144 0.5 4.5 0 8 = Ok p /\
    (T p = 262144 /\ W p = 0.5 /\ M p = 4.5 /\
     ((0 < 8)%Z -> A p = adjusted_A (AR := Binary64.reference) 0.5 4.5 0 8) /\
     ((8 <= 0)%Z -> A p = 0)) /\
    PrimFloat.eqb (A p) 0 = false.
Proof.
  eexists. split; [|split].
  - vm_compute. reflexivity.
  - apply (@accessors_after_construction float Binary64.reference).
    right. vm_compute. reflexivity.
  - vm_compute. reflexivity.
Defined.

(** C5, where the code departs from it: the table is not strictly
    increasing for every accepted parameter set.  It fails in two ways.
    [T = 262144], [W = 0.5], [M = 4.5], [A = 3.5] pass the validation
    ([A + W = M - W]); with [bins = 1] the adjustment computes
    [zero = floor (0.5 * 1 + .5) / 1 = 1] and divides by [1 - zero = 0], so
    [A] becomes infinite, [x2 = A / (M + A)] is NaN and with it every
    coefficient: the table is NaN, NaN.
    [T = 2^-1074], the least positive double, passes the validation too;
    [a = T / ...] rounds to zero, and every entry of the table is zero.
    Neither table is strictly increasing. *)
Lemma lookup_not_increasing :
  (exists p : logicle_params float,
     FastLogicle.FastLogicle5 (AR := Binary64.reference) 262144 0.5 4.5 3.5 1 = Ok p /\
     valid_parameters (AR := Binary64.reference) 262144 0.5 4.5 3.5 /\
     lookup p = [nan; nan] /\
     ~ strictly_increasing (AR := Binary64.reference) (lookup p)) /\
  (exists p : logicle_params float,
     FastLogicle.FastLogicle5 (AR := Binary64.reference) 0x1p-1074 0.5 4.5 0 4 = Ok p /\
     valid_parameters (AR := Binary64.reference) 0x1p-1074 0.5 4.5 0 /\
     lookup p = [0; 0; 0; 0; 0] /\
     ~ strictly_increasing (AR := Binary64.reference) (lookup p)).
Proof.
  split.
  - eexists. split; [vm_compute; reflexivity|].
    split; [repeat split|]. split; [reflexivity|].
    intros H. specialize (H 0%nat 1%nat nan nan (Nat.lt_0_succ 0) eq_refl eq_refl).
    discriminate H.
  - eexists. split; [vm_compute; reflexivity|].
    split; [repeat split|]. split; [reflexivity|].
    intros H. specialize (H 0%nat 1%nat 0 0 (Nat.lt_0_succ 0) eq_refl eq_refl).
    discriminate H.
Qed.

(** *** The order of binary64 *)

Lemma SFltb_asym (x y : spec_float) : SFltb x y = true -> SFltb y x = false.
Proof.
  unfold SFltb.
  destruct x as [sx|sx| |sx mx ex]; destruct y as [sy|sy| |sy my ey]; cbn;
    try destruct sx; try destruct sy; cbn;
    try discriminate; try reflexivity;
    intros H1; cmp_cases; cbn in *; try discriminate; try reflexivity; try lia.
Qed.

Lemma SFltb_trans (x y z : spec_float) :
  SFltb x y = true -> SFltb y z = true -> SFltb x z = true.
Proof.
  unfold SFltb.
  destruct x as [sx|sx| |sx mx ex]; destruct y as [sy|sy| |sy my ey];
    destruct z as [sz|sz| |sz mz ez]; cbn;
    try destruct sx; try destruct sy; try destruct sz; cbn;
    try discriminate; try reflexivity;
    intros H1 H2; cmp_cases; cbn in *; try discriminate; try reflexivity; try lia.
Qed.

Lemma SFltb_between (x v z : spec_float) :
  SFeqb v v = true -> SFltb x z = true -> SFltb x v = true \/ SFltb v z = true.
Proof.
  unfold SFltb, SFeqb.
  destruct x as [sx|sx| |sx mx ex]; destruct v as [sv|sv| |sv mv ev];
    destruct z as [sz|sz| |sz mz ez]; cbn;
    try destruct sx; try destruct sv; try destruct sz; cbn;
    try discriminate; try (intros; left; reflexivity);
    try (intros; right; reflexivity);
    intros H1 H2; cmp_cases; cbn in *; try discriminate;
    try (left; reflexivity); try (right; reflexivity); try lia.
Qed.

Lemma SFleb_not_gt (x y : spec_float) :
  SFeqb x x = true -> SFeqb y y = true -> SFleb x y = negb (SFltb y x).
Proof.
  unfold SFltb, SFleb, SFeqb.
  destruct x as [sx|sx| |sx mx ex]; destruct y as [sy|sy| |sy my ey]; cbn;
    try destruct sx; try destruct sy; cbn;
    try discriminate; try reflexivity;
    intros H1 H2; cmp_cases; cbn in *; try discriminate; try reflexivity; try lia.
Qed.

Lemma SFltb_not_nan (x y : spec_float) :
  SFltb x y = true -> SFeqb x x = true /\ SFeqb y y = true.
Proof.
  unfold SFltb, SFeqb.
  destruct x as [sx|sx| |sx mx ex]; destruct y as [sy|sy| |sy my ey]; cbn;
    try destruct sx; try destruct sy; cbn;
    try discriminate; intros _; rewrite ?Z.compare_refl, ?Pos.compare_cont_refl;
    split; reflexivity.
Qed.

(** [x <= y] excludes [y < x] and [x < y] excludes [y <= x], NaN or not. *)
Lemma SFleb_excludes_gt (x y : spec_float) : SFleb x y = true -> SFltb y x = false.
Proof.
  unfold SFltb, SFleb.
  destruct x as [sx|sx| |sx mx ex]; destruct y as [sy|sy| |sy my ey]; cbn;
    try destruct sx; try destruct sy; cbn;
    try discriminate; try reflexivity;
    intros H1; cmp_cases; cbn in *; try discriminate; try reflexivity; try lia.
Qed.

Lemma SFltb_excludes_ge (x y : spec_float) : SFltb x y = true -> SFleb y x = false.
Proof.
  unfold SFltb, SFleb.
  destruct x as [sx|sx| |sx mx ex]; destruct y as [sy|sy| |sy my ey]; cbn;
    try destruct sx; try destruct sy; cbn;
    try discriminate; try reflexivity;
    intros H1; cmp_cases; cbn in *; try discriminate; try reflexivity; try lia.
Qed.

(** Rounding a mantissa that is not negative never gives NaN. *)
Lemma shr_1_nonneg (mrs : shr_record) : (0 <= shr_m mrs)%Z -> (0 <= shr_m (shr_1 mrs))%Z.
Proof.
  destruct mrs as [m r s]. cbn [shr_m].
  destruct m as [|q|q]; [| |lia]; intros _; cbn; try lia.
  destruct q; cbn; lia.
Qed.

Lemma iter_shr_1_nonneg (n : positive) (mrs : shr_record) :
  (0 <= shr_m mrs)%Z -> (0 <= shr_m (iter_pos shr_1 n mrs))%Z.
Proof.
  revert mrs. induction n as [n IH|n IH|]; intros mrs H; cbn [iter_pos].
  - apply IH, IH, shr_1_nonneg, H.
  - apply IH, IH, H.
  - apply shr_1_nonneg, H.
Qed.

Lemma shr_fexp_nonneg (prec emax m e : Z) (l : location) :
  (0 <= m)%Z -> (0 <= shr_m (fst (shr_fexp prec emax m e l)))%Z.
Proof.
  intros H. unfold shr_fexp, shr.
  assert (H0 : (0 <= shr_m (shr_record_of_loc m l))%Z).
  { destruct l as [|[| |]]; exact H. }
  destruct (SpecFloat.fexp prec emax (Zdigits2 m + e) - e)%Z; cbn [fst]; auto.
  apply iter_shr_1_nonneg, H0.
Qed.

Lemma round_nearest_even_nonneg (m : Z) (l : location) :
  (0 <= m)%Z -> (0 <= round_nearest_even m l)%Z.
Proof.
  intros H. destruct l as [|[| |]]; cbn; try lia.
  destruct (Z.even m); lia.
Qed.

Lemma round_aux_not_nan (prec emax : Z) (sx : bool) (m e : Z) (l : location) :
  (0 <= m)%Z -> binary_round_aux prec emax sx m e l <> S754_nan.
Proof.
  intros H. unfold binary_round_aux.
  pose proof (shr_fexp_nonneg prec emax m e l H) as H1.
  destruct (shr_fexp prec emax m e l) as [mrs' e']. cbn [fst] in H1.
  pose proof (shr_fexp_nonneg prec emax _ e' loc_Exact
                (round_nearest_even_nonneg _ (loc_of_shr_record mrs') H1)) as H2.
  destruct (shr_fexp prec emax _ e' loc_Exact) as [mrs'' e'']. cbn [fst] in H2.
  destruct (shr_m mrs'') as [|q|q]; [discriminate| |lia].
  destruct (e'' <=? emax - prec)%Z; discriminate.
Qed.

Lemma round_not_nan (prec emax : Z) (sx : bool) (m : positive) (e : Z) :
  binary_round prec emax sx m e <> S754_nan.
Proof.
  unfold binary_round. destruct (shl_align _ _ _) as [mz ez].
  apply round_aux_not_nan. lia.
Qed.

Lemma normalize_not_nan (prec emax m e : Z) (sz : bool) :
  binary_normalize prec emax m e sz <> S754_nan.
Proof.
  destruct m; cbn; [discriminate | apply round_not_nan..].
Qed.

(** NaN is the double that differs from itself. *)
Lemma SFeqb_refl (x : spec_float) : SFeqb x x = true <-> x <> S754_nan.
Proof.
  unfold SFeqb.
  destruct x as [s|s| |s m e]; try destruct s; cbn;
    rewrite ?Z.compare_refl, ?Pos.compare_cont_refl; cbn; split; congruence.
Qed.

Lemma is_nan_spec (x : float) : is_nan x = false <-> Prim2SF x <> S754_nan.
Proof.
  unfold is_nan. rewrite eqb_spec, <- SFeqb_refl.
  destruct (SFeqb _ _); cbn; split; congruence.
Qed.

Lemma is_finite_spec (x : float) :
  is_finite x = true ->
  (exists s, Prim2SF x = S754_zero s) \/ (exists s m e, Prim2SF x = S754_finite s m e).
Proof.
  unfold is_finite, is_nan, is_infinity. rewrite !eqb_spec, abs_spec.
  change (Prim2SF infinity) with (S754_infinity false).
  destruct (Prim2SF x) as [s|s| |s m e]; try destruct s; cbn;
    try discriminate; eauto.
Qed.

Lemma opp_not_nan (x : float) : is_nan x = false -> is_nan (- x) = false.
Proof.
  rewrite !is_nan_spec, opp_spec. destruct (Prim2SF x); cbn; congruence.
Qed.

(** Doubling a double, and adding a finite double to a double or
    subtracting it, gives NaN only from NaN. *)
Lemma double_not_nan (x : float) : is_nan x = false -> is_nan (Binary64.of_Z 2 * x) = false.
Proof.
  rewrite !is_nan_spec, mul_spec.
  change (Prim2SF (Binary64.of_Z 2)) with (S754_finite false 4503599627370496 (-51)).
  destruct (Prim2SF x) as [s|s| |s m e]; cbn [SF64mul SFmul]; try congruence.
  intros _. apply round_aux_not_nan. lia.
Qed.

Lemma add_not_nan (x y : float) :
  is_nan x = false -> is_finite y = true -> is_nan (x + y) = false.
Proof.
  intros Hx Hy. rewrite is_nan_spec in *. rewrite add_spec.
  destruct (is_finite_spec y Hy) as [[s' ->] | (s' & m' & e' & ->)];
    destruct (Prim2SF x) as [s|s| |s m e]; cbn [SF64add SFadd];
    try discriminate; try congruence.
  - destruct s, s'; discriminate.
  - apply normalize_not_nan.
Qed.

Lemma sub_not_nan (x y : float) :
  is_nan x = false -> is_finite y = true -> is_nan (x - y) = false.
Proof.
  intros Hx Hy. rewrite is_nan_spec in *. rewrite sub_spec.
  destruct (is_finite_spec y Hy) as [[s' ->] | (s' & m' & e' & ->)];
    destruct (Prim2SF x) as [s|s| |s m e]; cbn [SF64sub SFsub];
    try discriminate; try congruence.
  - destruct s, s'; discriminate.
  - apply normalize_not_nan.
Qed.

Lemma finite_not_nan (x : float) : is_finite x = true -> is_nan x = false.
Proof.
  unfold is_finite. destruct (is_nan x); [discriminate | reflexivity].
Qed.

(** Two doubles neither of which is NaN are comparable. *)
Lemma decided_binary64 (libm_exp libm_log : float -> float) (x y : float) :
  is_nan x = false -> is_nan y = false ->
  decided (AR := Binary64.arith libm_exp libm_log) x y.
Proof.
  rewrite !is_nan_spec, <- !SFeqb_refl. intros Hx Hy.
  split; cbn [fle flt Binary64.arith]; rewrite leb_spec, ltb_spec;
    apply SFleb_not_gt; assumption.
Qed.

Lemma leb_excludes_gt (x y : float) : (x <=? y) = true -> (y <? x) = false.
Proof. rewrite leb_spec, ltb_spec. apply SFleb_excludes_gt. Qed.

Lemma ltb_excludes_ge (x y : float) : (x <? y) = true -> (y <=? x) = false.
Proof. rewrite leb_spec, ltb_spec. apply SFltb_excludes_ge. Qed.




(** X2.  On a strictly increasing table of binary64, [intScale] ends as
    [intScale_post] says for every value but NaN, whatever <cmath> is. *)
Lemma intScale_binary64 (libm_exp libm_log : float -> float)
    (p : logicle_params float) (v : float) :
  (0 < bins p < 2 ^ 30)%Z ->
  Z.of_nat (List.length (lookup p)) = (bins p + 1)%Z ->
  strictly_increasing (AR := Binary64.arith libm_exp libm_log) (lookup p) ->
  PrimFloat.eqb v v = true ->
  intScale_post (AR := Binary64.arith libm_exp libm_log) p v
    (FastLogicle.intScale (AR := Binary64.arith libm_exp libm_log) p v).
Proof.
  intros Hb Hlen Hinc Hv.
  refine (@intScale_post_holds float (Binary64.arith libm_exp libm_log)
            _ p Hb Hlen Hinc v _ _).
  - intros x y. cbn [flt Binary64.arith]. rewrite !ltb_spec. apply SFltb_asym.
  - intros x z. cbn [flt Binary64.arith]. rewrite !ltb_spec.
    apply SFltb_between. rewrite <- eqb_spec. exact Hv.
  - intros i Hi.
    (* an entry of an increasing table is below or above another one *)
    assert (Hi' : PrimFloat.eqb (table (AR := Binary64.arith libm_exp libm_log) p i)
                    (table (AR := Binary64.arith libm_exp libm_log) p i) = true).
    { destruct (Z.eq_dec i 0) as [->|Hne].
      - pose proof (Hinc 0%nat 1%nat
          (table (AR := Binary64.arith libm_exp libm_log) p 0)
          (table (AR := Binary64.arith libm_exp libm_log) p 1)) as H.
        cbn [flt Binary64.arith] in H. rewrite ltb_spec in H.
        rewrite eqb_spec. apply (SFltb_not_nan _ _ (H ltac:(lia)
          ltac:(unfold table; apply nth_error_nth'; lia)
          ltac:(unfold table; apply nth_error_nth'; lia))).
      - pose proof (Hinc 0%nat (Z.to_nat i)
          (table (AR := Binary64.arith libm_exp libm_log) p 0)
          (table (AR := Binary64.arith libm_exp libm_log) p i)) as H.
        cbn [flt Binary64.arith] in H. rewrite ltb_spec in H.
        rewrite eqb_spec. apply (SFltb_not_nan _ _ (H ltac:(lia)
          ltac:(unfold table; apply nth_error_nth'; lia)
          ltac:(unfold table; apply nth_error_nth'; lia))). }
    rewrite eqb_spec in Hi', Hv.
    split; cbn [fle flt Binary64.arith]; rewrite leb_spec, ltb_spec;
      apply SFleb_not_gt; assumption.
Qed.

(** C6, as the code has it, in binary64 and whatever <cmath> is.  On a
    table of [bins + 1] strictly increasing entries, with [bins] below
    [2^30] so that the [int] sum [lo + hi] stays in range, and for a value
    that is not NaN, [intScale (value)] returns the index [i] in
    [[0, bins)] with [lookup[i] <= value < lookup[i+1]], and a value that
    matches an interior entry gets the index of that entry; a value equal
    to [lookup[bins]], below [lookup[0]] or above [lookup[bins]] throws
    [IllegalArgument]; every other value gets an index. *)
Theorem intScale_spec (libm_exp libm_log : float -> float)
    (p : logicle_params float) (v : float) :
  (0 < bins p < 2 ^ 30)%Z ->
  Z.of_nat (List.length (lookup p)) = (bins p + 1)%Z ->
  strictly_increasing (AR := Binary64.arith libm_exp libm_log) (lookup p) ->
  PrimFloat.eqb v v = true ->
  (forall i, FastLogicle.intScale (AR := Binary64.arith libm_exp libm_log) p v = Ok i ->
     (0 <= i < bins p)%Z /\
     PrimFloat.leb (table (AR := Binary64.arith libm_exp libm_log) p i) v = true /\
     PrimFloat.ltb v (table (AR := Binary64.arith libm_exp libm_log) p (i + 1)) = true) /\
  (forall i, (0 <= i < bins p)%Z ->
     matches (AR := Binary64.arith libm_exp libm_log) v
       (table (AR := Binary64.arith libm_exp libm_log) p i) ->
     FastLogicle.intScale (AR := Binary64.arith libm_exp libm_log) p v = Ok i) /\
  (matches (AR := Binary64.arith libm_exp libm_log) v
     (table (AR := Binary64.arith libm_exp libm_log) p (bins p)) ->
     FastLogicle.intScale (AR := Binary64.arith libm_exp libm_log) p v =
       Throw (IllegalArgument v)) /\
  (PrimFloat.ltb v (table (AR := Binary64.arith libm_exp libm_log) p 0) = true \/
   PrimFloat.ltb (table (AR := Binary64.arith libm_exp libm_log) p (bins p)) v = true ->
     FastLogicle.intScale (AR := Binary64.arith libm_exp libm_log) p v =
       Throw (IllegalArgument v)) /\
  (PrimFloat.leb (table (AR := Binary64.arith libm_exp libm_log) p 0) v = true ->
   PrimFloat.ltb v (table (AR := Binary64.arith libm_exp libm_log) p (bins p)) = true ->
     exists i, FastLogicle.intScale (AR := Binary64.arith libm_exp libm_log) p v = Ok i).
Proof.
  intros Hb Hlen Hinc Hv.
  refine (@intScale_cases float (Binary64.arith libm_exp libm_log)
            _ _ p Hb Hlen Hinc v _ _).
  - intros x y. cbn [flt Binary64.arith]. rewrite !ltb_spec. apply SFltb_asym.
  - intros x y z. cbn [flt Binary64.arith]. rewrite !ltb_spec. apply SFltb_trans.
  - intros x z. cbn [flt Binary64.arith]. rewrite !ltb_spec.
    apply SFltb_between. rewrite <- eqb_spec. exact Hv.
  - intros i Hi.
    (* an entry of an increasing table is below or above another one *)
    assert (Hi' : PrimFloat.eqb (table (AR := Binary64.arith libm_exp libm_log) p i)
                    (table (AR := Binary64.arith libm_exp libm_log) p i) = true).
    { destruct (Z.eq_dec i 0) as [->|Hne].
      - pose proof (Hinc 0%nat 1%nat
          (table (AR := Binary64.arith libm_exp libm_log) p 0)
          (table (AR := Binary64.arith libm_exp libm_log) p 1)) as H.
        cbn [flt Binary64.arith] in H. rewrite ltb_spec in H.
        rewrite eqb_spec. apply (SFltb_not_nan _ _ (H ltac:(lia)
          ltac:(unfold table; apply nth_error_nth'; lia)
          ltac:(unfold table; apply nth_error_nth'; lia))).
      - pose proof (Hinc 0%nat (Z.to_nat i)
          (table (AR := Binary64.arith libm_exp libm_log) p 0)
          (table (AR := Binary64.arith libm_exp libm_log) p i)) as H.
        cbn [flt Binary64.arith] in H. rewrite ltb_spec in H.
        rewrite eqb_spec. apply (SFltb_not_nan _ _ (H ltac:(lia)
          ltac:(unfold table; apply nth_error_nth'; lia)
          ltac:(unfold table; apply nth_error_nth'; lia))). }
    rewrite eqb_spec in Hi', Hv.
    split; cbn [fle flt Binary64.arith]; rewrite leb_spec, ltb_spec;
      apply SFleb_not_gt; assumption.
Qed.

(** The accelerated transform of the documentation with eight bins: its
    table is increasing, and the value 1000 falls in bin 3. *)
Lemma intScale_spec_witness :
  exists p : logicle_params float,
    FastLogicle.FastLogicle5 (AR := Binary64.reference) 262144 0.5 4.5 0 8 = Ok p /\
    FastLogicle.intScale (AR := Binary64.reference) p 1000 = Ok 3%Z /\
    ((forall i, FastLogicle.intScale (AR := Binary64.reference) p 1000 = Ok i ->
        (0 <= i < bins p)%Z /\
        PrimFloat.leb (table (AR := Binary64.reference) p i) 1000 = true /\
        PrimFloat.ltb 1000 (table (AR := Binary64.reference) p (i + 1)) = true) /\
     (forall i, (0 <= i < bins p)%Z ->
        matches (AR := Binary64.reference) 1000 (table (AR := Binary64.reference) p i) ->
        FastLogicle.intScale (AR := Binary64.reference) p 1000 = Ok i) /\
     (matches (AR := Binary64.reference) 1000
        (table (AR := Binary64.reference) p (bins p)) ->
        FastLogicle.intScale (AR := Binary64.reference) p 1000 =
          Throw (IllegalArgument 1000)) /\
     (PrimFloat.ltb 1000 (table (AR := Binary64.reference) p 0) = true \/
      PrimFloat.ltb (table (AR := Binary64.reference) p (bins p)) 1000 = true ->
        FastLogicle.intScale (AR := Binary64.reference) p 1000 =
          Throw (IllegalArgument 1000)) /\
     (PrimFloat.leb (table (AR := Binary64.reference) p 0) 1000 = true ->
      PrimFloat.ltb 1000 (table (AR := Binary64.reference) p (bins p)) = true ->
        exists i, FastLogicle.intScale (AR := Binary64.reference) p 1000 = Ok i)).
Proof.
  eexists. split; [vm_compute; reflexivity|]. split; [vm_compute; reflexivity|].
  apply (intScale_spec Binary64.ref_exp Binary64.ref_log).
  - vm_compute. split; reflexivity.
  - reflexivity.
  - intros i j x y Hij Hi Hj.
    do 9 (destruct i as [|i];
          [ do 9 (destruct j as [|j];
                  [ first [ exfalso; lia
                          | cbn in Hi, Hj; injection Hi as <-; injection Hj as <-;
                            vm_compute; reflexivity ] | ]);
            cbn in Hj; destruct j; discriminate Hj | ]).
    cbn in Hi. destruct i; discriminate Hi.
  - reflexivity.
Defined.

(** *** NaN in binary64 *)

Lemma sub_nan_r (x : float) : x - nan = nan.
Proof.
  rewrite <- (SF2Prim_Prim2SF (x - nan)), sub_spec.
  change (Prim2SF nan) with S754_nan.
  destruct (Prim2SF x) as [| | |]; reflexivity.
Qed.

Lemma div_nan_l (y : float) : nan / y = nan.
Proof.
  rewrite <- (SF2Prim_Prim2SF (nan / y)), div_spec.
  change (Prim2SF nan) with S754_nan.
  destruct (Prim2SF y) as [| | |]; reflexivity.
Qed.

Lemma mul_nan_l (y : float) : nan * y = nan.
Proof.
  rewrite <- (SF2Prim_Prim2SF (nan * y)), mul_spec.
  change (Prim2SF nan) with S754_nan.
  destruct (Prim2SF y) as [| | |]; reflexivity.
Qed.

Lemma mul_inf_pos (y : float) : PrimFloat.ltb 0 y = true -> infinity * y = infinity.
Proof.
  intros H. rewrite ltb_spec in H.
  rewrite <- (SF2Prim_Prim2SF (infinity * y)), mul_spec.
  change (Prim2SF infinity) with (S754_infinity false).
  change (Prim2SF 0) with (S754_zero false) in H.
  destruct (Prim2SF y) as [s|s| |s m e]; try destruct s; try discriminate H;
    reflexivity.
Qed.

(** The table below does not depend on the reference [exp] and [log]: every
    <cmath> whose [exp] maps NaN to NaN and whose [log (10)] is positive
    builds it. *)
Lemma lookup_nan_for_every_libm (libm_exp libm_log : float -> float) :
  libm_exp nan = nan -> PrimFloat.ltb 0 (libm_log 10) = true ->
  exists p : logicle_params float,
    FastLogicle.FastLogicle5 (AR := Binary64.arith libm_exp libm_log)
      262144 0.5 4.5 3.5 1 = Ok p /\
    A p = infinity /\ lookup p = [nan; nan].
Proof.
  intros HE HL.
  pose proof sub_nan_r as Hs. pose proof div_nan_l as Hd.
  pose proof mul_nan_l as Hn. pose proof (mul_inf_pos (libm_log 10) HL) as Hm.
  vm_compute in HE, Hs, Hd, Hm, Hn.
  eexists. split.
  - vm_compute. rewrite ?Hm. vm_compute. rewrite ?HE. vm_compute.
    rewrite ?Hs, ?Hd, ?Hn. vm_compute. reflexivity.
  - split; reflexivity.
Qed.

(** C2, as stated, fails in binary64.  For [T = 262144], [W = 0.6],
    [M = 4.5], [A = 0] and the position 0.9, the reflection [2 * x1 - 0.9]
    is rounded and reflecting it again does not give 0.9 back; the two
    values of [inverse] differ in their last digits. *)
Lemma inverse_not_symmetric :
  exists p : logicle_params float,
    Logicle.Logicle4 (AR := Binary64.reference) 262144 0x1.3333333333333p-1 4.5 0 = Ok p /\
    valid_parameters (AR := Binary64.reference) 262144 0x1.3333333333333p-1 4.5 0 /\
    exists v v' : float,
      Logicle.inverse (AR := Binary64.reference) p 0x1.ccccccccccccdp-1 = Ok v /\
      Logicle.inverse (AR := Binary64.reference) p (2 * x1 p - 0x1.ccccccccccccdp-1) = Ok v' /\
      PrimFloat.eqb v' (- v) = false /\
      PrimFloat.eqb (2 * x1 p - (2 * x1 p - 0x1.ccccccccccccdp-1)) 0x1.ccccccccccccdp-1 = false.
Proof.
  eexists. split; [vm_compute; reflexivity|]. split; [repeat split|].
  eexists. eexists. split; [vm_compute; reflexivity|].
  split; [vm_compute; reflexivity|]. split; vm_compute; reflexivity.
Qed.

(** C6, as stated, fails, in two ways.  The table constructed for
    [T = 2^-1074] is all zeros: [intScale (0)] returns the middle bin 2,
    though zero is not below [lookup[3]] and equals [lookup[bins]].  On the
    increasing table of the documentation [intScale (NaN)] returns the
    middle bin 4, though NaN lies in no bin. *)
Lemma intScale_without_bin :
  (exists p : logicle_params float,
     FastLogicle.FastLogicle5 (AR := Binary64.reference) 0x1p-1074 0.5 4.5 0 4 = Ok p /\
     valid_parameters (AR := Binary64.reference) 0x1p-1074 0.5 4.5 0 /\
     lookup p = [0; 0; 0; 0; 0] /\
     FastLogicle.intScale (AR := Binary64.reference) p 0 = Ok 2%Z /\
     PrimFloat.ltb 0 (table (AR := Binary64.reference) p 3) = false /\
     PrimFloat.eqb 0 (table (AR := Binary64.reference) p (bins p)) = true) /\
  (exists p : logicle_params float,
     FastLogicle.FastLogicle5 (AR := Binary64.reference) 262144 0.5 4.5 0 8 = Ok p /\
     FastLogicle.intScale (AR := Binary64.reference) p nan = Ok 4%Z /\
     PrimFloat.leb (table (AR := Binary64.reference) p 4) nan = false /\
     PrimFloat.ltb nan (table (AR := Binary64.reference) p 5) = false).
Proof.
  split.
  - eexists. split; [vm_compute; reflexivity|]. split; [repeat split|].
    repeat split.
  - eexists. split; [vm_compute; reflexivity|]. repeat split.
Qed.

(** For the parameters of the documentation the root finder returns in its
    fourth pass.  The caps are reached too: [T = 262144], [W = 10],
    [M = 20], [A = 0] satisfy every constraint, and the root finder gives up
    on them after its 19 passes; on the transform of the documentation
    [scale (2^1000)] gives up after its 10 passes. *)
Lemma iteration_caps_witness :
  (exists d0 : float,
     Logicle.solve_run (AR := Binary64.reference)
       (4.5 * Logicle.LN_10 (AR := Binary64.reference)) (0.5 / 4.5) =
       (Ok d0, 4%nat)) /\
  valid_parameters (AR := Binary64.reference) 262144 10 20 0 /\
  Logicle.initialize (AR := Binary64.reference) 262144 10 20 0 0 =
    Throw (DidNotConverge "exceeded maximum iterations in solve()") /\
  Logicle.solve_run (AR := Binary64.reference)
    (20 * Logicle.LN_10 (AR := Binary64.reference)) 0.5 =
    (Throw (DidNotConverge "exceeded maximum iterations in solve()"), 19%nat) /\
  exists p : logicle_params float,
    Logicle.Logicle4 (AR := Binary64.reference) 262144 0.5 4.5 0 = Ok p /\
    Logicle.scale_run (AR := Binary64.reference) p 0x1p+1000 =
      (Throw (DidNotConverge "scale() didn't converge"), 10%nat).
Proof.
  split; [eexists; vm_compute; reflexivity|].
  split; [repeat split|]. split; [vm_compute; reflexivity|]. split.
  - refine (proj1 (proj2 (proj1 (@iteration_caps float Binary64.reference)
                            (20 * Logicle.LN_10 (AR := Binary64.reference)) 0.5
                            eq_refl)) _ _).
    vm_compute. reflexivity.
  - eexists. split; [vm_compute; reflexivity|].
    refine (proj1 (proj2 (proj1 (proj2 (@iteration_caps float Binary64.reference))
                            _ 0x1p+1000 _ eq_refl _)) _ _).
    + vm_compute. reflexivity.
    + vm_compute. reflexivity.
Defined.

(** *** The examples of the documentation *)

(** On the accelerated transform with 4096 bins, [inverse (1.0)] and
    [inverse (-0.0001)] throw [IllegalArgument], and the adjusted [A] is
    no longer the argument 0. *)
Lemma fast_inverse_out_of_range :
  exists p : logicle_params float,
    FastLogicle.FastLogicle5 (AR := Binary64.reference) 262144 0.5 4.5 0 4096 = Ok p /\
    FastLogicle.inverse (AR := Binary64.reference) p 1 = Throw (IllegalArgument 1) /\
    FastLogicle.inverse (AR := Binary64.reference) p (-0x1.a36e2eb1c432dp-14) =
      Throw (IllegalArgument (-0x1.a36e2eb1c432dp-14)) /\
    FastLogicle.intScale (AR := Binary64.reference) p 1000 = Ok 1860%Z /\
    PrimFloat.eqb (A p) 0 = false.
Proof.
  eexists. split; [vm_compute; reflexivity|].
  repeat split; vm_compute; reflexivity.
Qed.

(** The ends of [[0, 1)] on the accelerated transform with eight bins and
    with 4096 bins: the position [-0] and the last double below 1 are
    accepted; the first double below zero, 1, NaN and infinity are
    refused. *)
Lemma fast_inverse_edges :
  forall bins0 : Z, bins0 = 8%Z \/ bins0 = 4096%Z ->
  exists p : logicle_params float,
    FastLogicle.FastLogicle5 (AR := Binary64.reference) 262144 0.5 4.5 0 bins0 = Ok p /\
    (exists v, FastLogicle.inverse (AR := Binary64.reference) p (-0) = Ok v) /\
    (exists v, FastLogicle.inverse (AR := Binary64.reference) p 0x1.fffffffffffffp-1
                 = Ok v) /\
    FastLogicle.inverse (AR := Binary64.reference) p (-0x1p-1074) =
      Throw (IllegalArgument (-0x1p-1074)) /\
    FastLogicle.inverse (AR := Binary64.reference) p 1 = Throw (IllegalArgument 1) /\
    FastLogicle.inverse (AR := Binary64.reference) p nan = Throw (IllegalArgument nan) /\
    FastLogicle.inverse (AR := Binary64.reference) p infinity =
      Throw (IllegalArgument infinity).
Proof.
  intros bins0 [-> | ->].
  - eexists. split; [vm_compute; reflexivity|].
    split; [eexists; vm_compute; reflexivity|].
    split; [eexists; vm_compute; reflexivity|].
    repeat split; vm_compute; reflexivity.
  - eexists. split; [vm_compute; reflexivity|].
    split; [eexists; vm_compute; reflexivity|].
    split; [eexists; vm_compute; reflexivity|].
    repeat split; vm_compute; reflexivity.
Qed.

(** For [T = 10000], [W = 1], [M = 4.5], [A = 0] the labels are zero and
    three decades: one zero entry, no negative label, three positive ones. *)
Lemma labels_documented_example :
  exists (p : logicle_params float) (labels : list float),
    Logicle.Logicle4 (AR := Binary64.reference) 10000 1 4.5 0 = Ok p /\
    Logicle.axisLabels (AR := Binary64.reference) p [] = Ok labels /\
    Logicle.label_counts (AR := Binary64.reference) p
      = Ok (0%Z, 3%Z, nth 1 labels 0) /\
    List.length labels = 4%nat /\
    count (fun y => PrimFloat.eqb y 0) labels = 1%nat /\
    count (fun y => PrimFloat.ltb y 0) labels = 0%nat /\
    count (fun y => PrimFloat.ltb 0 y) labels = 3%nat.
Proof.
  eexists. eexists. split; [vm_compute; reflexivity|].
  split; [vm_compute; reflexivity|].
  repeat split; vm_compute; reflexivity.
Qed.

End Runs.

(** * Further properties of the code *)

(** ** The accelerated transform: construction and table reads *)

Section Accelerator.
Context {D : Type} {AR : Arith D}.
Local Open Scope dbl_scope.

(** The loop that fills the table cannot fail once the engine has its
    sixteen coefficients. *)
Lemma lookup_loop_total (p : logicle_params D) (bins0 : Z) (n : nat) (i : Z) :
  List.length (taylor p) = 16%nat ->
  exists l, FastLogicle.lookup_loop p bins0 n i = Ok l.
Proof.
  intros H. revert i. induction n as [|n IH]; intros i; cbn [FastLogicle.lookup_loop].
  - eexists; reflexivity.
  - destruct (inverse_total_of_length p (#i / #bins0) H) as [v ->].
    destruct (IH (i + 1)%Z) as [l ->]. cbn [bind]. eexists; reflexivity.
Qed.

(** What the constructor of [FastLogicle] established when it returns. *)
Lemma fast_constructed (T0 W0 M0 A0 : D) (bins0 : Z) (p : logicle_params D) :
  FastLogicle.FastLogicle5 T0 W0 M0 A0 bins0 = Ok p ->
  exists q,
    Logicle.initialize T0 W0 M0 A0 bins0 = Ok q /\
    FastLogicle.initialize q bins0 = Ok p /\
    bins p = bins0 /\
    (0 <= iadd bins0 1)%Z /\
    List.length (lookup p) = Z.to_nat (bins0 + 1) /\
    List.length (taylor p) = 16%nat /\
    (forall s, Logicle.inverse p s = Logicle.inverse q s) /\
    forall i, (0 <= i <= bins0)%Z ->
      nth_error (lookup p) (Z.to_nat i) = Some (table p i) /\
      Logicle.inverse p (#i / #bins0) = Ok (table p i).
Proof.
  unfold FastLogicle.FastLogicle5, Logicle.Logicle5. intros H.
  destruct (Logicle.initialize T0 W0 M0 A0 bins0) as [q| |] eqn:E;
    cbn [bind] in H; try discriminate.
  exists q. split; [reflexivity|]. split; [exact H|].
  pose proof (fun s => fast_initialize_inverse q p bins0 s H) as Hinv.
  pose proof (initialize_Ok _ _ _ _ _ _ E) as Hq.
  apply fast_initialize_Ok in H.
  destruct H as (_ & _ & _ & _ & _ & _ & _ & _ & _ & _ & _ & Hty & Hbins & Hloop & Hn).
  apply lookup_loop_spec in Hloop. destruct Hloop as [Hlen Hnth].
  split; [exact Hbins|]. split; [exact Hn|]. split; [exact Hlen|].
  split; [rewrite Hty; tauto|]. split; [exact Hinv|].
  intros i Hi.
  assert (Hi' : nth_error (lookup p) (Z.to_nat i) = Some (table p i)).
  { unfold table. apply nth_error_nth'. lia. }
  split; [exact Hi'|]. rewrite Hinv.
  replace i with (0 + Z.of_nat (Z.to_nat i))%Z at 1 by lia.
  apply Hnth. exact Hi'.
Qed.

(** X30.  A constructed [FastLogicle] keeps the [bins] it was given, with
    [bins >= -1], and has a table of [bins + 1] entries; entry [i] is the
    value of the engine's [inverse] at [i / bins], for every [i] from 0 to
    [bins], the last entry included. *)
Theorem lookup_table_spec (T0 W0 M0 A0 : D) (bins0 : Z) (p : logicle_params D) :
  FastLogicle.FastLogicle5 T0 W0 M0 A0 bins0 = Ok p ->
  in_int bins0 ->
  bins p = bins0 /\ (-1 <= bins0)%Z /\
  Z.of_nat (List.length (lookup p)) = (bins0 + 1)%Z /\
  (forall i, (0 <= i <= bins0)%Z ->
     Logicle.inverse p (#i / #bins0) = Ok (table p i)).
Proof.
  intros H Hb. apply fast_constructed in H.
  destruct H as (q & _ & _ & Hbins & Hn & Hlen & _ & _ & Hnth).
  assert (Hge : (-1 <= bins0)%Z).
  { unfold in_int, INT_MIN, INT_MAX in Hb.
    destruct (Z_lt_dec bins0 (-1)) as [Hlt|]; [exfalso|lia].
    revert Hn. unfold iadd. rewrite wrap_id by (unfold in_int, INT_MIN, INT_MAX; lia).
    lia. }
  split; [exact Hbins|]. split; [exact Hge|]. split; [lia|].
  intros i Hi. exact (proj2 (Hnth i Hi)).
Qed.
(** X3.  On a constructed [FastLogicle], [inverse (int index)] throws
    [IllegalArgument (index)] exactly when [index] is negative or not below
    [bins]; the last entry of the table, [lookup[bins]], is never returned.
    For the other indices it returns [lookup[index]], which is the value of
    the engine's [inverse] at [index / bins]. *)
Theorem inverse_int_spec (T0 W0 M0 A0 : D) (bins0 : Z) (p : logicle_params D)
    (index : Z) :
  FastLogicle.FastLogicle5 T0 W0 M0 A0 bins0 = Ok p ->
  (FastLogicle.inverse_int p index = Throw (IllegalArgumentInt index) <->
   (index < 0 \/ bins0 <= index)%Z) /\
  ((0 <= index < bins0)%Z ->
   FastLogicle.inverse_int p index = Logicle.inverse p (#index / #bins0) /\
   FastLogicle.inverse_int p index = Ok (table p index)).
Proof.
  intros H. apply fast_constructed in H.
  destruct H as (q & _ & _ & Hb & _ & _ & _ & _ & Hnth).
  unfold FastLogicle.inverse_int. rewrite Hb.
  destruct (Z.ltb_spec index 0) as [H1|H1]; cbn [orb].
  - split; [split; [lia | reflexivity] | lia].
  - rewrite Z.geb_leb. destruct (Z.leb_spec bins0 index) as [H2|H2].
    + split; [split; [lia | reflexivity] | lia].
    + destruct (Hnth index ltac:(lia)) as [Hn Hi].
      assert (Hl : load (D := D) (lookup p) index = Ok (table p index)).
      { apply load_Ok. split; [lia | exact Hn]. }
      rewrite Hl. split; [split; [discriminate | lia]|].
      intros _. rewrite Hi. split; reflexivity.
Qed.

(** X4.  The constructor accepts [bins = 0] and [bins = -1] (the engine
    reads [bins <= 0] as no binning), but the transform it returns has no
    bin: [intScale], [scale] and both [inverse]s throw [IllegalArgument] for
    every argument. *)
Theorem no_bins_no_lookup (T0 W0 M0 A0 : D) (bins0 : Z) (p : logicle_params D) :
  FastLogicle.FastLogicle5 T0 W0 M0 A0 bins0 = Ok p ->
  (-1 <= bins0 <= 0)%Z ->
  (forall value, FastLogicle.intScale p value = Throw (IllegalArgument value)) /\
  (forall value, FastLogicle.scale p value = Throw (IllegalArgument value)) /\
  (forall position, FastLogicle.inverse p position = Throw (IllegalArgument position)) /\
  (forall index, FastLogicle.inverse_int p index = Throw (IllegalArgumentInt index)).
Proof.
  intros H Hb. apply fast_constructed in H.
  destruct H as (q & _ & _ & Hbins & _ & Hlen & _ & _ & Hnth).
  assert (Hi : forall value, FastLogicle.intScale p value = Throw (IllegalArgument value)).
  { intros value. unfold FastLogicle.intScale. rewrite Hbins.
    assert (Hc : bins0 = (-1)%Z \/ bins0 = 0%Z) by lia.
    destruct Hc as [-> | ->].
    - cbn. reflexivity.
    - destruct (Hnth 0%Z ltac:(lia)) as [Hn _].
      assert (Hl : load (D := D) (lookup p) 0 = Ok (table p 0)).
      { apply load_Ok. split; [lia | exact Hn]. }
      change (Z.to_nat (0 + 2)) with 2%nat.
      cbn [FastLogicle.search]. change (0 <=? 0)%Z with true. cbv iota.
      change (Z.shiftr (iadd 0 0) 1) with 0%Z. rewrite Hl, Hbins.
      destruct (value <? table p 0); [reflexivity|].
      destruct (table p 0 <? value); [|reflexivity].
      change (iadd 0 1) with 1%Z. cbn [FastLogicle.search].
      change (1 <=? 0)%Z with false. cbv iota. reflexivity. }
  split; [exact Hi|]. split.
  - intros value. unfold FastLogicle.scale. rewrite Hi. reflexivity.
  - split.
    + intros position. unfold FastLogicle.inverse. rewrite Hbins.
      destruct (Z.ltb_spec (to_int (ffloor (position * #bins0))) 0); cbn [orb];
        [reflexivity|].
      rewrite Z.geb_leb.
      destruct (Z.leb_spec bins0 (to_int (ffloor (position * #bins0)))); [reflexivity | lia].
    + intros index. unfold FastLogicle.inverse_int. rewrite Hbins.
      destruct (Z.ltb_spec index 0); cbn [orb]; [reflexivity|].
      rewrite Z.geb_leb. destruct (Z.leb_spec bins0 index); [reflexivity | lia].
Qed.

(** [initialize] returns, or throws [IllegalParameter] with one of its five
    messages, or throws the [DidNotConverge] of [solve]. *)
Lemma initialize_outcome (T0 W0 M0 A0 : D) (bins0 : Z) :
  Logicle.initialize T0 W0 M0 A0 bins0 <> Undefined /\
  forall e, Logicle.initialize T0 W0 M0 A0 bins0 = Throw e ->
    e = DidNotConverge "exceeded maximum iterations in solve()" \/
    exists msg, e = IllegalParameter msg /\ In msg parameter_messages.
Proof.
  unfold Logicle.initialize, parameter_messages.
  destruct (T0 <=? #0).
  { split; [discriminate|]. intros e [= <-]. right. eexists. split; [reflexivity|]. cbn. tauto. }
  destruct (W0 <? #0).
  { split; [discriminate|]. intros e [= <-]. right. eexists. split; [reflexivity|]. cbn. tauto. }
  destruct (M0 <=? #0).
  { split; [discriminate|]. intros e [= <-]. right. eexists. split; [reflexivity|]. cbn. tauto. }
  destruct (#2 * W0 >? M0).
  { split; [discriminate|]. intros e [= <-]. right. eexists. split; [reflexivity|]. cbn. tauto. }
  destruct ((- A0 >? W0) || (A0 + W0 >? M0 - W0)).
  { split; [discriminate|]. intros e [= <-]. right. eexists. split; [reflexivity|]. cbn. tauto. }
  match goal with |- context [Logicle.solve ?x ?y] =>
    pose proof (solve_run_cases x y) as Hs; unfold Logicle.solve;
    destruct Hs as [[d0 ->] | [-> _]] end; cbn [bind].
  - match goal with |- context [store ?l ?i ?v] =>
      destruct (store l i v) as [t1| e1 |] eqn:Et end; cbn [bind].
    + split; discriminate.
    + exfalso. exact (store_not_Throw _ _ _ _ Et).
    + exfalso. revert Et. cbn. discriminate.
  - split; [discriminate|]. intros e [= <-]. left. reflexivity.
Qed.


Lemma memcpy_all {X} (l : list X) (n : Z) :
  Z.of_nat (List.length l) = n -> memcpy (D := D) l n = Ok l.
Proof.
  intros <-. unfold memcpy. rewrite Z.ltb_irrefl, Nat2Z.id, firstn_all. reflexivity.
Qed.

(** X6.  Copying a constructed transform reads its two arrays inside their
    bounds and yields a parameter block equal to the original, for the
    engine as for the accelerated transform. *)
Theorem copy_constructed (T0 W0 M0 A0 : D) (bins0 : Z) (p : logicle_params D) :
  (Logicle.Logicle5 T0 W0 M0 A0 bins0 = Ok p -> Logicle.Logicle_copy p = Ok p) /\
  (FastLogicle.FastLogicle5 T0 W0 M0 A0 bins0 = Ok p -> in_int bins0 ->
   Logicle.Logicle_copy p = Ok p /\ FastLogicle.FastLogicle_copy p = Ok p).
Proof.
  assert (Hc : List.length (taylor p) = 16%nat -> Logicle.Logicle_copy p = Ok p).
  { intros Hlen. unfold Logicle.Logicle_copy.
    rewrite memcpy_all by (rewrite Hlen; reflexivity). cbn [bind].
    destruct p. reflexivity. }
  split.
  - intros H. apply initialize_Ok in H. apply Hc. tauto.
  - intros H Hb. apply fast_constructed in H.
    destruct H as (q & _ & _ & Hbins & Hn & Hlen & Hty & _).
    split; [exact (Hc Hty)|].
    unfold FastLogicle.FastLogicle_copy. rewrite (Hc Hty). cbn [bind]. rewrite Hbins.
    assert (Hw : iadd bins0 1 = (bins0 + 1)%Z).
    { unfold in_int, INT_MIN, INT_MAX in Hb.
      destruct (Z.eq_dec bins0 (2 ^ 31 - 1)) as [->|Hne];
        [exfalso; revert Hn; vm_compute; intros C; apply C; reflexivity|].
      apply wrap_id. unfold in_int, INT_MIN, INT_MAX. lia. }
    rewrite Hw in *. destruct (Z.ltb_spec (bins0 + 1) 0); [lia|].
    rewrite memcpy_all by lia. cbn [bind].
    destruct p. cbn in *. subst. reflexivity.
Qed.

(** A value that compares neither below nor above the middle entry of the
    table is given the middle bin, in the first pass of the search. *)
Lemma intScale_middle (p : logicle_params D) (v : D) :
  (0 < bins p < 2 ^ 30)%Z ->
  Z.of_nat (List.length (lookup p)) = (bins p + 1)%Z ->
  matches v (table p (bins p / 2)) ->
  FastLogicle.intScale p v = Ok (bins p / 2)%Z.
Proof.
  intros Hb Hlen [M1 M2]. unfold FastLogicle.intScale.
  replace (Z.to_nat (bins p + 2)) with (S (Z.to_nat (bins p + 1))) by lia.
  cbn [FastLogicle.search].
  destruct (Z.leb_spec 0 (bins p)); [|lia].
  destruct (shiftr_mid 0 (bins p)) as [-> Hmid]; [lia | lia |].
  rewrite Z.add_0_l. clear Hmid.
  assert (Hh : (0 <= bins p / 2 < bins p)%Z) by (Z.div_mod_to_equations; lia).
  assert (Hl : load (D := D) (lookup p) (bins p / 2) = Ok (table p (bins p / 2))).
  { apply load_Ok. split; [lia|]. unfold table. apply nth_error_nth'. lia. }
  rewrite Hl, M1, M2.
  destruct (Z.ltb_spec (bins p / 2) (bins p)) as [|C]; [reflexivity | lia].
Qed.

(** With [2^30] bins the sum [lo + hi] of the search leaves the range of
    [int]: for a value above every entry the search ends with
    [lo = hi = 2^30], the sum wraps to [-2^31], and [lookup[-2^30]] is
    read. *)
Lemma intScale_overflow (p : logicle_params D) (v : D) :
  bins p = (2 ^ 30)%Z ->
  Z.of_nat (List.length (lookup p)) = (bins p + 1)%Z ->
  (forall i, (0 <= i <= bins p)%Z ->
     (v <? table p i) = false /\ (v >? table p i) = true) ->
  FastLogicle.intScale p v = Undefined.
Proof.
  intros Hb Hlen Hv.
  assert (G : forall fuel lo, (0 <= lo <= bins p)%Z ->
            (bins p - lo + 1 <= Z.of_nat fuel)%Z ->
            FastLogicle.search p v fuel lo (bins p) = Some Undefined).
  { induction fuel as [|fuel IH]; intros lo Hlo Hf; [lia|].
    cbn [FastLogicle.search].
    destruct (Z.leb_spec lo (bins p)) as [_|C]; [|lia].
    destruct (Z.eq_dec lo (bins p)) as [->|Hne].
    - assert (E : Z.shiftr (iadd (bins p) (bins p)) 1 = (- 2 ^ 30)%Z).
      { rewrite Hb. reflexivity. }
      rewrite E. reflexivity.
    - assert (E : Z.shiftr (iadd lo (bins p)) 1 = ((lo + bins p) / 2)%Z).
      { unfold iadd. rewrite wrap_id by (unfold in_int, INT_MIN, INT_MAX; lia).
        rewrite Z.shiftr_div_pow2 by lia. reflexivity. }
      rewrite E. set (mid := ((lo + bins p) / 2)%Z) in *.
      assert (Hm : (lo <= mid < bins p)%Z).
      { unfold mid. split; [apply Z.div_le_lower_bound | apply Z.div_lt_upper_bound];
          lia. }
      assert (L : load (D := D) (lookup p) mid = Ok (table p mid)).
      { apply load_Ok. split; [lia|]. unfold table. apply nth_error_nth'. lia. }
      rewrite L. destruct (Hv mid ltac:(lia)) as [-> ->].
      assert (Hw : iadd mid 1 = (mid + 1)%Z).
      { apply wrap_id. unfold in_int, INT_MIN, INT_MAX. lia. }
      rewrite Hw. apply IH; lia. }
  unfold FastLogicle.intScale. rewrite (G _ 0%Z); [reflexivity | lia | lia].
Qed.
End Accelerator.

(** ** The engine: negative arguments of [scale] *)

Section ScaleReflection.
Context {D : Type} {AR : Arith D}.
Local Open Scope dbl_scope.

(** The loop of [scale] for a negative argument runs as for its absolute
    value; only the value returned is reflected about [x1]. *)
Lemma scale_loop_reflection (p : logicle_params D) (value tol : D) (n : nat)
    (i : Z) (x : D) :
  for_loop (Logicle.scale_body p value tol true) n i x =
  (match fst (for_loop (Logicle.scale_body p value tol false) n i x) with
   | Leave r => Leave (y <- r ;; Ok (#2 * x1 p - y))
   | Next s => Next s
   end,
   snd (for_loop (Logicle.scale_body p value tol false) n i x)).
Proof.
  revert i x. induction n as [|n IH]; intros i x; cbn [for_loop]; [reflexivity|].
  assert (Hb : Logicle.scale_body p value tol true i x =
               match Logicle.scale_body p value tol false i x with
               | Leave r => Leave (y <- r ;; Ok (#2 * x1 p - y))
               | Next s => Next s
               end).
  { unfold Logicle.scale_body.
    destruct (if x <? xTaylor p then _ else _) as [y| |]; cbn [bind]; try reflexivity.
    destruct (fabs _ <? tol); reflexivity. }
  rewrite Hb.
  destruct (Logicle.scale_body p value tol false i x) as [s|r]; [|reflexivity].
  rewrite IH.
  destruct (for_loop (Logicle.scale_body p value tol false) n (i + 1) s) as [r k].
  reflexivity.
Qed.

(** X7.  [scale] is odd about [x1]: for a value [v] that the code sees as
    positive, [scale (-v)] makes the same passes as [scale (v)], throws
    when it throws, and returns [2 * x1 - scale (v)] when it returns.  The
    hypotheses are the comparisons of [scale] on [v] and [-v]; every
    positive double satisfies them. *)
Theorem scale_reflection (p : logicle_params D) (v : D) :
  (v =? #0) = false -> (- v =? #0) = false ->
  (v <? #0) = false -> (- v <? #0) = true -> - - v = v ->
  Logicle.scale p (- v) = (x <- Logicle.scale p v ;; Ok (#2 * x1 p - x)) /\
  snd (Logicle.scale_run p (- v)) = snd (Logicle.scale_run p v).
Proof.
  intros H1 H2 H3 H4 H5. unfold Logicle.scale, Logicle.scale_run.
  rewrite H1, H2, H3, H4, H5.
  destruct (if v <? f p then _ else _) as [x| |]; cbn [bind fst snd];
    [|split; reflexivity..].
  rewrite scale_loop_reflection.
  destruct (for_loop _ _ 0 x) as [[s|r] k]; cbn [fst snd bind]; split; reflexivity.
Qed.

End ScaleReflection.

(** ** Axis labels: the vector *)

Section LabelsVector.
Context {D : Type} {AR : Arith D}.
Local Open Scope dbl_scope.

(** Writing into two vectors of the same length succeeds or fails alike. *)
Lemma store_alike (L L' R0 : list D) (i : Z) (v : D) :
  List.length L' = List.length L -> store (D := D) L i v = Ok R0 ->
  exists R', store (D := D) L' i v = Ok R' /\ List.length R' = List.length R0.
Proof.
  intros Hlen H. apply store_Ok in H. destruct H as [Hi H].
  pose proof (update_nth_in_range _ _ _ _ H) as Hr.
  pose proof (update_nth_length _ _ _ _ H) as Hl.
  destruct (update_nth_Some L' (Z.to_nat i) v ltac:(lia)) as [R' HR'].
  exists R'. split; [apply store_Ok; auto|].
  rewrite (update_nth_length _ _ _ _ HR'). congruence.
Qed.

Lemma labels_rest_alike (nn : Z) (n : nat) :
  forall (i : Z) (x : D) (L L' R0 : list D),
  List.length L' = List.length L ->
  Logicle.labels_rest nn n i x L = Ok R0 ->
  exists R', Logicle.labels_rest nn n i x L' = Ok R'.
Proof.
  induction n as [|n IH]; intros i x L L' R0 Hlen; cbn [Logicle.labels_rest].
  - eexists; reflexivity.
  - destruct (store L (iadd nn i) x) as [L1| |] eqn:E1; cbn [bind]; try discriminate.
    destruct (store_alike L L' L1 _ _ Hlen E1) as (L1' & -> & Hl1). cbn [bind].
    apply IH. exact Hl1.
Qed.

Lemma labels_mirror_alike (nn : Z) (n : nat) :
  forall (i : Z) (x : D) (L L' R0 : list D) (x' : D),
  List.length L' = List.length L ->
  Logicle.labels_mirror nn n i x L = Ok (R0, x') ->
  exists R', Logicle.labels_mirror nn n i x L' = Ok (R', x') /\
             List.length R' = List.length R0.
Proof.
  induction n as [|n IH]; intros i x L L' R0 x' Hlen; cbn [Logicle.labels_mirror].
  - intros [= <- <-]. eexists; split; [reflexivity | exact Hlen].
  - destruct (store L (isub nn i) (- x)) as [L1| |] eqn:E1; cbn [bind]; try discriminate.
    destruct (store_alike L L' L1 _ _ Hlen E1) as (L1' & -> & Hl1). cbn [bind].
    destruct (store L1 (iadd nn i) x) as [L2| |] eqn:E2; cbn [bind]; try discriminate.
    destruct (store_alike L1 L1' L2 _ _ Hl1 E2) as (L2' & -> & Hl2). cbn [bind].
    apply IH. exact Hl2.
Qed.

Lemma resize_length (l : list D) (n : nat) : List.length (Logicle.resize l n) = n.
Proof.
  unfold Logicle.resize. rewrite length_app, length_firstn, repeat_length. lia.
Qed.

(** The labels do not depend on the vector, whatever [inverse] the object
    has. *)
Lemma axisLabels_of_overwrites (inv : logicle_params D -> D -> outcome D D)
    (p : logicle_params D) (l0 l1 labels : list D) :
  Logicle.axisLabels_of inv p l0 = Ok labels ->
  Logicle.axisLabels_of inv p l1 = Ok labels.
Proof.
  intros H0.
  assert (H1 : exists labels', Logicle.axisLabels_of inv p l1 = Ok labels').
  { revert H0. unfold Logicle.axisLabels_of.
    destruct (Logicle.label_counts_of inv p) as [[[nn np] x]| |]; cbn [bind];
      try discriminate.
    destruct (iadd (iadd nn np) 1 <? 0)%Z; [discriminate|].
    set (n := Z.to_nat (iadd (iadd nn np) 1)).
    destruct (store (Logicle.resize l0 n) nn #0) as [L1| |] eqn:E1; cbn [bind];
      try discriminate.
    destruct (store_alike (Logicle.resize l0 n) (Logicle.resize l1 n) L1 nn #0)
      as (L1' & -> & Hl1);
      [rewrite !resize_length; reflexivity | exact E1 |]. cbn [bind].
    destruct (Logicle.labels_mirror nn (Z.to_nat nn) 1 x L1) as [[L2 x2]| |] eqn:E2;
      cbn [bind]; try discriminate.
    destruct (labels_mirror_alike nn _ _ _ L1 L1' L2 x2 Hl1 E2) as (L2' & -> & Hl2).
    cbn [bind]. intros E3. eapply labels_rest_alike; eauto. }
  destruct H1 as [labels' H1]. rewrite H1. f_equal.
  apply axisLabels_of_inv in H0. apply axisLabels_of_inv in H1.
  destruct H0 as (nn & np & x & Hc & Hle & Hlen & Hnth).
  destruct H1 as (nn' & np' & x' & Hc' & Hle' & Hlen' & Hnth').
  rewrite Hc in Hc'. injection Hc' as <- <- <-.
  apply nth_error_ext. intros k.
  destruct (Nat.lt_ge_cases k (List.length labels)) as [Hk|Hk].
  - specialize (Hnth (Z.of_nat k) ltac:(lia)). specialize (Hnth' (Z.of_nat k) ltac:(lia)).
    rewrite Nat2Z.id in Hnth, Hnth'. congruence.
  - rewrite (proj2 (nth_error_None labels k)) by lia.
    rewrite (proj2 (nth_error_None labels' k)) by lia. reflexivity.
Qed.

(** X8.  [axisLabels] overwrites the vector it is given: the labels it
    returns do not depend on the length or the content the vector had, every
    entry kept by [resize] being written again. *)
Theorem axisLabels_overwrites (p : logicle_params D) (l0 l1 labels : list D) :
  Logicle.axisLabels p l0 = Ok labels -> Logicle.axisLabels p l1 = Ok labels.
Proof.
  exact (axisLabels_of_overwrites Logicle.inverse p l0 l1 labels).
Qed.

Lemma labels_rest_not_Throw (nn : Z) (n : nat) (i : Z) (x : D) (L : list D)
    (e : exception D) :
  Logicle.labels_rest nn n i x L <> Throw e.
Proof.
  revert i x L. induction n as [|n IH]; intros i x L; cbn [Logicle.labels_rest];
    [discriminate|].
  destruct (store L (iadd nn i) x) as [L1| |] eqn:E1; cbn [bind];
    [apply IH | exfalso; exact (store_not_Throw _ _ _ _ E1) | discriminate].
Qed.

Lemma labels_mirror_not_Throw (nn : Z) (n : nat) (i : Z) (x : D) (L : list D)
    (e : exception D) :
  Logicle.labels_mirror nn n i x L <> Throw e.
Proof.
  revert i x L. induction n as [|n IH]; intros i x L; cbn [Logicle.labels_mirror];
    [discriminate|].
  destruct (store L (isub nn i) (- x)) as [L1| |] eqn:E1; cbn [bind];
    [| exfalso; exact (store_not_Throw _ _ _ _ E1) | discriminate].
  destruct (store L1 (iadd nn i) x) as [L2| |] eqn:E2; cbn [bind];
    [apply IH | exfalso; exact (store_not_Throw _ _ _ _ E2) | discriminate].
Qed.

(** X9.  When [axisLabels] counts more negative labels than positive ones
    ([nn > np]) it does not return, on a [Logicle] or on a [FastLogicle]
    ([inv] is the [inverse] of the class of the object).  If the length
    [nn + np + 1] is not negative it leaves the defined behaviour: the
    vector has [nn + np + 1] entries and the function writes [label[nn]] or,
    in the first loop, [label[nn + i]] for [i] up to [nn], past its end.  If
    the length is negative, [resize] throws [std::length_error].  The counts
    are computed apart, [np] from [T] and [nn] from [inverse (0)], and
    nothing in the function compares them. *)
Theorem axisLabels_out_of_bounds (inv : logicle_params D -> D -> outcome D D)
    (p : logicle_params D) (nn np : Z) (x : D) (l0 : list D) :
  Logicle.label_counts_of inv p = Ok (nn, np, x) -> (np < nn)%Z ->
  ((0 <= iadd (iadd nn np) 1)%Z -> Logicle.axisLabels_of inv p l0 = Undefined) /\
  ((iadd (iadd nn np) 1 < 0)%Z -> Logicle.axisLabels_of inv p l0 = Throw LengthError).
Proof.
  intros Hc Hlt. split; intros Hs.
  - destruct (Logicle.axisLabels_of inv p l0) as [labels|e|] eqn:E;
      [exfalso..|reflexivity].
    + apply axisLabels_of_inv in E. destruct E as (nn' & np' & x' & Hc' & Hle & _).
      rewrite Hc in Hc'. injection Hc' as <- <- <-. lia.
    + revert E. unfold Logicle.axisLabels_of. rewrite Hc. cbn [bind].
      destruct (Z.ltb_spec (iadd (iadd nn np) 1) 0); [lia|].
      match goal with |- context [store ?l ?i ?v] =>
        destruct (store l i v) as [L1| |] eqn:E1 end; cbn [bind];
        [| exfalso; exact (store_not_Throw _ _ _ _ E1) | discriminate].
      destruct (Logicle.labels_mirror nn (Z.to_nat nn) 1 x L1) as [[L2 x2]| |] eqn:E2;
        cbn [bind];
        [| exfalso; exact (labels_mirror_not_Throw _ _ _ _ _ _ E2) | discriminate].
      apply labels_rest_not_Throw.
  - unfold Logicle.axisLabels_of. rewrite Hc. cbn [bind].
    destruct (Z.ltb_spec (iadd (iadd nn np) 1) 0); [reflexivity | lia].
Qed.

End LabelsVector.

(** ** Reads inside the arrays *)

Section InBounds.
Context {D : Type} {AR : Arith D}.
Local Open Scope dbl_scope.

Variable p : logicle_params D.
Hypothesis bins_range : (0 <= bins p < 2 ^ 30)%Z.
Hypothesis lookup_length : Z.of_nat (List.length (lookup p)) = (bins p + 1)%Z.

Lemma load_lookup (i : Z) :
  (0 <= i <= bins p)%Z -> exists key, load (D := D) (lookup p) i = Ok key.
Proof.
  intros H. apply load_in_range. lia.
Qed.

(** The search stays inside the table whatever the comparisons answer. *)
Lemma search_in_bounds (v : D) (fuel : nat) :
  forall lo hi : Z,
  (0 <= lo)%Z -> (hi <= bins p)%Z -> (lo <= hi + 1)%Z ->
  (hi - lo + 1 <= Z.of_nat fuel)%Z ->
  exists r, FastLogicle.search p v fuel lo hi = Some r /\
            match r with
            | Ok i => (0 <= i < bins p)%Z
            | Throw e => e = IllegalArgument v
            | Undefined => False
            end.
Proof.
  assert (Hexit : forall lo hi, (0 <= lo)%Z -> (hi <= bins p)%Z -> (lo = hi + 1)%Z ->
    exists r,
      (if ((hi <? 0) || (lo >? bins p))%Z
       then Some (Throw (IllegalArgument v))
       else Some (Ok (isub lo 1))) = Some r /\
      match r with
      | Ok i => (0 <= i < bins p)%Z
      | Throw e => e = IllegalArgument v
      | Undefined => False
      end).
  { intros lo hi Hlo Hhi E.
    destruct (Z.ltb_spec hi 0); cbn [orb]; [eexists; split; reflexivity|].
    destruct (Z.gtb_spec lo (bins p)); [eexists; split; reflexivity|].
    eexists; split; [reflexivity|].
    unfold isub. rewrite wrap_id by (unfold in_int, INT_MIN, INT_MAX; lia). lia. }
  induction fuel as [|fuel IH]; intros lo hi Hlo Hhi Hle Hfuel.
  - assert (E : (lo <=? hi)%Z = false) by (apply Z.leb_gt; lia).
    cbn [FastLogicle.search]. rewrite E. apply Hexit; lia.
  - cbn [FastLogicle.search].
    destruct (Z.leb_spec lo hi) as [Hlh|Hlh]; [|apply Hexit; lia].
    destruct (shiftr_mid lo hi) as [-> Hmid]; [lia | lia |].
    set (mid := ((lo + hi) / 2)%Z) in *.
    destruct (load_lookup mid ltac:(lia)) as [key ->].
    destruct (v <? key).
    { unfold isub. rewrite wrap_id by (unfold in_int, INT_MIN, INT_MAX; lia).
      apply IH; lia. }
    destruct (v >? key).
    { unfold iadd. rewrite wrap_id by (unfold in_int, INT_MIN, INT_MAX; lia).
      apply IH; lia. }
    destruct (Z.ltb_spec mid (bins p)).
    + eexists; split; [reflexivity|]. cbn. lia.
    + eexists; split; reflexivity.
Qed.

(** X10.  On a table of [bins + 1] entries the four table functions stay
    within defined behaviour in every arithmetic, whatever the table holds
    and whatever the comparisons answer (NaN included): the search of
    [intScale] only reads entries [0 .. bins], an index it returns is a bin
    in [[0, bins)], [scale] and [inverse] read a bin and its successor, and
    the only exception is [IllegalArgument] of the argument. *)
Theorem table_reads_in_bounds :
  (forall v, match FastLogicle.intScale p v with
             | Ok i => (0 <= i < bins p)%Z
             | Throw e => e = IllegalArgument v
             | Undefined => False
             end) /\
  (forall v, match FastLogicle.scale p v with
             | Ok _ => exists i, FastLogicle.intScale p v = Ok i
             | Throw e => e = IllegalArgument v
             | Undefined => False
             end) /\
  (forall s, match FastLogicle.inverse p s with
             | Ok _ => True
             | Throw e => e = IllegalArgument s
             | Undefined => False
             end) /\
  (forall i, match FastLogicle.inverse_int p i with
             | Ok _ => (0 <= i < bins p)%Z
             | Throw e => e = IllegalArgumentInt i
             | Undefined => False
             end).
Proof.
  assert (Hi : forall v, match FastLogicle.intScale p v with
             | Ok i => (0 <= i < bins p)%Z
             | Throw e => e = IllegalArgument v
             | Undefined => False
             end).
  { intros v. unfold FastLogicle.intScale.
    destruct (search_in_bounds v (Z.to_nat (bins p + 2)) 0%Z (bins p))
      as (r & -> & Hr); try lia. exact Hr. }
  assert (Hpair : forall i, (0 <= i < bins p)%Z ->
            exists l0 l1, load (D := D) (lookup p) i = Ok l0 /\
                          load (D := D) (lookup p) (iadd i 1) = Ok l1).
  { intros i Hr.
    assert (Hw : iadd i 1 = (i + 1)%Z).
    { apply wrap_id. unfold in_int, INT_MIN, INT_MAX. lia. }
    rewrite Hw.
    destruct (load_lookup i ltac:(lia)) as [l0 E0].
    destruct (load_lookup (i + 1) ltac:(lia)) as [l1 E1]. eauto. }
  split; [exact Hi|]. split; [|split].
  - intros v. specialize (Hi v). unfold FastLogicle.scale.
    destruct (FastLogicle.intScale p v) as [i|e|]; cbn [bind]; [|exact Hi|exact Hi].
    destruct (Hpair i Hi) as (l0 & l1 & -> & ->). cbn [bind]. eauto.
  - intros s. unfold FastLogicle.inverse.
    set (index := to_int (ffloor (s * #(bins p)))).
    destruct (Z.ltb_spec index 0) as [H1|H1]; cbn [orb]; [reflexivity|].
    rewrite Z.geb_leb.
    destruct (Z.leb_spec (bins p) index) as [H2|H2]; [reflexivity|].
    destruct (Hpair index (conj H1 H2)) as (l0 & l1 & -> & ->).
    cbn [bind]. exact I.
  - intros i. unfold FastLogicle.inverse_int.
    destruct (Z.ltb_spec i 0); cbn [orb]; [reflexivity|].
    rewrite Z.geb_leb. destruct (Z.leb_spec (bins p) i); [reflexivity|].
    destruct (load_lookup i ltac:(lia)) as [l0 ->]. lia.
Qed.

End InBounds.

Section ScaleDefined.
Context {D : Type} {AR : Arith D}.
Local Open Scope dbl_scope.

Lemma scale_body_defined (p : logicle_params D) (value tol : D) (neg : bool)
    (i : Z) (x : D) :
  List.length (taylor p) = 16%nat ->
  Logicle.scale_body p value tol neg i x <> Leave Undefined.
Proof.
  intros Hlen. unfold Logicle.scale_body.
  destruct (x <? xTaylor p).
  - destruct (seriesBiexponential_total p x Hlen) as [v ->]. cbn [bind].
    destruct (fabs _ <? tol); [destruct neg|]; discriminate.
  - destruct (fabs _ <? tol); [destruct neg|]; discriminate.
Qed.

Lemma scale_loop_defined (p : logicle_params D) (value tol : D) (neg : bool)
    (n : nat) (i : Z) (x : D) :
  List.length (taylor p) = 16%nat ->
  fst (for_loop (Logicle.scale_body p value tol neg) n i x) <> Leave Undefined.
Proof.
  intros Hlen. revert i x. induction n as [|n IH]; intros i x; cbn [for_loop].
  - discriminate.
  - destruct (Logicle.scale_body p value tol neg i x) as [x'|r] eqn:E.
    + specialize (IH (i + 1)%Z x').
      destruct (for_loop _ n (i + 1) x') as [r1 k]. exact IH.
    + cbn [fst]. rewrite <- E. apply scale_body_defined. exact Hlen.
Qed.

(** X11.  On a constructed transform [scale] stays within defined
    behaviour: it reads [taylor] only inside its sixteen entries, and it
    returns a position or throws [DidNotConverge]. *)
Theorem scale_defined (T0 W0 M0 A0 : D) (bins0 : Z) (p : logicle_params D) (v : D) :
  Logicle.Logicle5 T0 W0 M0 A0 bins0 = Ok p ->
  match Logicle.scale p v with
  | Ok _ => True
  | Throw e => e = DidNotConverge "scale() didn't converge"
  | Undefined => False
  end.
Proof.
  intros H. apply initialize_Ok in H.
  assert (Hlen : List.length (taylor p) = 16%nat) by tauto. clear H.
  unfold Logicle.scale, Logicle.scale_run.
  destruct (v =? #0); [exact I|].
  set (neg := v <? #0). set (v' := if neg then _ else _).
  assert (Hloop : forall x tol,
    match fst (match for_loop (Logicle.scale_body p v' tol neg) (Z.to_nat (10 - 0)) 0 x with
               | (Leave r, k) => (r, k)
               | (Next _, k) => (Throw (DidNotConverge "scale() didn't converge"), k)
               end) with
    | Ok _ => True
    | Throw e => e = DidNotConverge "scale() didn't converge"
    | Undefined => False
    end).
  { intros x tol.
    pose proof (scale_loop_defined p v' tol neg (Z.to_nat (10 - 0)) 0 x Hlen) as Hd.
    pose proof (fun r e => scale_loop_Leave p v' tol neg (Z.to_nat (10 - 0)) 0 x r e) as Ht.
    destruct (for_loop _ _ 0 x) as [[s|r] k]; cbn [fst] in *; [reflexivity|].
    destruct r as [y|e|]; [exact I | | congruence].
    exfalso. exact (Ht _ e eq_refl eq_refl). }
  destruct (v' <? f p).
  - destruct (load_in_range (D := D) (taylor p) 0 ltac:(rewrite Hlen; cbn; lia)) as [t0 ->].
    cbn [bind]. apply Hloop.
  - apply Hloop.
Qed.

End ScaleDefined.


(** ** Loop invariants *)

(** What a loop keeps: a property of the state that each pass preserves
    holds of the state the loop falls out with, and a property of every
    value a pass leaves with holds of the value the loop leaves with. *)
Lemma for_loop_invariant {St R0} (body : Z -> St -> pass St R0)
    (Inv : St -> Prop) (Post : R0 -> Prop) :
  (forall i s, Inv s ->
     match body i s with Next s' => Inv s' | Leave r => Post r end) ->
  forall n i s, Inv s ->
    match fst (for_loop body n i s) with Next s' => Inv s' | Leave r => Post r end.
Proof.
  intros Hbody. induction n as [|n IH]; intros i s Hs; cbn [for_loop fst].
  - exact Hs.
  - specialize (Hbody i s Hs).
    destruct (body i s) as [s'|r]; [|exact Hbody].
    specialize (IH (i + 1)%Z s' Hbody).
    destruct (for_loop body n (i + 1) s') as [r k]. exact IH.
Qed.

(** ** The root finder in exact arithmetic *)

Section ExactSolve.
Local Open Scope R_scope.
Local Existing Instance Exact.arith.

(** A pass of the loop of [solve] keeps the bracket: a bisection step lands
    in the middle of it, and a Newton step is only taken when it lands
    inside. *)
Lemma solve_body_bracket (b0 w0 tol f_b : R) (i : Z) (s : Logicle.solve_state) :
  0 < w0 -> Exact.bracket b0 s ->
  match Logicle.solve_body w0 tol f_b i s with
  | Next s' => Exact.bracket b0 s'
  | Leave r => 0 < r <= b0
  end.
Proof.
  intros Hw (H1 & H2 & H3 & H4 & H5).
  unfold Logicle.solve_body.
  cbn [fadd fsub fmul fdiv fneg fabs flog flt fle feq of_int Exact.arith].
  set (d0 := Logicle.s_d s) in *. set (lo := Logicle.d_lo s) in *.
  set (hi := Logicle.d_hi s) in *.
  set (df := 2 / d0 + w0).
  assert (Hdf : 0 < df).
  { unfold df. assert (0 < 2 / d0) by (apply Rdiv_lt_0_compat; lra). lra. }
  assert (Hafter : forall delta d', lo < d' < hi ->
    match
      (if Exact.ltb (Rabs delta) tol then Leave d'
       else if Exact.eqb (2 * ln d' + w0 * d' + f_b) 0
               || Logicle.eq_last (2 * ln d' + w0 * d' + f_b) (Logicle.last_f s)
            then Leave d'
            else if Exact.ltb (2 * ln d' + w0 * d' + f_b) 0
                 then Next {| Logicle.d_lo := d'; Logicle.d_hi := hi; Logicle.s_d := d';
                              Logicle.last_delta := delta;
                              Logicle.s_f := 2 * ln d' + w0 * d' + f_b;
                              Logicle.last_f := Some (2 * ln d' + w0 * d' + f_b) |}
                 else Next {| Logicle.d_lo := lo; Logicle.d_hi := d'; Logicle.s_d := d';
                              Logicle.last_delta := delta;
                              Logicle.s_f := 2 * ln d' + w0 * d' + f_b;
                              Logicle.last_f := Some (2 * ln d' + w0 * d' + f_b) |})
    with
    | Next s' => Exact.bracket b0 s'
    | Leave r => 0 < r <= b0
    end).
  { intros delta d' Hd'.
    destruct (Exact.ltb (Rabs delta) tol); [lra|].
    destruct (Exact.eqb _ 0 || Logicle.eq_last _ _); [lra|].
    destruct (Exact.ltb _ 0); unfold Exact.bracket; cbn; lra. }
  destruct (Exact.leb 0 _ || Exact.ltb _ _) eqn:Ec.
  - (* bisection *)
    assert (Hd' : lo < lo + (hi - lo) / 2 < hi) by lra.
    destruct (Exact.eqb (lo + (hi - lo) / 2) lo); [lra|].
    apply Hafter. exact Hd'.
  - (* Newton *)
    apply orb_false_iff in Ec. destruct Ec as [Ec _].
    apply leb_false_iff in Ec.
    assert (Hd' : lo < d0 - Logicle.s_f s / df < hi).
    { set (fv := Logicle.s_f s) in *.
      assert (E1 : (d0 - hi) * df - fv = df * (d0 - fv / df - hi)) by (field; lra).
      assert (E2 : (d0 - lo) * df - fv = df * (d0 - fv / df - lo)) by (field; lra).
      rewrite E1, E2 in Ec.
      set (d' := d0 - fv / df) in *.
      assert (Hp : (d' - hi) * (d' - lo) < 0).
      { apply Rmult_lt_reg_l with (df * df); [nra|]. nra. }
      nra. }
    destruct (Exact.eqb _ d0); [lra|].
    apply Hafter. exact Hd'.
Qed.

(** What [solve] ends with, for a positive [b] and a [w] that is not
    negative. *)
Lemma solve_outcome (b0 w0 : R) :
  0 < b0 -> 0 <= w0 ->
  match Logicle.solve b0 w0 with
  | Ok d0 => 0 < d0 <= b0 /\ (w0 = 0 -> d0 = b0)
  | Throw e => 0 < w0 /\ e = DidNotConverge "exceeded maximum iterations in solve()"
  | Undefined => False
  end.
Proof.
  intros Hb Hw. unfold Logicle.solve, Logicle.solve_run.
  cbn [feq of_int Exact.arith].
  destruct (Exact.eqb w0 0) eqn:E0.
  - cbn [fst]. split; [lra | reflexivity].
  - apply eqb_false_iff in E0.
    match goal with |- context [for_loop ?body ?n ?i ?s] =>
      pose proof (for_loop_invariant body (Exact.bracket b0) (fun r => 0 < r <= b0)
                    (fun j t => solve_body_bracket b0 w0 _ _ j t ltac:(lra)) n i s) as H;
      destruct (for_loop body n i s) as [[s'|r] k] end; cbn [fst] in *.
    + split; [lra | reflexivity].
    + split; [|intros; lra]. apply H.
      unfold Exact.bracket. cbn. lra.
Qed.

(** X12.  In exact arithmetic [solve (b, w)], for [b > 0] and [w >= 0],
    never leaves the bracket it starts from: a value it returns lies in
    [(0, b]], and is [b] itself when [w = 0].  It throws only
    [DidNotConverge], and only when [w > 0]. *)
Theorem solve_bracket (b0 w0 : R) :
  0 < b0 -> 0 <= w0 ->
  (forall d0, Logicle.solve b0 w0 = Ok d0 -> 0 < d0 <= b0 /\ (w0 = 0 -> d0 = b0)) /\
  (forall e, Logicle.solve b0 w0 = Throw e ->
     0 < w0 /\ e = DidNotConverge "exceeded maximum iterations in solve()") /\
  Logicle.solve b0 w0 <> Undefined /\
  (w0 = 0 -> Logicle.solve b0 w0 = Ok b0).
Proof.
  intros Hb Hw. pose proof (solve_outcome b0 w0 Hb Hw) as H.
  destruct (Logicle.solve b0 w0) as [d0|e|].
  - split; [intros d1 [= <-]; exact H|]. split; [discriminate|].
    split; [discriminate|]. intros E. f_equal. apply H. exact E.
  - split; [discriminate|]. split; [intros e1 [= <-]; exact H|].
    split; [discriminate|]. intros E. lra.
  - contradiction.
Qed.

End ExactSolve.

(** ** The coefficients in exact arithmetic *)

Section ExactGeometry.
Local Open Scope R_scope.
Local Existing Instance Exact.arith.

Lemma ln_10_pos : 0 < ln 10.
Proof. rewrite <- ln_1. apply ln_increasing; lra. Qed.

(** The constraints that the constructor checked, as inequalities. *)
Lemma exact_validated (T0 W0 M0 A0 : R) (bins0 : Z) (p : logicle_params R) :
  Logicle.initialize T0 W0 M0 A0 bins0 = Ok p ->
  0 < T0 /\ 0 <= W0 /\ 0 < M0 /\ 2 * W0 <= M0 /\ - A0 <= W0 /\ A0 + W0 <= M0 - W0.
Proof.
  intros H. apply initialize_Ok in H.
  destruct H as (H1 & H2 & H3 & H4 & H5 & H6 & _).
  cbn [fle flt fadd fsub fmul fneg of_int Exact.arith] in *.
  apply leb_false_iff in H1, H3. apply ltb_false_iff in H2, H4, H5, H6.
  repeat split; lra.
Qed.

(** Validated parameters put data zero in the lower half of the bins. *)
Lemma zero_bin_range (W0 M0 A0 : R) (bins0 : Z) :
  0 <= W0 -> 0 < M0 -> 2 * W0 <= M0 -> - A0 <= W0 -> A0 + W0 <= M0 - W0 ->
  (0 < bins0)%Z ->
  (0 <= Exact.zero_bin W0 M0 A0 bins0)%Z /\
  (2 * Exact.zero_bin W0 M0 A0 bins0 <= bins0 + 1)%Z.
Proof.
  intros HW HM HWM HA1 HA2 Hb. unfold Exact.zero_bin.
  set (z := (W0 + A0) / (M0 + A0)).
  assert (HMA : 0 < M0 + A0) by lra.
  assert (Hz : 0 <= z <= 1 / 2).
  { unfold z. split.
    - apply Rmult_le_pos; [lra|]. apply Rlt_le, Rinv_0_lt_compat; lra.
    - apply Rmult_le_reg_r with (M0 + A0); [lra|].
      unfold Rdiv. rewrite Rmult_assoc, Rinv_l by lra. lra. }
  assert (Hn : 0 < IZR bins0) by (apply IZR_lt; lia).
  pose proof (Zfloor_bound (z * IZR bins0 + 1 / 2)) as [Hfl _].
  set (k := Zfloor (z * IZR bins0 + 1 / 2)) in *.
  split.
  - apply (Zfloor_lub 0). cbn. nra.
  - apply le_IZR. rewrite mult_IZR, plus_IZR. cbn [IZR IPR IPR_2]. nra.
Qed.

(** The value of [A] that the transform is built from, once validated and
    adjusted, keeps [M + A] positive and [A + W] non-negative, unless there
    is a single bin. *)
Lemma effective_A (T0 W0 M0 A0 : R) (bins0 : Z) (p : logicle_params R) :
  Logicle.initialize T0 W0 M0 A0 bins0 = Ok p -> bins0 <> 1%Z ->
  0 < M0 + A p /\ 0 <= A p + W0 /\
  ((1 < bins0)%Z ->
   (A p + W0) / (M0 + A p) = IZR (Exact.zero_bin W0 M0 A0 bins0) / IZR bins0 /\
   (0 <= Exact.zero_bin W0 M0 A0 bins0 < bins0)%Z).
Proof.
  intros H Hb.
  destruct (exact_validated _ _ _ _ _ _ H) as (HT & HW & HM & HWM & HA1 & HA2).
  apply initialize_Ok in H.
  destruct H as (_ & _ & _ & _ & _ & _ & _ & _ & _ & HA & _).
  rewrite HA. destruct (Z.gtb_spec bins0 0) as [Hpos|Hneg].
  - assert (Hb2 : (1 < bins0)%Z) by lia.
    destruct (zero_bin_range W0 M0 A0 bins0 HW HM HWM HA1 HA2 Hpos) as [Hk0 Hk1].
    unfold adjusted_A. cbn [fadd fsub fmul fdiv ffloor of_int Exact.arith].
    fold (Exact.zero_bin W0 M0 A0 bins0).
    set (k := Exact.zero_bin W0 M0 A0 bins0) in *.
    assert (Hn : 0 < IZR bins0) by (apply IZR_lt; lia).
    assert (Hkn : IZR k < IZR bins0) by (apply IZR_lt; lia).
    assert (Hk : 0 <= IZR k) by (apply IZR_le; lia).
    set (zero := IZR k / IZR bins0).
    assert (Hz : 0 <= zero < 1).
    { unfold zero. split.
      - apply Rmult_le_pos; [lra|]. apply Rlt_le, Rinv_0_lt_compat; lra.
      - apply Rmult_lt_reg_r with (IZR bins0); [lra|].
        unfold Rdiv. rewrite Rmult_assoc, Rinv_l by lra. lra. }
    assert (E1 : M0 + (M0 * zero - W0) / (1 - zero) = (M0 - W0) / (1 - zero))
      by (field; lra).
    assert (E2 : (M0 * zero - W0) / (1 - zero) + W0 = zero * (M0 - W0) / (1 - zero))
      by (field; lra).
    assert (Hi : 0 < / (1 - zero)) by (apply Rinv_0_lt_compat; lra).
    rewrite E1, E2. split; [|split].
    + unfold Rdiv. nra.
    + unfold Rdiv. assert (0 <= zero * (M0 - W0)) by nra. nra.
    + intros _. split; [|lia]. field. lra.
  - split; [lra|]. split; [lra|]. intros C. lia.
Qed.

(** The coefficients of a constructed transform and how they are tied
    together. *)
Lemma exact_geometry (T0 W0 M0 A0 : R) (bins0 : Z) (p : logicle_params R) :
  Logicle.initialize T0 W0 M0 A0 bins0 = Ok p -> bins0 <> 1%Z ->
  0 < a p /\ 0 < b p /\ 0 < c p /\ 0 < d p <= b p /\ 0 <= w p /\
  0 <= x1 p < 1 /\ x1 p <= xTaylor p < 1 /\
  x1 p = (A p + W0) / (M0 + A p) /\
  (a p * exp (b p * x1 p) + f p) - c p / exp (d p * x1 p) = 0 /\
  (a p * exp (b p * 1) + f p) - c p / exp (d p * 1) = T0.
Proof.
  intros H Hb.
  destruct (exact_validated _ _ _ _ _ _ H) as (HT & HW & HM & HWM & HA1 & HA2).
  destruct (effective_A _ _ _ _ _ _ H Hb) as (HMA & HAW & _).
  pose proof (initialize_fields _ _ _ _ _ _ H) as Hf. cbv zeta in Hf.
  destruct Hf as (d' & Hs & _ & _ & _ & HA & Ha & Hbb & Hc & Hd & Hff & Hw & Hx0 &
                  Hx1 & Hx2 & HxT).
  rewrite <- HA in *.
  cbn [fadd fsub fmul fdiv fneg fexp flog of_int Exact.arith] in *.
  unfold Logicle.LN_10 in *. cbn [flog of_int Exact.arith] in *.
  pose proof ln_10_pos as Hln.
  assert (Hi : 0 < / (M0 + A p)) by (apply Rinv_0_lt_compat; lra).
  assert (Hb0 : 0 < b p) by (rewrite Hbb; nra).
  assert (Hw0 : 0 <= w p) by (rewrite Hw; unfold Rdiv; nra).
  assert (Ex1 : x1 p = (A p + W0) / (M0 + A p)) by (rewrite Hx1; field; lra).
  assert (Hx1r : 0 <= x1 p < 1).
  { rewrite Ex1. split.
    - unfold Rdiv. nra.
    - apply Rmult_lt_reg_r with (M0 + A p); [lra|].
      unfold Rdiv. rewrite Rmult_assoc, Rinv_l by lra. lra. }
  assert (HxTr : x1 p <= xTaylor p < 1).
  { rewrite HxT, <- Hx1, <- Hw. split; [lra|].
    assert (E : x1 p + w p / 4 = (A p + W0 + W0 / 4) / (M0 + A p)).
    { rewrite Ex1, Hw. field. lra. }
    rewrite E. apply Rmult_lt_reg_r with (M0 + A p); [lra|].
    unfold Rdiv at 1. rewrite Rmult_assoc, Rinv_l by lra. lra. }
  assert (Hd0 : 0 < d p <= b p).
  { rewrite Hd. pose proof (solve_outcome (b p) (w p) Hb0 Hw0) as Hsb.
    rewrite Hbb, Hw in Hsb. rewrite Hs in Hsb. rewrite Hbb. tauto. }
  rewrite <- Hbb, <- Hd, <- Hx1, <- Hx0 in *.
  set (c_a := exp (x0 p * (b p + d p))) in *.
  set (den := exp (b p) - (exp (b p * x1 p) - c_a / exp (d p * x1 p)) - c_a / exp (d p))
    in *.
  assert (Hca : 0 < c_a) by apply exp_pos.
  assert (He1 : exp (b p * x1 p) < exp (b p)) by (apply exp_increasing; nra).
  assert (He2 : / exp (d p) < / exp (d p * x1 p)).
  { apply Rinv_lt_contravar.
    - apply Rmult_lt_0_compat; apply exp_pos.
    - apply exp_increasing. nra. }
  assert (Hden : 0 < den) by (unfold den, Rdiv; nra).
  assert (Ha0 : 0 < a p) by (rewrite Ha; apply Rdiv_lt_0_compat; lra).
  assert (He : exp (d p) <> 0) by (pose proof (exp_pos (d p)); lra).
  assert (He' : exp (d p * x1 p) <> 0) by (pose proof (exp_pos (d p * x1 p)); lra).
  split; [exact Ha0|]. split; [exact Hb0|]. split; [rewrite Hc, <- Ha; nra|].
  split; [exact Hd0|]. split; [exact Hw0|]. split; [exact Hx1r|].
  split; [exact HxTr|]. split; [exact Ex1|]. split.
  - rewrite Hff, Hc, <- Ha. unfold Rdiv. ring.
  - rewrite Hff, Hc, <- Ha, !Rmult_1_r.
    transitivity (a p * den); [unfold den, Rdiv; ring|].
    rewrite Ha. field. lra.
Qed.

(** X13.  In exact arithmetic the coefficients of a constructed transform
    are positive, [d] lies in [(0, b]], and the break points are ordered:
    [0 <= x1 <= xTaylor < 1]; without bins, [x1 <= 1/2].  (With a single
    bin the adjustment of [A] can divide by zero, which the hypothesis
    excludes.) *)
Theorem coefficients_positive (T0 W0 M0 A0 : R) (bins0 : Z) (p : logicle_params R) :
  Logicle.initialize T0 W0 M0 A0 bins0 = Ok p -> bins0 <> 1%Z ->
  0 < a p /\ 0 < b p /\ 0 < c p /\ 0 < d p <= b p /\
  0 <= w p /\ 0 <= x1 p < 1 /\ x1 p <= xTaylor p < 1 /\
  ((bins0 <= 0)%Z -> x1 p <= 1 / 2).
Proof.
  intros H Hb.
  destruct (exact_validated _ _ _ _ _ _ H) as (HT & HW & HM & HWM & HA1 & HA2).
  destruct (exact_geometry _ _ _ _ _ _ H Hb)
    as (Ha0 & Hb0 & Hc0 & Hd0 & Hw0 & Hx1 & HxT & Ex1 & _).
  repeat (split; [assumption|]).
  intros Hneg. apply initialize_Ok in H.
  destruct H as (_ & _ & _ & _ & _ & _ & _ & _ & _ & HA & _).
  destruct (Z.gtb_spec bins0 0); [lia|].
  rewrite Ex1, HA.
  apply Rmult_le_reg_r with (M0 + A0); [lra|].
  unfold Rdiv at 1. rewrite Rmult_assoc, Rinv_l by lra. lra.
Qed.

(** X14.  In exact arithmetic the top of the scale is [T]:
    [inverse (1) = T] for every constructed transform. *)
Theorem inverse_top (T0 W0 M0 A0 : R) (bins0 : Z) (p : logicle_params R) :
  Logicle.initialize T0 W0 M0 A0 bins0 = Ok p -> bins0 <> 1%Z ->
  Logicle.inverse p 1 = Ok T0.
Proof.
  intros H Hb.
  destruct (exact_geometry _ _ _ _ _ _ H Hb)
    as (_ & _ & _ & _ & _ & Hx1 & HxT & _ & _ & Etop).
  rewrite inverse_branch.
  rewrite (proj2 (ltb_false_iff 1 (x1 p))) by lra.
  unfold Exact.branch.
  rewrite (proj2 (ltb_false_iff 1 (xTaylor p))) by lra.
  f_equal. exact Etop.
Qed.

(** X15.  In exact arithmetic data zero sits at [x1]: [inverse (x1) = 0],
    so that [inverse (scale (0)) = 0].  (A single bin is left out, as the
    adjustment of [A] can then divide by zero, which exact arithmetic does
    not model.) *)
Theorem inverse_zero (T0 W0 M0 A0 : R) (bins0 : Z) (p : logicle_params R) :
  Logicle.initialize T0 W0 M0 A0 bins0 = Ok p -> bins0 <> 1%Z ->
  Logicle.inverse p (x1 p) = Ok 0 /\
  exists s, Logicle.scale p 0 = Ok s /\ Logicle.inverse p s = Ok 0.
Proof.
  intros H _.
  assert (E : Logicle.inverse p (x1 p) = Ok 0).
  { rewrite inverse_branch.
    rewrite (proj2 (ltb_false_iff (x1 p) (x1 p))) by lra.
    exact (branch_x1 _ _ _ _ _ _ H). }
  split; [exact E|]. exists (x1 p). split; [|exact E].
  unfold Logicle.scale, Logicle.scale_run. cbn [feq of_int Exact.arith].
  rewrite (proj2 (eqb_true_iff 0 0)) by reflexivity. reflexivity.
Qed.

(** X16.  In exact arithmetic [slope] is symmetric about [x1] and positive
    everywhere, and so is [dynamicRange], the ratio of the slopes at 1 and
    at [x1]. *)
Theorem slope_spec (T0 W0 M0 A0 : R) (bins0 : Z) (p : logicle_params R) (s : R) :
  Logicle.initialize T0 W0 M0 A0 bins0 = Ok p -> bins0 <> 1%Z ->
  Logicle.slope p (2 * x1 p - s) = Logicle.slope p s /\
  0 < Logicle.slope p s /\
  0 < Logicle.dynamicRange p.
Proof.
  intros H Hb.
  destruct (exact_geometry _ _ _ _ _ _ H Hb) as (Ha & Hb0 & Hc & Hd & _).
  assert (Hpos : forall t, 0 < a p * b p * exp (b p * t) + c p * d p / exp (d p * t)).
  { intros t. pose proof (exp_pos (b p * t)). pose proof (exp_pos (d p * t)).
    assert (0 < a p * b p) by nra. assert (0 < c p * d p) by nra.
    assert (0 < / exp (d p * t)) by (apply Rinv_0_lt_compat; lra).
    unfold Rdiv. nra. }
  assert (Hs : forall t, 0 < Logicle.slope p t).
  { intros t. unfold Logicle.slope.
    cbn [fadd fsub fmul fdiv fexp flt of_int Exact.arith].
    destruct (Exact.ltb t (x1 p)); apply Hpos. }
  split; [|split; [apply Hs|]].
  - unfold Logicle.slope. cbn [fadd fsub fmul fdiv fexp flt of_int Exact.arith].
    destruct (Rtotal_order s (x1 p)) as [Hlt | [Heq | Hgt]].
    + rewrite (proj2 (ltb_true_iff s (x1 p)) Hlt).
      rewrite (proj2 (ltb_false_iff (2 * x1 p - s) (x1 p))) by lra. reflexivity.
    + subst s. replace (2 * x1 p - x1 p) with (x1 p) by ring.
      rewrite (proj2 (ltb_false_iff (x1 p) (x1 p))) by lra. reflexivity.
    + rewrite (proj2 (ltb_false_iff s (x1 p))) by lra.
      rewrite (proj2 (ltb_true_iff (2 * x1 p - s) (x1 p))) by lra.
      replace (2 * x1 p - (2 * x1 p - s)) with s by ring. reflexivity.
  - unfold Logicle.dynamicRange. cbn [fdiv of_int Exact.arith].
    apply Rdiv_lt_0_compat; apply Hs.
Qed.

End ExactGeometry.

(** ** The Taylor series *)

Section Coefficients.
Context {D : Type} {AR : Arith D}.
Local Open Scope dbl_scope.

(** The Taylor coefficients of a constructed transform: what the loop of
    [initialize] stored, with the entry of index 1 set to zero. *)
Lemma initialize_taylor (T0 W0 M0 A0 : D) (bins0 : Z) (p : logicle_params D) :
  Logicle.initialize T0 W0 M0 A0 bins0 = Ok p ->
  store (D := D)
    (Logicle.taylor_loop (b p) (d p) 16 0
       (a p * fexp (b p * x1 p)) (- c p / fexp (d p * x1 p))) 1 #0
  = Ok (taylor p).
Proof.
  unfold Logicle.initialize.
  destruct (T0 <=? #0); [discriminate|].
  destruct (W0 <? #0); [discriminate|].
  destruct (M0 <=? #0); [discriminate|].
  destruct (#2 * W0 >? M0); [discriminate|].
  destruct (- A0 >? W0); [discriminate|].
  destruct (A0 + W0 >? M0 - W0); [discriminate|]. cbn [orb].
  match goal with |- context [Logicle.solve ?x ?y] =>
    destruct (Logicle.solve x y) as [d0| |] eqn:Es end; cbn [bind]; try discriminate.
  match goal with |- context [store ?l ?i ?v] =>
    destruct (store l i v) as [t1| |] eqn:Et end; cbn [bind]; try discriminate.
  intros [= <-]. cbn [a b c d x1 taylor]. exact Et.
Qed.

(** The Horner evaluation of [seriesBiexponential], written out. *)
Lemma seriesBiexponential_horner (p : logicle_params D) (s : D) :
  List.length (taylor p) = 16%nat ->
  let t k := nth k (taylor p) #0 in
  let x := s - x1 p in
  Logicle.seriesBiexponential p s =
    Ok (((((((((((((((t 15%nat * x + t 14%nat) * x + t 13%nat) * x + t 12%nat)
      * x + t 11%nat) * x + t 10%nat) * x + t 9%nat) * x + t 8%nat) * x + t
      7%nat) * x + t 6%nat) * x + t 5%nat) * x + t 4%nat) * x + t 3%nat) * x
      + t 2%nat) * x * x + t 0%nat) * x).
Proof.
  destruct p as [pT pW pM pA pa pb pc pd pf pw px0 px1 px2 pxT ty lk bn].
  cbn [taylor]. intros H. apply list16 in H.
  destruct H as (t0 & t1 & t2 & t3 & t4 & t5 & t6 & t7 & t8 & t9 & t10 & t11
                 & t12 & t13 & t14 & t15 & ->).
  vm_compute. reflexivity.
Qed.

End Coefficients.

Section ExactSeries.
Local Open Scope R_scope.
Local Existing Instance Exact.arith.

Lemma taylor_loop_nth (b0 d0 P N : R) (n : nat) :
  forall (m k : nat) (pc nc : R),
  pc = P * b0 ^ m / INR (fact m) -> nc = N * (- d0) ^ m / INR (fact m) ->
  (k < n)%nat ->
  nth_error (Logicle.taylor_loop b0 d0 n (Z.of_nat m) pc nc) k =
    Some ((P * b0 ^ (m + k + 1) + N * (- d0) ^ (m + k + 1)) / INR (fact (m + k + 1))).
Proof.
  induction n as [|n IH]; intros m k pc nc Hpc Hnc Hk; [lia|].
  cbn [Logicle.taylor_loop].
  cbn [fadd fmul fdiv fneg of_int Exact.arith].
  assert (Hm : IZR (Z.of_nat m + 1) = INR (S m)).
  { rewrite S_INR, INR_IZR_INZ, plus_IZR. reflexivity. }
  assert (Hf : INR (fact m) <> 0) by apply INR_fact_neq_0.
  assert (Hs : INR (S m) <> 0) by (apply not_0_INR; lia).
  assert (Hfs : INR (fact (S m)) = INR (S m) * INR (fact m)).
  { change (fact (S m)) with (S m * fact m)%nat. apply mult_INR. }
  assert (Epc : pc * (b0 / IZR (Z.of_nat m + 1)) = P * b0 ^ S m / INR (fact (S m))).
  { rewrite Hm, Hpc, Hfs. cbn [pow]. field. split; assumption. }
  assert (Enc : nc * (- d0 / IZR (Z.of_nat m + 1)) = N * (- d0) ^ S m / INR (fact (S m))).
  { rewrite Hm, Hnc, Hfs. cbn [pow]. field. split; assumption. }
  destruct k as [|k].
  - cbn [nth_error]. f_equal. rewrite Epc, Enc.
    replace (m + 0 + 1)%nat with (S m) by lia. field.
    rewrite Hfs. apply Rmult_integral_contrapositive_currified; assumption.
  - cbn [nth_error].
    replace (Z.of_nat m + 1)%Z with (Z.of_nat (S m)) by lia.
    rewrite (IH (S m) k _ _).
    + f_equal. replace (S m + k + 1)%nat with (m + S k + 1)%nat by lia. reflexivity.
    + replace (Z.of_nat (S m)) with (Z.of_nat m + 1)%Z by lia. exact Epc.
    + replace (Z.of_nat (S m)) with (Z.of_nat m + 1)%Z by lia. exact Enc.
    + lia.
Qed.

(** X17.  In exact arithmetic the coefficient [taylor[k]] of a constructed
    transform is the derivative of order [k + 1] of the biexponential
    [a * exp (b x) - c * exp (- d x)] at [x1], divided by [(k + 1)!]; the
    one of index 1 is replaced by zero. *)
Theorem taylor_coefficients (T0 W0 M0 A0 : R) (bins0 : Z) (p : logicle_params R)
    (k : nat) :
  Logicle.initialize T0 W0 M0 A0 bins0 = Ok p -> (k < 16)%nat ->
  nth_error (taylor p) k =
    Some (if Nat.eqb k 1 then 0
          else (a p * exp (b p * x1 p) * b p ^ (k + 1)
                + - c p / exp (d p * x1 p) * (- d p) ^ (k + 1)) / INR (fact (k + 1))).
Proof.
  intros H Hk. apply initialize_taylor in H.
  apply store_Ok in H. destruct H as [_ H]. change (Z.to_nat 1) with 1%nat in H.
  destruct (Nat.eqb_spec k 1) as [->|Hne].
  - exact (update_nth_same _ _ _ _ H).
  - rewrite (update_nth_other _ _ _ k _ H Hne).
    cbn [fadd fmul fdiv fneg fexp of_int Exact.arith].
    rewrite (taylor_loop_nth (b p) (d p) (a p * exp (b p * x1 p))
               (- c p / exp (d p * x1 p)) 16 0 k); [reflexivity | | | exact Hk].
    + cbn. field.
    + cbn. field. pose proof (exp_pos (d p * x1 p)). lra.
Qed.

(** X18.  In exact arithmetic [seriesBiexponential (s)] of a constructed
    transform is the polynomial with the sixteen coefficients of [taylor],
    the sum over [k] of [taylor[k] * (s - x1) ^ (k + 1)]: the Horner loop
    skips the index 1, whose coefficient is zero. *)
Theorem series_polynomial (T0 W0 M0 A0 : R) (bins0 : Z) (p : logicle_params R)
    (s : R) :
  Logicle.initialize T0 W0 M0 A0 bins0 = Ok p ->
  Logicle.seriesBiexponential p s =
    Ok (sum_f_R0 (fun k => nth k (taylor p) 0 * (s - x1 p) ^ (k + 1)) 15).
Proof.
  intros H. apply initialize_Ok in H.
  destruct H as (_ & _ & _ & _ & _ & _ & _ & _ & _ & _ & Hlen & H1).
  rewrite (seriesBiexponential_horner p s Hlen). cbv zeta.
  cbn [fadd fsub fmul of_int Exact.arith]. f_equal.
  assert (E1 : nth 1 (taylor p) 0 = 0).
  { apply nth_error_nth. exact H1. }
  cbn [sum_f_R0 Nat.add pow]. rewrite E1. ring.
Qed.

End ExactSeries.

(** ** The lookup table in exact arithmetic *)

Section ExactTable.
Local Open Scope R_scope.
Local Existing Instance Exact.arith.

Variable p : logicle_params R.
Hypothesis bins_range : (0 < bins p < 2 ^ 30)%Z.
Hypothesis lookup_length : Z.of_nat (List.length (lookup p)) = (bins p + 1)%Z.
Hypothesis lookup_increasing : strictly_increasing (lookup p).

Lemma exact_intScale_post (v : R) : intScale_post p v (FastLogicle.intScale p v).
Proof.
  apply intScale_post_holds; auto.
  - exact exact_lt_asym.
  - intros x z. apply exact_lt_cotrans.
  - intros i _. split; apply exact_le_not_gt.
Qed.

Lemma exact_table_lt (i j : Z) :
  (0 <= i < j)%Z -> (j <= bins p)%Z -> table p i < table p j.
Proof.
  intros H1 H2. apply ltb_true_iff.
  exact (table_increasing p bins_range lookup_length lookup_increasing i j H1 H2).
Qed.

Lemma exact_table_le (i j : Z) :
  (0 <= i <= j)%Z -> (j <= bins p)%Z -> table p i <= table p j.
Proof.
  intros H1 H2. destruct (Z.eq_dec i j) as [->|Hne]; [lra|].
  apply Rlt_le, exact_table_lt; lia.
Qed.

(** The bin of a value is the one whose entries enclose it. *)
Lemma exact_intScale_bin (v : R) (i : Z) :
  (0 <= i < bins p)%Z -> table p i <= v < table p (i + 1) ->
  FastLogicle.intScale p v = Ok i.
Proof.
  intros Hi [Hl Hu]. pose proof (exact_intScale_post v) as Hpost.
  destruct (FastLogicle.intScale p v) as [j|e|]; cbn in Hpost.
  - destruct Hpost as (Hj & L1 & L2).
    apply leb_true_iff in L1. apply ltb_true_iff in L2. f_equal.
    destruct (Z.lt_trichotomy j i) as [Hlt|[Heq|Hgt]]; [exfalso|exact Heq|exfalso].
    + pose proof (exact_table_le (j + 1) i ltac:(lia) ltac:(lia)). lra.
    + pose proof (exact_table_le (i + 1) j ltac:(lia) ltac:(lia)). lra.
  - exfalso. destruct Hpost as (_ & [C|[C|[C1 C2]]]).
    + apply ltb_true_iff in C.
      pose proof (exact_table_le 0 i ltac:(lia) ltac:(lia)). lra.
    + apply ltb_true_iff in C.
      pose proof (exact_table_le (i + 1) (bins p) ltac:(lia) ltac:(lia)). lra.
    + apply ltb_false_iff in C1.
      pose proof (exact_table_le (i + 1) (bins p) ltac:(lia) ltac:(lia)). lra.
  - contradiction.
Qed.

(** A value outside the table has no bin. *)
Lemma exact_intScale_outside (v : R) :
  v < table p 0 \/ table p (bins p) <= v ->
  FastLogicle.intScale p v = Throw (IllegalArgument v).
Proof.
  intros Hout. pose proof (exact_intScale_post v) as Hpost.
  destruct (FastLogicle.intScale p v) as [j|e|]; cbn in Hpost.
  - exfalso. destruct Hpost as (Hj & L1 & L2).
    apply leb_true_iff in L1. apply ltb_true_iff in L2.
    pose proof (exact_table_le 0 j ltac:(lia) ltac:(lia)).
    pose proof (exact_table_le (j + 1) (bins p) ltac:(lia) ltac:(lia)).
    destruct Hout; lra.
  - destruct Hpost as [-> _]. reflexivity.
  - contradiction.
Qed.

(** Every value inside the table has a bin. *)
Lemma exact_bin_exists (v : R) :
  table p 0 <= v < table p (bins p) ->
  exists i, (0 <= i < bins p)%Z /\ table p i <= v < table p (i + 1) /\
            FastLogicle.intScale p v = Ok i.
Proof.
  intros [Hl Hu]. pose proof (exact_intScale_post v) as Hpost.
  destruct (FastLogicle.intScale p v) as [j|e|] eqn:E; cbn in Hpost.
  - destruct Hpost as (Hj & L1 & L2).
    apply leb_true_iff in L1. apply ltb_true_iff in L2.
    exists j. repeat split; auto; lia.
  - exfalso. destruct Hpost as (_ & [C|[C|[C1 C2]]]).
    + apply ltb_true_iff in C. lra.
    + apply ltb_true_iff in C. lra.
    + apply ltb_false_iff in C1. lra.
  - contradiction.
Qed.

(** [FastLogicle::scale] in the bin [i]. *)
Lemma exact_fast_scale (v : R) (i : Z) :
  (0 <= i < bins p)%Z -> FastLogicle.intScale p v = Ok i ->
  FastLogicle.scale p v =
    Ok ((IZR i + (v - table p i) / (table p (i + 1) - table p i)) / IZR (bins p)).
Proof.
  intros Hi E. unfold FastLogicle.scale. rewrite E. cbn [bind].
  assert (Hw : iadd i 1 = (i + 1)%Z).
  { apply wrap_id. unfold in_int, INT_MIN, INT_MAX. lia. }
  rewrite Hw, (load_table p bins_range lookup_length i) by lia.
  rewrite (load_table p bins_range lookup_length (i + 1)) by lia.
  reflexivity.
Qed.

(** [FastLogicle::inverse] at a position of the bin [i]. *)
Lemma exact_fast_inverse (position : R) (i : Z) :
  (0 <= i < bins p)%Z -> Zfloor (position * IZR (bins p)) = i ->
  FastLogicle.inverse p position =
    Ok ((1 - (position * IZR (bins p) - IZR i)) * table p i
        + (position * IZR (bins p) - IZR i) * table p (i + 1)).
Proof.
  intros Hi E. unfold FastLogicle.inverse.
  cbn [fadd fsub fmul ffloor to_int of_int Exact.arith].
  rewrite cast_int_IZR, E.
  unfold INT_MIN, INT_MAX.
  replace ((- 2 ^ 31 <=? i) && (i <=? 2 ^ 31 - 1))%Z with true
    by (symmetry; apply andb_true_iff; split; apply Z.leb_le; lia).
  replace ((i <? 0) || (i >=? bins p))%Z with false
    by (symmetry; apply orb_false_iff; split;
        [apply Z.ltb_ge | rewrite Z.geb_leb; apply Z.leb_gt]; lia).
  assert (Hw : iadd i 1 = (i + 1)%Z).
  { apply wrap_id. unfold in_int, INT_MIN, INT_MAX. lia. }
  rewrite Hw, (load_table p bins_range lookup_length i) by lia.
  rewrite (load_table p bins_range lookup_length (i + 1)) by lia.
  reflexivity.
Qed.

Lemma Zfloor_eq (x : R) (i : Z) : IZR i <= x < IZR i + 1 -> Zfloor x = i.
Proof.
  intros [H1 H2]. pose proof (Zfloor_bound x) as [H3 H4].
  assert (Zfloor x <= i)%Z.
  { apply Z.lt_succ_r. apply lt_IZR. rewrite succ_IZR. lra. }
  assert (i <= Zfloor x)%Z.
  { apply Z.lt_succ_r. apply lt_IZR. rewrite succ_IZR. lra. }
  lia.
Qed.

(** X19.  In exact arithmetic, on a strictly increasing table,
    [FastLogicle::scale (v)] throws [IllegalArgument (v)] exactly when [v]
    is outside [[lookup[0], lookup[bins])]; otherwise it returns a position
    in [[0, 1)] that lies in the bin [intScale (v)] found:
    [i / bins <= scale (v) < (i + 1) / bins]. *)
Theorem fast_scale_spec (v : R) :
  (FastLogicle.scale p v = Throw (IllegalArgument v) <->
   ~ (table p 0 <= v < table p (bins p))) /\
  (table p 0 <= v < table p (bins p) ->
   exists (i : Z) (s : R),
     FastLogicle.intScale p v = Ok i /\ FastLogicle.scale p v = Ok s /\
     IZR i / IZR (bins p) <= s < (IZR i + 1) / IZR (bins p) /\
     0 <= s < 1 /\ Zfloor (s * IZR (bins p)) = i).
Proof.
  assert (Hn : 0 < IZR (bins p)) by (apply IZR_lt; lia).
  assert (Hin : table p 0 <= v < table p (bins p) ->
    exists (i : Z) (s : R),
     FastLogicle.intScale p v = Ok i /\ FastLogicle.scale p v = Ok s /\
     IZR i / IZR (bins p) <= s < (IZR i + 1) / IZR (bins p) /\
     0 <= s < 1 /\ Zfloor (s * IZR (bins p)) = i).
  { intros Hv. destruct (exact_bin_exists v Hv) as (i & Hi & Hb & E).
    exists i. eexists. split; [exact E|]. split; [exact (exact_fast_scale v i Hi E)|].
    pose proof (exact_table_lt i (i + 1) ltac:(lia) ltac:(lia)) as Hlt.
    set (delta := (v - table p i) / (table p (i + 1) - table p i)).
    assert (Hd : 0 <= delta < 1).
    { unfold delta. split.
      - apply Rmult_le_pos; [lra|]. apply Rlt_le, Rinv_0_lt_compat. lra.
      - apply Rmult_lt_reg_r with (table p (i + 1) - table p i); [lra|].
        unfold Rdiv. rewrite Rmult_assoc, Rinv_l by lra. lra. }
    assert (Hi0 : 0 <= IZR i) by (apply IZR_le; lia).
    assert (Hi1 : IZR i + 1 <= IZR (bins p)).
    { rewrite <- succ_IZR. apply IZR_le. lia. }
    assert (Hinv : 0 < / IZR (bins p)) by (apply Rinv_0_lt_compat; exact Hn).
    assert (Es : (IZR i + delta) / IZR (bins p) * IZR (bins p) = IZR i + delta)
      by (field; lra).
    split; [|split].
    - unfold Rdiv. split; nra.
    - split.
      + unfold Rdiv. nra.
      + apply Rmult_lt_reg_r with (IZR (bins p)); [lra|]. rewrite Es. lra.
    - rewrite Es. apply Zfloor_eq. lra. }
  split; [|exact Hin].
  split.
  - intros E [Hl Hu]. destruct (Hin (conj Hl Hu)) as (i & s & _ & E' & _).
    rewrite E in E'. discriminate.
  - intros Hout. unfold FastLogicle.scale.
    rewrite exact_intScale_outside; [reflexivity|].
    destruct (Rlt_dec v (table p 0)); [left; assumption|].
    right. destruct (Rle_dec (table p (bins p)) v); [assumption|].
    exfalso. apply Hout. lra.
Qed.

(** X20.  In exact arithmetic, on a strictly increasing table, the
    interpolating [scale] and [inverse] undo each other:
    [inverse (scale (v)) = v] for every [v] in [[lookup[0], lookup[bins])],
    and [scale (inverse (s)) = s] for every position [s] in [[0, 1)]. *)
Theorem fast_round_trip :
  (forall v, table p 0 <= v < table p (bins p) ->
     exists s, FastLogicle.scale p v = Ok s /\ FastLogicle.inverse p s = Ok v) /\
  (forall position, 0 <= position < 1 ->
     exists v, FastLogicle.inverse p position = Ok v /\
               table p 0 <= v < table p (bins p) /\
               FastLogicle.scale p v = Ok position).
Proof.
  assert (Hn : 0 < IZR (bins p)) by (apply IZR_lt; lia).
  split.
  - intros v Hv. destruct (exact_bin_exists v Hv) as (i & Hi & Hb & E).
    eexists. split; [exact (exact_fast_scale v i Hi E)|].
    pose proof (exact_table_lt i (i + 1) ltac:(lia) ltac:(lia)) as Hlt.
    set (delta := (v - table p i) / (table p (i + 1) - table p i)).
    assert (Hd : 0 <= delta < 1).
    { unfold delta. split.
      - apply Rmult_le_pos; [lra|]. apply Rlt_le, Rinv_0_lt_compat. lra.
      - apply Rmult_lt_reg_r with (table p (i + 1) - table p i); [lra|].
        unfold Rdiv. rewrite Rmult_assoc, Rinv_l by lra. lra. }
    assert (Es : (IZR i + delta) / IZR (bins p) * IZR (bins p) = IZR i + delta)
      by (field; lra).
    rewrite (exact_fast_inverse _ i Hi) by (rewrite Es; apply Zfloor_eq; lra).
    f_equal. rewrite Es. unfold delta. field. lra.
  - intros position [H0 H1].
    set (x := position * IZR (bins p)).
    set (i := Zfloor x).
    pose proof (Zfloor_bound x) as Hfl. fold i in Hfl.
    assert (Hi : (0 <= i < bins p)%Z).
    { split.
      - apply (Zfloor_lub 0 x). unfold x. apply Rmult_le_pos; lra.
      - apply lt_IZR. apply Rle_lt_trans with x; [lra|]. unfold x. nra. }
    rewrite (exact_fast_inverse position i Hi eq_refl). fold x.
    pose proof (exact_table_lt i (i + 1) ltac:(lia) ltac:(lia)) as Hlt.
    set (v := (1 - (x - IZR i)) * table p i + (x - IZR i) * table p (i + 1)).
    assert (Hv : table p i <= v < table p (i + 1)) by (unfold v; split; nra).
    pose proof (exact_table_le 0 i ltac:(lia) ltac:(lia)).
    pose proof (exact_table_le (i + 1) (bins p) ltac:(lia) ltac:(lia)).
    exists v. split; [reflexivity|]. split; [lra|].
    rewrite (exact_fast_scale v i Hi (exact_intScale_bin v i Hi Hv)).
    f_equal. unfold v, x. field. lra.
Qed.

(** X21.  In exact arithmetic, on a strictly increasing table, the bin of
    the table entry [inverse (int index)] is [index]. *)
Theorem intScale_inverse_int (index : Z) :
  (0 <= index < bins p)%Z ->
  exists v, FastLogicle.inverse_int p index = Ok v /\
            FastLogicle.intScale p v = Ok index.
Proof.
  intros Hi. exists (table p index). split.
  - unfold FastLogicle.inverse_int.
    replace ((index <? 0) || (index >=? bins p))%Z with false
      by (symmetry; apply orb_false_iff; split;
          [apply Z.ltb_ge | rewrite Z.geb_leb; apply Z.leb_gt]; lia).
    apply load_table; auto; lia.
  - apply exact_intScale_bin; [exact Hi|].
    pose proof (exact_table_lt index (index + 1) ltac:(lia) ltac:(lia)). lra.
Qed.

End ExactTable.

(** ** Bins and labels in exact arithmetic *)

Section ExactBins.
Local Open Scope R_scope.
Local Existing Instance Exact.arith.

(** X22.  In exact arithmetic the adjustment of [A] does what its comment
    says: with more than one bin, [x1 = k / bins] for the integer
    [k = floor (zero * bins + .5)], which lies in the lower half of the
    bins, and the table entry of that bin is data zero,
    [inverse (int k) = 0]. *)
Theorem zero_on_bin_boundary (T0 W0 M0 A0 : R) (bins0 : Z) (p : logicle_params R) :
  FastLogicle.FastLogicle5 T0 W0 M0 A0 bins0 = Ok p -> (1 < bins0)%Z ->
  let k := Exact.zero_bin W0 M0 A0 bins0 in
  (0 <= k < bins0)%Z /\ (2 * k <= bins0 + 1)%Z /\
  x1 p = IZR k / IZR bins0 /\
  FastLogicle.inverse_int p k = Ok 0.
Proof.
  intros H Hb k. apply fast_constructed in H.
  destruct H as (q & Hq & Hf & Hbins & _ & _ & _ & Hinv & Hnth).
  destruct (exact_validated _ _ _ _ _ _ Hq) as (HT & HW & HM & HWM & HA1 & HA2).
  destruct (zero_bin_range W0 M0 A0 bins0 HW HM HWM HA1 HA2 ltac:(lia)) as [Hk0 Hk1].
  fold k in Hk0, Hk1.
  destruct (effective_A _ _ _ _ _ _ Hq ltac:(lia)) as (_ & _ & Hz).
  destruct (Hz Hb) as [Ez Hk]. fold k in Ez, Hk.
  destruct (exact_geometry _ _ _ _ _ _ Hq ltac:(lia))
    as (_ & _ & _ & _ & _ & _ & _ & Ex1 & _).
  apply fast_initialize_Ok in Hf.
  destruct Hf as (_ & _ & _ & _ & _ & _ & _ & _ & _ & Hx1 & _).
  assert (E : x1 p = IZR k / IZR bins0) by (rewrite Hx1, Ex1; exact Ez).
  split; [exact Hk|]. split; [exact Hk1|]. split; [exact E|].
  destruct (Hnth k ltac:(lia)) as [Hn Hi].
  cbn [fdiv of_int Exact.arith] in Hi. rewrite <- E in Hi.
  assert (E0 : Logicle.inverse p (x1 p) = Ok 0).
  { rewrite Hinv, Hx1, inverse_branch.
    rewrite (proj2 (ltb_false_iff (x1 q) (x1 q))) by lra.
    exact (branch_x1 _ _ _ _ _ _ Hq). }
  rewrite E0 in Hi. injection Hi as Hi.
  unfold FastLogicle.inverse_int. rewrite Hbins.
  replace ((k <? 0) || (k >=? bins0))%Z with false
    by (symmetry; apply orb_false_iff; split;
        [apply Z.ltb_ge | rewrite Z.geb_leb; apply Z.leb_gt]; lia).
  rewrite Hi. apply load_Ok. split; [lia | exact Hn].
Qed.

(** With [W = 0] and [A = 0] the accelerated transform is constructed for
    every number of bins. *)
Lemma exact_fast_arcsinh (T0 M0 : R) (bins0 : Z) :
  0 < T0 -> 0 < M0 -> (0 <= bins0 < INT_MAX)%Z ->
  exists p, FastLogicle.FastLogicle5 T0 0 M0 0 bins0 = Ok p.
Proof.
  intros HT HM Hb.
  assert (Hq : exists q, Logicle.initialize T0 0 M0 0 bins0 = Ok q).
  { unfold Logicle.initialize.
    cbn [fle flt fadd fsub fmul fdiv fneg ffloor of_int Exact.arith].
    rewrite (proj2 (leb_false_iff T0 0)) by lra.
    rewrite (proj2 (ltb_false_iff 0 0)) by lra.
    rewrite (proj2 (leb_false_iff M0 0)) by lra.
    rewrite (proj2 (ltb_false_iff M0 (2 * 0))) by lra.
    rewrite (proj2 (ltb_false_iff 0 (- 0))) by lra.
    rewrite (proj2 (ltb_false_iff (M0 - 0) (0 + 0))) by lra.
    cbn [orb].
    match goal with |- context [Logicle.solve ?x ?y] =>
      assert (Es : Logicle.solve x y = Ok x) end.
    { unfold Logicle.solve, Logicle.solve_run. cbn [feq fdiv of_int Exact.arith].
      match goal with |- context [Exact.eqb ?u 0] =>
        rewrite (proj2 (eqb_true_iff u 0)) by (unfold Rdiv; ring) end.
      reflexivity. }
    rewrite Es. cbn [bind].
    match goal with |- context [store ?l ?i ?v] =>
      destruct (store l i v) as [t1| |] eqn:Et end; cbn [bind].
    - eexists. reflexivity.
    - exfalso. exact (store_not_Throw _ _ _ _ Et).
    - exfalso. revert Et. cbn. discriminate. }
  destruct Hq as [q Hq].
  unfold FastLogicle.FastLogicle5, Logicle.Logicle5. rewrite Hq. cbn [bind].
  unfold FastLogicle.initialize.
  assert (Hw : iadd bins0 1 = (bins0 + 1)%Z).
  { apply wrap_id. unfold in_int, INT_MIN, INT_MAX in *. lia. }
  rewrite Hw. destruct (Z.ltb_spec (bins0 + 1) 0); [lia|].
  apply initialize_Ok in Hq.
  destruct (lookup_loop_total q bins0 (Z.to_nat (bins0 + 1)) 0 ltac:(tauto)) as [l ->].
  cbn [bind]. eexists. reflexivity.
Qed.

End ExactBins.

Section ExactSorted.
Local Open Scope R_scope.
Local Existing Instance Exact.arith.

Lemma decade_pow (x : R) (n : nat) : decade x n = x * 10 ^ n.
Proof.
  revert x. induction n as [|n IH]; intros x; cbn [decade pow]; [ring|].
  rewrite IH. cbn [fmul of_int Exact.arith]. ring.
Qed.

Lemma pow10_lt (n m : nat) : (n < m)%nat -> 10 ^ n < 10 ^ m.
Proof. intros H. apply Rlt_pow; [lra | exact H]. Qed.

(** X23.  In exact arithmetic the labels of a constructed transform are
    in strictly increasing order.  (A single bin is left out, as for the
    coefficients.) *)
Theorem axisLabels_sorted (T0 W0 M0 A0 : R) (bins0 : Z) (p : logicle_params R)
    (l0 labels : list R) (i j : nat) (y z : R) :
  Logicle.initialize T0 W0 M0 A0 bins0 = Ok p -> bins0 <> 1%Z ->
  Logicle.axisLabels p l0 = Ok labels ->
  (i < j)%nat -> nth_error labels i = Some y -> nth_error labels j = Some z ->
  y < z.
Proof.
  intros Hp _ Hl Hij Hi Hj.
  assert (HT : 0 < T p).
  { destruct (exact_validated _ _ _ _ _ _ Hp) as (HT & _).
    apply initialize_Ok in Hp. destruct Hp as (_ & _ & _ & _ & _ & _ & -> & _). exact HT. }
  apply axisLabels_inv in Hl.
  destruct Hl as (nn & np & x & Hc & Hle & Hlen & Hnth).
  pose proof (label_counts_pos p nn np x HT Hc) as Hx.
  assert (Hjl : (j < List.length labels)%nat) by (apply nth_error_Some; congruence).
  pose proof (Hnth (Z.of_nat i) ltac:(lia)) as Ei.
  pose proof (Hnth (Z.of_nat j) ltac:(lia)) as Ej.
  rewrite Nat2Z.id in Ei, Ej.
  rewrite Hi in Ei. rewrite Hj in Ej. injection Ei as ->. injection Ej as ->.
  unfold label_at. cbn [fneg of_int Exact.arith]. rewrite !decade_pow.
  assert (Hp10 : forall n, 0 < 10 ^ n) by (intros n; apply pow_lt; lra).
  destruct (Z.ltb_spec (Z.of_nat i) nn) as [H1|H1];
    [|destruct (Z.eqb_spec (Z.of_nat i) nn) as [H2|H2]];
    (destruct (Z.ltb_spec (Z.of_nat j) nn) as [H3|H3];
     [|destruct (Z.eqb_spec (Z.of_nat j) nn) as [H4|H4]]); try lia.
  - pose proof (pow10_lt (Z.to_nat (nn - 1 - Z.of_nat j)) (Z.to_nat (nn - 1 - Z.of_nat i))
                  ltac:(lia)).
    nra.
  - pose proof (Hp10 (Z.to_nat (nn - 1 - Z.of_nat i))). nra.
  - pose proof (Hp10 (Z.to_nat (nn - 1 - Z.of_nat i))).
    pose proof (Hp10 (Z.to_nat (Z.of_nat j - nn - 1))). nra.
  - pose proof (Hp10 (Z.to_nat (Z.of_nat j - nn - 1))). nra.
  - pose proof (pow10_lt (Z.to_nat (Z.of_nat i - nn - 1)) (Z.to_nat (Z.of_nat j - nn - 1))
                  ltac:(lia)).
    nra.
Qed.

End ExactSorted.

Section ExactTop.
Local Open Scope R_scope.
Local Existing Instance Exact.arith.

Lemma exp_ln10_nat (n : nat) : exp (ln 10 * INR n) = 10 ^ n.
Proof.
  induction n as [|n IH].
  - cbn. rewrite Rmult_0_r. apply exp_0.
  - rewrite S_INR, Rmult_plus_distr_l, Rmult_1_r, exp_plus, IH, exp_ln by lra.
    cbn [pow]. ring.
Qed.

(** X24.  In exact arithmetic the last label of a constructed transform
    is the top decade of the scale: it is at most [T] and more than
    [T / 10].  (A single bin is left out, as for the coefficients.) *)
Theorem axisLabels_top (T0 W0 M0 A0 : R) (bins0 : Z) (p : logicle_params R)
    (l0 labels : list R) :
  Logicle.initialize T0 W0 M0 A0 bins0 = Ok p -> bins0 <> 1%Z ->
  Logicle.axisLabels p l0 = Ok labels ->
  exists y, nth_error labels (List.length labels - 1) = Some y /\
            y <= T0 < 10 * y.
Proof.
  intros Hp _ Hl.
  assert (HT : 0 < T p /\ T p = T0).
  { destruct (exact_validated _ _ _ _ _ _ Hp) as (HT & _).
    apply initialize_Ok in Hp. destruct Hp as (_ & _ & _ & _ & _ & _ & -> & _). auto. }
  destruct HT as [HT ET].
  apply axisLabels_inv in Hl.
  destruct Hl as (nn & np & x & Hc & Hle & Hlen & Hnth).
  pose proof ln_10_pos as Hln.
  (* the count of positive labels and the first of them *)
  assert (Hnp : (1 <= np)%Z /\ x * 10 ^ Z.to_nat (np - 1) <= T p < 10 * (x * 10 ^ Z.to_nat (np - 1))).
  { revert Hc. unfold Logicle.label_counts, Logicle.label_counts_of, Logicle.LN_10.
    cbn [fceil ffloor flog fexp fsub fmul fdiv fneg flt feq of_int to_int Exact.arith].
    set (L := Zceil (ln (T p) / ln 10 - (M p - 2 * W p))).
    destruct (Exact.ltb (T p) (exp (ln 10 * IZR L))) eqn:Ex;
      (destruct (Logicle.inverse p (IZR 0)) as [B| |]; cbn [bind]; [|discriminate..]).
    - intros [= _ <- <-]. split; [lia|]. cbn. lra.
    - intros [= _ Enp <-].
      apply ltb_false_iff in Ex.
      set (u := ln (T p) / ln 10 - IZR L) in *.
      set (F := Zfloor u) in *.
      pose proof (Zfloor_bound u) as Hfl. fold F in Hfl.
      assert (Hu : 0 <= u).
      { unfold u. assert (ln 10 * IZR L <= ln (T p)).
        { rewrite <- (ln_exp (ln 10 * IZR L)).
          destruct Ex as [Ex|Ex]; [left; apply ln_increasing; [apply exp_pos | exact Ex]|].
          right. rewrite Ex. reflexivity. }
        assert (IZR L <= ln (T p) / ln 10).
        { apply Rmult_le_reg_l with (ln 10); [lra|].
          unfold Rdiv. rewrite (Rmult_comm (ln (T p))), <- Rmult_assoc, Rinv_r, Rmult_1_l; lra. }
        lra. }
      assert (HF0 : (0 <= F)%Z) by (apply (Zfloor_lub 0 u); cbn; lra).
      rewrite cast_int_IZR in Enp.
      assert (HF : np = (F + 1)%Z).
      { assert (Hnp0 : (0 <= np)%Z) by lia.
        clear - Enp Hnp0 HF0. clearbody F.
        unfold iadd, wrap, INT_MIN, INT_MAX in Enp.
        destruct (Z.leb_spec (- 2 ^ 31) F);
          destruct (Z.leb_spec F (2 ^ 31 - 1)); cbn [andb] in Enp;
          change (2 ^ 31)%Z with 2147483648%Z in *;
          change (2 ^ 32)%Z with 4294967296%Z in *;
          subst np; Z.div_mod_to_equations; lia. }
      split; [lia|].
      replace (np - 1)%Z with F by lia.
      rewrite <- exp_ln10_nat, <- exp_plus, <- Rmult_plus_distr_l.
      rewrite INR_IZR_INZ, Z2Nat.id, <- plus_IZR by lia.
      assert (E10 : 10 * exp (ln 10 * IZR (L + F)) = exp (ln 10 * (IZR (L + F) + 1))).
      { rewrite Rmult_plus_distr_l, Rmult_1_r, exp_plus, exp_ln by lra. ring. }
      rewrite E10, plus_IZR.
      assert (E1 : ln (T p) = ln 10 * (u + IZR L)).
      { unfold u. field. lra. }
      assert (ET' : T p = exp (ln 10 * (u + IZR L))).
      { rewrite <- E1, exp_ln; [reflexivity | lra]. }
      clearbody u. rewrite ET'.
      split.
      + destruct (Req_dec (IZR L + IZR F) (u + IZR L)) as [->|Hne]; [lra|].
        left. apply exp_increasing. nra.
      + apply exp_increasing. nra. }
  destruct Hnp as [Hnp1 Hy].
  exists (x * 10 ^ Z.to_nat (np - 1)). split; [|rewrite <- ET; exact Hy].
  replace (List.length labels - 1)%nat with (Z.to_nat (nn + np)) by lia.
  rewrite Hnth by lia. f_equal. unfold label_at.
  destruct (Z.ltb_spec (nn + np) nn); [lia|].
  destruct (Z.eqb_spec (nn + np) nn); [lia|].
  rewrite decade_pow. f_equal. f_equal. f_equal. lia.
Qed.

End ExactTop.

(** ** Monotonicity in exact arithmetic *)

Section ExactMonotone.
Local Open Scope R_scope.
Local Existing Instance Exact.arith.

(** Outside the Taylor window [inverse] is the closed form, mirrored on the
    left of [x1]. *)
Lemma inverse_closed_form (T0 W0 M0 A0 : R) (bins0 : Z) (p : logicle_params R) :
  Logicle.initialize T0 W0 M0 A0 bins0 = Ok p -> bins0 <> 1%Z ->
  let g r := (a p * exp (b p * r) + f p) - c p / exp (d p * r) in
  (forall r1 r2, r1 < r2 -> g r1 < g r2) /\ g (x1 p) = 0 /\ g 1 = T0 /\
  (forall r, xTaylor p <= r -> Logicle.inverse p r = Ok (g r)) /\
  (forall r, r <= 2 * x1 p - xTaylor p ->
     Logicle.inverse p r = Ok (- g (2 * x1 p - r))).
Proof.
  intros H Hb g.
  destruct (exact_geometry _ _ _ _ _ _ H Hb)
    as (Ha0 & Hb0 & Hc0 & Hd0 & Hw0 & Hx1 & HxT & _ & Hz & Htop).
  assert (Hmono : forall r1 r2, r1 < r2 -> g r1 < g r2).
  { intros r1 r2 Hr. unfold g.
    assert (exp (b p * r1) < exp (b p * r2)) by (apply exp_increasing; nra).
    assert (/ exp (d p * r2) < / exp (d p * r1)).
    { apply Rinv_lt_contravar; [apply Rmult_lt_0_compat; apply exp_pos|].
      apply exp_increasing. nra. }
    unfold Rdiv. nra. }
  assert (Hg : forall r, xTaylor p <= r -> Logicle.inverse p r = Ok (g r)).
  { intros r Hr. rewrite inverse_branch.
    rewrite (proj2 (ltb_false_iff r (x1 p))) by lra.
    unfold Exact.branch. rewrite (proj2 (ltb_false_iff r (xTaylor p))) by lra.
    reflexivity. }
  split; [exact Hmono|]. split; [exact Hz|]. split; [exact Htop|].
  split; [exact Hg|].
  intros r Hr. destruct (Rlt_dec r (x1 p)) as [Hlt|Hge].
  - rewrite inverse_branch. rewrite (proj2 (ltb_true_iff r (x1 p)) Hlt).
    unfold Exact.branch.
    rewrite (proj2 (ltb_false_iff (2 * x1 p - r) (xTaylor p))) by lra.
    reflexivity.
  - assert (r = x1 p) by lra. subst r.
    replace (2 * x1 p - x1 p) with (x1 p) by ring.
    rewrite Hg by lra. change (g (x1 p) = 0) in Hz. rewrite Hz. f_equal. ring.
Qed.

(** X25.  In exact arithmetic [inverse] is strictly increasing outside the
    Taylor window: for [s < t], both outside the open interval between
    [2 * x1 - xTaylor] and [xTaylor], [inverse (s) < inverse (t)]; it is not
    negative from [xTaylor] on, and at most [T] up to the position 1. *)
Theorem inverse_increasing (T0 W0 M0 A0 : R) (bins0 : Z) (p : logicle_params R)
    (s t : R) :
  Logicle.initialize T0 W0 M0 A0 bins0 = Ok p -> bins0 <> 1%Z ->
  s <= 2 * x1 p - xTaylor p \/ xTaylor p <= s ->
  t <= 2 * x1 p - xTaylor p \/ xTaylor p <= t ->
  s < t ->
  exists u v, Logicle.inverse p s = Ok u /\ Logicle.inverse p t = Ok v /\
              u < v /\ (xTaylor p <= s -> 0 <= u) /\ (t <= 1 -> v <= T0).
Proof.
  intros H Hb Hs Ht Hst.
  destruct (exact_geometry _ _ _ _ _ _ H Hb)
    as (_ & _ & _ & _ & _ & Hx1 & HxT & _).
  destruct (inverse_closed_form _ _ _ _ _ _ H Hb) as (Hmono & Hz & Htop & Hg & Hm).
  cbv zeta beta in *.
  assert (Hle : forall r1 r2, r1 <= r2 ->
            (a p * exp (b p * r1) + f p) - c p / exp (d p * r1) <=
            (a p * exp (b p * r2) + f p) - c p / exp (d p * r2)).
  { intros r1 r2 [Hr| ->]; [left; apply Hmono; exact Hr | right; reflexivity]. }
  destruct Hs as [Hs|Hs]; destruct Ht as [Ht|Ht].
  - rewrite (Hm s Hs), (Hm t Ht). eexists. eexists.
    split; [reflexivity|]. split; [reflexivity|].
    pose proof (Hmono (2 * x1 p - t) (2 * x1 p - s) ltac:(lra)).
    pose proof (Hle (x1 p) (2 * x1 p - t) ltac:(lra)).
    pose proof (Hle (x1 p) 1 ltac:(lra)).
    split; [lra|]. split; [intros; lra|]. intros _. lra.
  - rewrite (Hm s Hs), (Hg t Ht). eexists. eexists.
    split; [reflexivity|]. split; [reflexivity|].
    pose proof (Hle (x1 p) (2 * x1 p - s) ltac:(lra)).
    pose proof (Hle (x1 p) t ltac:(lra)).
    split.
    + destruct (Req_dec t (x1 p)) as [E|Hne].
      * pose proof (Hmono (x1 p) (2 * x1 p - s) ltac:(lra)). lra.
      * pose proof (Hmono (x1 p) t ltac:(lra)). lra.
    + split.
      * intros Hxs. assert (Es : 2 * x1 p - s = x1 p) by lra. rewrite Es. lra.
      * intros Ht1. pose proof (Hle t 1 Ht1). lra.
  - exfalso. lra.
  - rewrite (Hg s Hs), (Hg t Ht). eexists. eexists.
    split; [reflexivity|]. split; [reflexivity|].
    pose proof (Hle (x1 p) s ltac:(lra)).
    split; [apply Hmono; exact Hst|]. split; [intros; lra|].
    intros Ht1. pose proof (Hle t 1 Ht1). lra.
Qed.

(** With [W = 0] there is no Taylor window. *)
Lemma arcsinh_no_window (T0 M0 A0 : R) (bins0 : Z) (p : logicle_params R) :
  Logicle.initialize T0 0 M0 A0 bins0 = Ok p -> xTaylor p = x1 p.
Proof.
  intros H. pose proof (initialize_fields _ _ _ _ _ _ H) as Hf. cbv zeta in Hf.
  destruct Hf as (d' & _ & _ & _ & _ & _ & _ & _ & _ & _ & _ & _ & _ & Hx1 & _ & HxT).
  rewrite HxT, Hx1. cbn [fadd fdiv of_int Exact.arith]. unfold Rdiv. ring.
Qed.

(** Without a Taylor window every entry of the table is a value of the
    closed form, which increases. *)
Lemma closed_form_table_increasing (T0 W0 M0 A0 : R) (bins0 : Z)
    (p : logicle_params R) :
  FastLogicle.FastLogicle5 T0 W0 M0 A0 bins0 = Ok p -> (1 < bins0)%Z ->
  xTaylor p = x1 p ->
  strictly_increasing (lookup p).
Proof.
  intros H Hb Hw. apply fast_constructed in H.
  destruct H as (q & Hq & Hf & Hbins & _ & Hlen & _ & Hinv & Hnth).
  apply fast_initialize_Ok in Hf.
  destruct Hf as (_ & _ & _ & _ & _ & _ & _ & _ & _ & Ex1 & ExT & _).
  rewrite Ex1, ExT in Hw.
  destruct (inverse_closed_form _ _ _ _ _ _ Hq ltac:(lia)) as (Hmono & Hz & _ & Hg & Hm).
  cbv zeta beta in *. rewrite Hw in Hg, Hm.
  assert (Hn : 0 < IZR bins0) by (apply IZR_lt; lia).
  intros i j x y Hij Hi Hj. cbn [flt Exact.arith]. apply ltb_true_iff.
  assert (Hjl : (j < List.length (lookup p))%nat) by (apply nth_error_Some; congruence).
  destruct (Hnth (Z.of_nat i) ltac:(lia)) as [Ei Vi].
  destruct (Hnth (Z.of_nat j) ltac:(lia)) as [Ej Vj].
  rewrite Nat2Z.id in Ei, Ej. rewrite Hi in Ei. rewrite Hj in Ej.
  injection Ei as Ei. injection Ej as Ej.
  rewrite Hinv in Vi, Vj. rewrite <- Ei in Vi. rewrite <- Ej in Vj.
  cbn [fdiv of_int Exact.arith] in Vi, Vj.
  assert (Hlt : IZR (Z.of_nat i) / IZR bins0 < IZR (Z.of_nat j) / IZR bins0).
  { unfold Rdiv. apply Rmult_lt_compat_r; [apply Rinv_0_lt_compat; exact Hn|].
    apply IZR_lt. lia. }
  set (s := IZR (Z.of_nat i) / IZR bins0) in *.
  set (t := IZR (Z.of_nat j) / IZR bins0) in *.
  assert (Hle : forall r1 r2, r1 <= r2 ->
            (a q * exp (b q * r1) + f q) - c q / exp (d q * r1) <=
            (a q * exp (b q * r2) + f q) - c q / exp (d q * r2)).
  { intros r1 r2 [Hr| ->]; [left; apply Hmono; exact Hr | right; reflexivity]. }
  destruct (Rle_dec s (x1 q)) as [Hs|Hs]; destruct (Rle_dec t (x1 q)) as [Ht|Ht].
  - rewrite (Hm s) in Vi by lra. rewrite (Hm t) in Vj by lra.
    injection Vi as <-. injection Vj as <-.
    pose proof (Hmono (2 * x1 q - t) (2 * x1 q - s) ltac:(lra)). lra.
  - rewrite (Hm s) in Vi by lra. rewrite (Hg t) in Vj by lra.
    injection Vi as <-. injection Vj as <-.
    pose proof (Hle (x1 q) (2 * x1 q - s) ltac:(lra)).
    pose proof (Hmono (x1 q) t ltac:(lra)). lra.
  - exfalso. lra.
  - rewrite (Hg s) in Vi by lra. rewrite (Hg t) in Vj by lra.
    injection Vi as <-. injection Vj as <-. apply Hmono. exact Hlt.
Qed.

(** X26.  In exact arithmetic the table of an accelerated transform with
    [W = 0] and more than one bin is strictly increasing: with [W = 0] the
    Taylor window is empty and every entry is a value of the closed form. *)
Theorem arcsinh_table_increasing (T0 M0 A0 : R) (bins0 : Z) (p : logicle_params R) :
  FastLogicle.FastLogicle5 T0 0 M0 A0 bins0 = Ok p -> (1 < bins0)%Z ->
  strictly_increasing (lookup p).
Proof.
  intros H Hb. apply (closed_form_table_increasing _ _ _ _ _ _ H Hb).
  pose proof H as H'. apply fast_constructed in H'.
  destruct H' as (q & Hq & Hf & _).
  apply fast_initialize_Ok in Hf.
  destruct Hf as (_ & _ & _ & _ & _ & _ & _ & _ & _ & Ex1 & ExT & _).
  rewrite Ex1, ExT. exact (arcsinh_no_window _ _ _ _ _ Hq).
Qed.

(** X27.  In exact arithmetic the last entry of the table of an
    accelerated transform is [T], the value at the position 1; on an
    increasing table the accelerated [scale] and [intScale] reject [T]
    itself with [IllegalArgument], as the accelerated [inverse] rejects the
    position 1, although the engine maps the one to the other. *)
Theorem top_value_rejected (T0 W0 M0 A0 : R) (bins0 : Z) (p : logicle_params R) :
  FastLogicle.FastLogicle5 T0 W0 M0 A0 bins0 = Ok p -> (1 < bins0 < 2 ^ 30)%Z ->
  strictly_increasing (lookup p) ->
  table p bins0 = T0 /\
  FastLogicle.intScale p T0 = Throw (IllegalArgument T0) /\
  FastLogicle.scale p T0 = Throw (IllegalArgument T0) /\
  FastLogicle.inverse p 1 = Throw (IllegalArgument 1).
Proof.
  intros H Hb Hinc. apply fast_constructed in H.
  destruct H as (q & Hq & Hf & Hbins & _ & Hlen & _ & Hinv & Hnth).
  destruct (Hnth bins0 ltac:(lia)) as [_ Vb].
  cbn [fdiv of_int Exact.arith] in Vb.
  assert (Hn : 0 < IZR bins0) by (apply IZR_lt; lia).
  replace (IZR bins0 / IZR bins0) with 1 in Vb by (field; lra).
  rewrite Hinv in Vb.
  destruct (exact_geometry _ _ _ _ _ _ Hq ltac:(lia))
    as (_ & _ & _ & _ & _ & Hx1 & HxT & _ & _ & Etop).
  rewrite inverse_branch in Vb.
  rewrite (proj2 (ltb_false_iff 1 (x1 q))) in Vb by lra.
  unfold Exact.branch in Vb.
  rewrite (proj2 (ltb_false_iff 1 (xTaylor q))) in Vb by lra.
  rewrite Etop in Vb. injection Vb as Vb.
  assert (Hr : (0 < bins p < 2 ^ 30)%Z) by (rewrite Hbins; lia).
  assert (Hl : Z.of_nat (List.length (lookup p)) = (bins p + 1)%Z)
    by (rewrite Hbins, Hlen; lia).
  assert (Ei : FastLogicle.intScale p T0 = Throw (IllegalArgument T0)).
  { apply (exact_intScale_outside p Hr Hl Hinc). right. rewrite Hbins, <- Vb. lra. }
  split; [symmetry; exact Vb|]. split; [exact Ei|]. split.
  - unfold FastLogicle.scale. rewrite Ei. reflexivity.
  - unfold FastLogicle.inverse. cbn [fmul ffloor to_int of_int Exact.arith].
    rewrite Rmult_1_l, ZfloorZ, cast_int_IZR, Hbins.
    unfold INT_MIN, INT_MAX.
    replace ((- 2 ^ 31 <=? bins0) && (bins0 <=? 2 ^ 31 - 1))%Z with true
      by (symmetry; apply andb_true_iff; split; apply Z.leb_le; lia).
    replace ((bins0 <? 0) || (bins0 >=? bins0))%Z with true
      by (symmetry; apply orb_true_iff; right; rewrite Z.geb_leb; apply Z.leb_le; lia).
    reflexivity.
Qed.

End ExactMonotone.

(** ** Instances in exact arithmetic *)

Section ExactInstances.
Local Open Scope R_scope.
Local Existing Instance Exact.arith.

Lemma two_bins_increasing : strictly_increasing (lookup Exact.two_bins).
Proof.
  intros i j x y Hij Hi Hj. cbn [lookup Exact.two_bins] in Hi, Hj.
  cbn [flt Exact.arith]. apply ltb_true_iff.
  destruct i as [|[|[|i]]]; destruct j as [|[|[|j]]]; cbn in Hi, Hj;
    try lia; try discriminate;
    try (injection Hi as <-); try (injection Hj as <-); try lra;
    try (destruct i; discriminate); try (destruct j; discriminate).
Qed.

Lemma solve_bracket_witness :
  (forall d0, Logicle.solve 1 1 = Ok d0 -> 0 < d0 <= 1 /\ (1 = 0 -> d0 = 1)) /\
  (forall e, Logicle.solve 1 1 = Throw e ->
     0 < 1 /\ e = DidNotConverge "exceeded maximum iterations in solve()") /\
  Logicle.solve 1 1 <> Undefined /\
  (1 = 0 -> Logicle.solve 1 1 = Ok 1).
Proof.
  apply (solve_bracket 1 1); lra.
Defined.

Lemma coefficients_positive_witness :
  exists p : logicle_params R,
    Logicle.initialize 1 0 (9 / 2) 0 0 = Ok p /\
    (0 < a p /\ 0 < b p /\ 0 < c p /\ 0 < d p <= b p /\
     0 <= w p /\ 0 <= x1 p < 1 /\ x1 p <= xTaylor p < 1 /\
     ((0 <= 0)%Z -> x1 p <= 1 / 2)).
Proof.
  destruct (exact_initialize_arcsinh 1 (9 / 2)) as [p Hp]; [lra | lra |].
  exists p. split; [exact Hp|].
  apply (coefficients_positive 1 0 (9 / 2) 0 0 p Hp). lia.
Defined.

Lemma inverse_top_witness :
  exists p : logicle_params R,
    Logicle.initialize 1 0 (9 / 2) 0 0 = Ok p /\ Logicle.inverse p 1 = Ok 1.
Proof.
  destruct (exact_initialize_arcsinh 1 (9 / 2)) as [p Hp]; [lra | lra |].
  exists p. split; [exact Hp|].
  apply (inverse_top 1 0 (9 / 2) 0 0 p Hp). lia.
Defined.

Lemma inverse_zero_witness :
  exists p : logicle_params R,
    Logicle.initialize 1 0 (9 / 2) 0 0 = Ok p /\
    (Logicle.inverse p (x1 p) = Ok 0 /\
     exists s, Logicle.scale p 0 = Ok s /\ Logicle.inverse p s = Ok 0).
Proof.
  destruct (exact_initialize_arcsinh 1 (9 / 2)) as [p Hp]; [lra | lra |].
  exists p. split; [exact Hp|].
  apply (inverse_zero 1 0 (9 / 2) 0 0 p Hp). lia.
Defined.

Lemma slope_spec_witness :
  exists p : logicle_params R,
    Logicle.initialize 1 0 (9 / 2) 0 0 = Ok p /\
    (Logicle.slope p (2 * x1 p - 1 / 4) = Logicle.slope p (1 / 4) /\
     0 < Logicle.slope p (1 / 4) /\
     0 < Logicle.dynamicRange p).
Proof.
  destruct (exact_initialize_arcsinh 1 (9 / 2)) as [p Hp]; [lra | lra |].
  exists p. split; [exact Hp|].
  apply (slope_spec 1 0 (9 / 2) 0 0 p (1 / 4) Hp). lia.
Defined.

Lemma inverse_increasing_witness :
  exists p : logicle_params R,
    Logicle.initialize 1 0 (9 / 2) 0 0 = Ok p /\
    exists u v, Logicle.inverse p 1 = Ok u /\ Logicle.inverse p 2 = Ok v /\
                u < v /\ (xTaylor p <= 1 -> 0 <= u) /\ (2 <= 1 -> v <= 1).
Proof.
  destruct (exact_initialize_arcsinh 1 (9 / 2)) as [p Hp]; [lra | lra |].
  exists p. split; [exact Hp|].
  destruct (exact_geometry _ _ _ _ _ _ Hp ltac:(lia)) as (_ & _ & _ & _ & _ & _ & H & _).
  apply (inverse_increasing 1 0 (9 / 2) 0 0 p 1 2 Hp); [lia | right; lra | right; lra | lra].
Defined.

Lemma arcsinh_table_increasing_witness :
  exists p : logicle_params R,
    FastLogicle.FastLogicle5 1 0 (9 / 2) 0 2 = Ok p /\
    strictly_increasing (lookup p).
Proof.
  destruct (exact_fast_arcsinh 1 (9 / 2) 2) as [p Hp];
    [lra | lra | unfold INT_MAX; lia |].
  exists p. split; [exact Hp|].
  apply (arcsinh_table_increasing 1 (9 / 2) 0 2 p Hp). lia.
Defined.

Lemma top_value_rejected_witness :
  exists p : logicle_params R,
    FastLogicle.FastLogicle5 1 0 (9 / 2) 0 2 = Ok p /\
    (table p 2 = 1 /\
     FastLogicle.intScale p 1 = Throw (IllegalArgument 1) /\
     FastLogicle.scale p 1 = Throw (IllegalArgument 1) /\
     FastLogicle.inverse p 1 = Throw (IllegalArgument 1)).
Proof.
  destruct (exact_fast_arcsinh 1 (9 / 2) 2) as [p Hp];
    [lra | lra | unfold INT_MAX; lia |].
  exists p. split; [exact Hp|].
  apply (top_value_rejected 1 0 (9 / 2) 0 2 p Hp); [lia|].
  apply (closed_form_table_increasing _ _ _ _ _ _ Hp); [lia|].
  pose proof Hp as H'. apply fast_constructed in H'.
  destruct H' as (q & Hq & Hf & _).
  apply fast_initialize_Ok in Hf.
  destruct Hf as (_ & _ & _ & _ & _ & _ & _ & _ & _ & Ex1 & ExT & _).
  rewrite Ex1, ExT. exact (arcsinh_no_window _ _ _ _ _ Hq).
Defined.

Lemma taylor_coefficients_witness :
  exists p : logicle_params R,
    Logicle.initialize 1 0 (9 / 2) 0 0 = Ok p /\
    nth_error (taylor p) 2 =
      Some (if Nat.eqb 2 1 then 0
            else (a p * exp (b p * x1 p) * b p ^ (2 + 1)
                  + - c p / exp (d p * x1 p) * (- d p) ^ (2 + 1)) / INR (fact (2 + 1))).
Proof.
  destruct (exact_initialize_arcsinh 1 (9 / 2)) as [p Hp]; [lra | lra |].
  exists p. split; [exact Hp|].
  apply (taylor_coefficients 1 0 (9 / 2) 0 0 p 2 Hp). lia.
Defined.

Lemma series_polynomial_witness :
  exists p : logicle_params R,
    Logicle.initialize 1 0 (9 / 2) 0 0 = Ok p /\
    Logicle.seriesBiexponential p (1 / 100) =
      Ok (sum_f_R0 (fun k => nth k (taylor p) 0 * (1 / 100 - x1 p) ^ (k + 1)) 15).
Proof.
  destruct (exact_initialize_arcsinh 1 (9 / 2)) as [p Hp]; [lra | lra |].
  exists p. split; [exact Hp|].
  exact (series_polynomial 1 0 (9 / 2) 0 0 p (1 / 100) Hp).
Defined.

(** On the table 0, 1, 3 of two bins the value 2 is half way through the
    second bin. *)
Lemma fast_scale_spec_witness :
  (FastLogicle.scale Exact.two_bins 2 = Throw (IllegalArgument 2) <->
   ~ (table Exact.two_bins 0 <= 2 < table Exact.two_bins (bins Exact.two_bins))) /\
  (table Exact.two_bins 0 <= 2 < table Exact.two_bins (bins Exact.two_bins) ->
   exists (i : Z) (s : R),
     FastLogicle.intScale Exact.two_bins 2 = Ok i /\
     FastLogicle.scale Exact.two_bins 2 = Ok s /\
     IZR i / IZR (bins Exact.two_bins) <= s < (IZR i + 1) / IZR (bins Exact.two_bins) /\
     0 <= s < 1 /\ Zfloor (s * IZR (bins Exact.two_bins)) = i).
Proof.
  apply (fast_scale_spec Exact.two_bins).
  - cbn. lia.
  - reflexivity.
  - exact two_bins_increasing.
Defined.

Lemma fast_round_trip_witness :
  (forall v, table Exact.two_bins 0 <= v < table Exact.two_bins (bins Exact.two_bins) ->
     exists s, FastLogicle.scale Exact.two_bins v = Ok s /\
               FastLogicle.inverse Exact.two_bins s = Ok v) /\
  (forall position, 0 <= position < 1 ->
     exists v, FastLogicle.inverse Exact.two_bins position = Ok v /\
               table Exact.two_bins 0 <= v < table Exact.two_bins (bins Exact.two_bins) /\
               FastLogicle.scale Exact.two_bins v = Ok position).
Proof.
  apply (fast_round_trip Exact.two_bins).
  - cbn. lia.
  - reflexivity.
  - exact two_bins_increasing.
Defined.

Lemma intScale_inverse_int_witness :
  exists v, FastLogicle.inverse_int Exact.two_bins 1 = Ok v /\
            FastLogicle.intScale Exact.two_bins v = Ok 1%Z.
Proof.
  apply (intScale_inverse_int Exact.two_bins).
  - cbn. lia.
  - reflexivity.
  - exact two_bins_increasing.
  - cbn. lia.
Defined.

Lemma zero_on_bin_boundary_witness :
  exists p : logicle_params R,
    FastLogicle.FastLogicle5 1 0 (9 / 2) 0 2 = Ok p /\
    ((0 <= Exact.zero_bin 0 (9 / 2) 0 2 < 2)%Z /\
     (2 * Exact.zero_bin 0 (9 / 2) 0 2 <= 2 + 1)%Z /\
     x1 p = IZR (Exact.zero_bin 0 (9 / 2) 0 2) / IZR 2 /\
     FastLogicle.inverse_int p (Exact.zero_bin 0 (9 / 2) 0 2) = Ok 0).
Proof.
  destruct (exact_fast_arcsinh 1 (9 / 2) 2) as [p Hp];
    [lra | lra | unfold INT_MAX; lia |].
  exists p. split; [exact Hp|].
  apply (zero_on_bin_boundary 1 0 (9 / 2) 0 2 p Hp). lia.
Defined.

Lemma axisLabels_sorted_witness :
  exists (p : logicle_params R) (labels : list R) (y z : R),
    Logicle.initialize 1 0 (9 / 2) 0 0 = Ok p /\
    Logicle.axisLabels p [] = Ok labels /\
    nth_error labels 0 = Some y /\ nth_error labels 1 = Some z /\ y < z.
Proof.
  destruct exact_labels_example as (p & Hp & Hl). cbv zeta in Hl.
  exists p. eexists. eexists. eexists.
  split; [exact Hp|]. split; [exact Hl|].
  split; [reflexivity|]. split; [reflexivity|].
  assert (Hb : (0 <> 1)%Z) by lia.
  apply (axisLabels_sorted 1 0 (9 / 2) 0 0 p [] _ 0 1 _ _ Hp Hb Hl);
    [lia | reflexivity | reflexivity].
Defined.

Lemma axisLabels_top_witness :
  exists (p : logicle_params R) (labels : list R),
    Logicle.initialize 1 0 (9 / 2) 0 0 = Ok p /\
    Logicle.axisLabels p [] = Ok labels /\
    exists y, nth_error labels (List.length labels - 1) = Some y /\ y <= 1 < 10 * y.
Proof.
  destruct exact_labels_example as (p & Hp & Hl). cbv zeta in Hl.
  exists p. eexists. split; [exact Hp|]. split; [exact Hl|].
  assert (Hb : (0 <> 1)%Z) by lia.
  exact (axisLabels_top 1 0 (9 / 2) 0 0 p [] _ Hp Hb Hl).
Defined.

End ExactInstances.

(** ** More runs in binary64 *)

Section MoreRuns.
Local Open Scope float_scope.

Lemma ltb_nan_l (x : float) : PrimFloat.ltb nan x = false.
Proof. rewrite ltb_spec. change (Prim2SF nan) with S754_nan. reflexivity. Qed.

Lemma ltb_nan_r (x : float) : PrimFloat.ltb x nan = false.
Proof.
  rewrite ltb_spec. change (Prim2SF nan) with S754_nan.
  destruct (Prim2SF x) as [| | |]; reflexivity.
Qed.

(** X28.  In binary64 [intScale (NaN)] does not throw: NaN compares neither
    below nor above the first entry the search looks at, so the search
    returns that entry's index, the middle bin [bins / 2], whatever the
    table holds. *)
Theorem intScale_nan (libm_exp libm_log : float -> float) (p : logicle_params float) :
  (0 < bins p < 2 ^ 30)%Z ->
  Z.of_nat (List.length (lookup p)) = (bins p + 1)%Z ->
  FastLogicle.intScale (AR := Binary64.arith libm_exp libm_log) p nan =
    Ok (bins p / 2)%Z.
Proof.
  intros Hb Hl.
  apply (@intScale_middle float (Binary64.arith libm_exp libm_log) p nan Hb Hl).
  split; cbn [flt Binary64.arith]; [apply ltb_nan_l | apply ltb_nan_r].
Qed.

Lemma intScale_nan_witness :
  exists p : logicle_params float,
    FastLogicle.FastLogicle5 (AR := Binary64.reference) 262144 0.5 4.5 0 8 = Ok p /\
    FastLogicle.intScale (AR := Binary64.reference) p nan = Ok (bins p / 2)%Z /\
    (bins p / 2 = 4)%Z.
Proof.
  eexists. split; [vm_compute; reflexivity|]. split; [|reflexivity].
  apply (intScale_nan Binary64.ref_exp Binary64.ref_log).
  - vm_compute. split; reflexivity.
  - reflexivity.
Defined.

Lemma inverse_int_spec_witness :
  exists p : logicle_params float,
    FastLogicle.FastLogicle5 (AR := Binary64.reference) 262144 0.5 4.5 0 8 = Ok p /\
    ((FastLogicle.inverse_int p 3 =
        Throw (IllegalArgumentInt 3) <-> (3 < 0 \/ 8 <= 3)%Z) /\
     ((0 <= 3 < 8)%Z ->
      FastLogicle.inverse_int p 3 =
        Logicle.inverse (AR := Binary64.reference) p (Binary64.of_Z 3 / Binary64.of_Z 8) /\
      FastLogicle.inverse_int p 3 =
        Ok (table (AR := Binary64.reference) p 3))).
Proof.
  eexists. split; [vm_compute; reflexivity|].
  apply (@inverse_int_spec float Binary64.reference 262144 0.5 4.5 0 8).
  vm_compute. reflexivity.
Defined.

(** Without bins the accelerated transform is constructed, and has no
    bin for any value. *)
Lemma no_bins_no_lookup_witness :
  exists p : logicle_params float,
    FastLogicle.FastLogicle5 (AR := Binary64.reference) 262144 0.5 4.5 0 0 = Ok p /\
    ((forall value, FastLogicle.intScale (AR := Binary64.reference) p value =
                      Throw (IllegalArgument value)) /\
     (forall value, FastLogicle.scale (AR := Binary64.reference) p value =
                      Throw (IllegalArgument value)) /\
     (forall position, FastLogicle.inverse (AR := Binary64.reference) p position =
                         Throw (IllegalArgument position)) /\
     (forall index, FastLogicle.inverse_int p index =
                      Throw (IllegalArgumentInt index))).
Proof.
  eexists. split; [vm_compute; reflexivity|].
  apply (@no_bins_no_lookup float Binary64.reference 262144 0.5 4.5 0 0).
  - vm_compute. reflexivity.
  - lia.
Defined.

Lemma copy_constructed_witness :
  exists p : logicle_params float,
    FastLogicle.FastLogicle5 (AR := Binary64.reference) 262144 0.5 4.5 0 8 = Ok p /\
    Logicle.Logicle_copy p = Ok p /\
    FastLogicle.FastLogicle_copy p = Ok p.
Proof.
  eexists. split; [vm_compute; reflexivity|].
  apply (proj2 (@copy_constructed float Binary64.reference 262144 0.5 4.5 0 8 _)).
  - vm_compute. reflexivity.
  - unfold in_int, INT_MIN, INT_MAX. lia.
Defined.

(** The transform of the documentation: [scale (-1000)] is the mirror image
    of [scale (1000)]. *)
Lemma scale_reflection_witness :
  exists p : logicle_params float,
    Logicle.Logicle4 (AR := Binary64.reference) 262144 0.5 4.5 0 = Ok p /\
    exists x, Logicle.scale (AR := Binary64.reference) p 1000 = Ok x /\
    (Logicle.scale (AR := Binary64.reference) p (-1000) =
      (x <- Logicle.scale (AR := Binary64.reference) p 1000 ;; Ok (2 * x1 p - x)) /\
     snd (Logicle.scale_run (AR := Binary64.reference) p (-1000)) =
     snd (Logicle.scale_run (AR := Binary64.reference) p 1000)).
Proof.
  eexists. split; [vm_compute; reflexivity|].
  eexists. split; [vm_compute; reflexivity|].
  apply (@scale_reflection float Binary64.reference _ 1000); reflexivity.
Defined.

Lemma axisLabels_overwrites_witness :
  exists (p : logicle_params float) (labels : list float),
    Logicle.Logicle4 (AR := Binary64.reference) 262144 0.5 4.5 0 = Ok p /\
    Logicle.axisLabels (AR := Binary64.reference) p [] = Ok labels /\
    Logicle.axisLabels (AR := Binary64.reference) p [1; 2; 3; 4; 5; 6; 7; 8] = Ok labels.
Proof.
  eexists. eexists. split; [vm_compute; reflexivity|].
  split; [vm_compute; reflexivity|].
  apply (@axisLabels_overwrites float Binary64.reference _ []).
  vm_compute. reflexivity.
Defined.

(** [FastLogicle (262144, 0.5, 4.5, 3.5, 3)]: the parameters are valid, the
    adjustment moves zero from the middle of the scale to the bin boundary
    2/3, the negative range then covers more decades than the positive one
    (8 labels against 4), and [axisLabels] writes past the end of the
    vector. *)
Lemma axisLabels_out_of_bounds_witness :
  exists p : logicle_params float,
    FastLogicle.FastLogicle5 (AR := Binary64.reference) 262144 0.5 4.5 3.5 3 = Ok p /\
    valid_parameters (AR := Binary64.reference) 262144 0.5 4.5 3.5 /\
    (exists x, FastLogicle.label_counts (AR := Binary64.reference) p =
                 Ok (8%Z, 4%Z, x)) /\
    FastLogicle.axisLabels (AR := Binary64.reference) p [] = Undefined.
Proof.
  eexists. split; [vm_compute; reflexivity|]. split; [repeat split|].
  split; [eexists; vm_compute; reflexivity|].
  refine (proj1 (@axisLabels_out_of_bounds float Binary64.reference
                   (FastLogicle.inverse (AR := Binary64.reference)) _
                   8%Z 4%Z _ [] _ _) _).
  - vm_compute. reflexivity.
  - lia.
  - vm_compute. discriminate.
Defined.

(** Eight bins over the parameters of the documentation. *)
Lemma lookup_table_spec_witness :
  exists p : logicle_params float,
    FastLogicle.FastLogicle5 (AR := Binary64.reference) 262144 0.5 4.5 0 8 = Ok p /\
    (bins p = 8%Z /\ (-1 <= 8)%Z /\
     Z.of_nat (List.length (lookup p)) = (8 + 1)%Z /\
     (forall i, (0 <= i <= 8)%Z ->
        Logicle.inverse (AR := Binary64.reference) p
          (Binary64.of_Z i / Binary64.of_Z 8) = Ok (table (AR := Binary64.reference) p i))).
Proof.
  eexists. split.
  - vm_compute. reflexivity.
  - apply (@lookup_table_spec float Binary64.reference 262144 0.5 4.5 0 8).
    + vm_compute. reflexivity.
    + unfold in_int, INT_MIN, INT_MAX. lia.
Defined.

(** The virtual call in [axisLabels]: on a [FastLogicle] constructed with
    [bins = 0] it runs [FastLogicle::inverse], which throws, where the same
    parameters as a [Logicle] give the labels. *)
Lemma axisLabels_dispatch :
  (exists p : logicle_params float,
     FastLogicle.FastLogicle5 (AR := Binary64.reference) 262144 0.5 4.5 0 0 = Ok p /\
     FastLogicle.axisLabels (AR := Binary64.reference) p [] =
       Throw (IllegalArgument 0)) /\
  (exists (p : logicle_params float) (labels : list float),
     Logicle.Logicle4 (AR := Binary64.reference) 262144 0.5 4.5 0 = Ok p /\
     Logicle.axisLabels (AR := Binary64.reference) p [] = Ok labels /\
     List.length labels = 6%nat).
Proof.
  split.
  - eexists. split; [vm_compute; reflexivity|]. vm_compute. reflexivity.
  - eexists. eexists. split; [vm_compute; reflexivity|].
    split; [vm_compute; reflexivity | reflexivity].
Qed.

End MoreRuns.

Section Binary64More.
Local Open Scope float_scope.

Lemma opp_involutive (v : float) : - - v = v.
Proof.
  apply Prim2SF_inj. rewrite !opp_spec.
  destruct (Prim2SF v) as [s|s| |s m e]; try destruct s; reflexivity.
Qed.

Lemma inverse_symmetry_when_exact_witness :
  exists p : logicle_params float,
    Logicle.Logicle4 (AR := Binary64.reference) 262144 0.5 4.5 0 = Ok p /\
    exists v, Logicle.inverse (AR := Binary64.reference) p 0 = Ok v /\
              Logicle.inverse (AR := Binary64.reference) p (2 * x1 p - 0) = Ok (- v).
Proof.
  eexists. split; [vm_compute; reflexivity|].
  apply (@inverse_symmetry_when_exact float Binary64.reference).
  - reflexivity.
  - exact opp_involutive.
  - left. split; vm_compute; reflexivity.
Defined.

Lemma intScale_binary64_witness :
  exists p : logicle_params float,
    FastLogicle.FastLogicle5 (AR := Binary64.reference) 262144 0.5 4.5 0 8 = Ok p /\
    intScale_post (AR := Binary64.reference) p 1000
      (FastLogicle.intScale (AR := Binary64.reference) p 1000).
Proof.
  eexists. split; [vm_compute; reflexivity|].
  apply (intScale_binary64 Binary64.ref_exp Binary64.ref_log).
  - vm_compute. split; reflexivity.
  - reflexivity.
  - intros i j x y Hij Hi Hj.
    do 9 (destruct i as [|i];
          [ do 9 (destruct j as [|j];
                  [ first [ exfalso; lia
                          | cbn in Hi, Hj; injection Hi as <-; injection Hj as <-;
                            vm_compute; reflexivity ] | ]);
            cbn in Hj; destruct j; discriminate Hj | ]).
    cbn in Hi. destruct i; discriminate Hi.
  - reflexivity.
Defined.

Lemma table_reads_in_bounds_witness :
  exists p : logicle_params float,
    FastLogicle.FastLogicle5 (AR := Binary64.reference) 262144 0.5 4.5 3.5 1 = Ok p /\
    lookup p = [nan; nan] /\
    match FastLogicle.scale (AR := Binary64.reference) p 1000 with
    | Ok _ => exists i, FastLogicle.intScale (AR := Binary64.reference) p 1000 = Ok i
    | Throw e => e = IllegalArgument 1000
    | Undefined => False
    end.
Proof.
  eexists. split; [vm_compute; reflexivity|]. split; [reflexivity|].
  match goal with |- context [FastLogicle.scale ?q _] =>
    exact (proj1 (proj2 (@table_reads_in_bounds float Binary64.reference q
                           ltac:(cbn [bins]; lia) eq_refl)) 1000)
  end.
Defined.

Lemma scale_defined_witness :
  exists p : logicle_params float,
    Logicle.Logicle5 (AR := Binary64.reference) 262144 0.5 4.5 0 0 = Ok p /\
    match Logicle.scale (AR := Binary64.reference) p 1000 with
    | Ok _ => True
    | Throw e => e = DidNotConverge "scale() didn't converge"
    | Undefined => False
    end.
Proof.
  eexists. split; [vm_compute; reflexivity|].
  apply (@scale_defined float Binary64.reference 262144 0.5 4.5 0 0).
  vm_compute. reflexivity.
Defined.

End Binary64More.

(** ** The bin adjustment in binary64 when zero rounds to the top bin *)

Section Binary64Adjustment.
Local Open Scope float_scope.

(** Any binary64 number divided by zero is an infinity or NaN. *)
Lemma div_zero (x : float) :
  x / 0 = infinity \/ x / 0 = neg_infinity \/ x / 0 = nan.
Proof.
  rewrite <- (SF2Prim_Prim2SF (x / 0)), div_spec.
  change (Prim2SF 0) with (S754_zero false).
  destruct (Prim2SF x) as [s|s| |s m e]; try destruct s; cbn; auto.
Qed.

(** X29. In binary64, for every [exp] and [log] of the platform: when
    [Logicle::initialize] accepts its parameters with [bins > 0] and the
    position of zero rounded to a bin boundary,
    [floor (zero * bins + .5) / bins], is 1, the adjusted [A],
    [(M * zero - W) / (1 - zero)], is a division by zero: the [A] of the
    constructed object is an infinity or NaN. *)
Theorem adjustment_not_finite (libm_exp libm_log : float -> float)
    (T0 W0 M0 A0 : float) (bins0 : Z) (p : logicle_params float) :
  Logicle.initialize (AR := Binary64.arith libm_exp libm_log)
    T0 W0 M0 A0 bins0 = Ok p ->
  (0 < bins0)%Z ->
  rounded_zero (AR := Binary64.arith libm_exp libm_log) W0 M0 A0 bins0 = 1 ->
  A p = infinity \/ A p = neg_infinity \/ A p = nan.
Proof.
  intros H Hb Hz. apply initialize_Ok in H.
  destruct H as (_ & _ & _ & _ & _ & _ & _ & _ & _ & HA & _).
  destruct (Z.gtb_spec bins0 0); [|lia].
  rewrite HA. unfold adjusted_A.
  change (ffloor _ / #bins0)%dbl with
    (rounded_zero (AR := Binary64.arith libm_exp libm_log) W0 M0 A0 bins0).
  rewrite Hz. cbn [fsub fdiv fmul of_int Binary64.arith].
  change (Binary64.of_Z 1 - 1) with 0. apply div_zero.
Qed.

Lemma adjustment_not_finite_witness :
  exists p : logicle_params float,
    Logicle.initialize (AR := Binary64.reference) 262144 0.5 4.5 3.5 1 = Ok p /\
    valid_parameters (AR := Binary64.reference) 262144 0.5 4.5 3.5 /\
    (A p = infinity \/ A p = neg_infinity \/ A p = nan).
Proof.
  eexists. split; [vm_compute; reflexivity|]. split; [repeat split|].
  apply (adjustment_not_finite Binary64.ref_exp Binary64.ref_log
           262144 0.5 4.5 3.5 1).
  - vm_compute. reflexivity.
  - lia.
  - vm_compute. reflexivity.
Defined.

End Binary64Adjustment.
